(** * Living Voices dataset pipeline: extraction, mapping, chunking, validation

    A shallow embedding of the Python scripts that build and check the
    retrieval datasets, followed by the properties of the pipeline that
    the specification states.

    - [Py]        the Python runtime operations the scripts rely on
                  ([str.split], [str.join], slices, [str(int)], formats);
    - [QE2]       tools/data_processing/queen_elizabeth_ii/process_data.py;
    - [DuFu]      tools/data_collection/du_fu/process_for_rag.py;
    - [Validator] tools/validation/validate_dataset.py;
    - [Extractor] tools/data_collection/du_fu/extract_from_xml.py. *)

From Stdlib Require Import ZArith NArith List String Ascii Bool Lia Decimal DecimalZ DecimalN.
From Stdlib Require Floats.SpecFloat.
From stdpp Require Import base list strings gmap.
Import ListNotations.

Local Open Scope Z_scope.

(* ===================================================================== *)
(** * Python runtime                                                      *)
(* ===================================================================== *)

Module Py.

(** A Python [str] is a sequence of Unicode code points. *)
Definition char : Type := N.
Definition str : Type := list char.

(** ASCII literals of the scripts, as code point sequences. *)
Definition lit (s : string) : str :=
  map N_of_ascii (list_ascii_of_string s).

Definition len {A} (l : list A) : Z := Z.of_nat (length l).

(** [str.isspace] on one code point, and the class [\s] of [re] on [str]
    patterns: the Unicode white space characters. *)
Definition isspace (c : char) : bool :=
  ((9 <=? c) && (c <=? 13) || (28 <=? c) && (c <=? 32)
   || (c =? 133) || (c =? 160) || (c =? 5760)
   || (8192 <=? c) && (c <=? 8202)
   || (c =? 8232) || (c =? 8233) || (c =? 8239) || (c =? 8287)
   || (c =? 12288))%N.

(** [s.split()] with no separator: maximal runs of non-space characters.
    [cur] is the run being read, most recent character first. *)
Fixpoint split_from (cur : str) (s : str) : list str :=
  match s with
  | [] => match cur with [] => [] | _ => [rev cur] end
  | c :: s' =>
      if isspace c
      then match cur with
           | [] => split_from [] s'
           | _ => rev cur :: split_from [] s'
           end
      else split_from (c :: cur) s'
  end.

Definition split (s : str) : list str := split_from [] s.

(** A word: a non-empty string without white space. *)
Definition word (w : str) : Prop :=
  w <> [] /\ Forall (fun c => isspace c = false) w.

(** [sep.join(parts)] *)
Fixpoint join (sep : str) (parts : list str) : str :=
  match parts with
  | [] => []
  | [x] => x
  | x :: rest => x ++ sep ++ join sep rest
  end.



(** Slice bounds: a negative index counts from the end, and every index
    is clamped into [0, len]. *)
Definition clamp_index (n i : Z) : Z :=
  if i <? 0 then Z.max 0 (i + n) else Z.min i n.

(** [l[i:j]] *)
Definition slice {A} (l : list A) (i j : Z) : list A :=
  let n := len l in
  let a := clamp_index n i in
  let b := clamp_index n j in
  firstn (Z.to_nat (b - a)) (skipn (Z.to_nat a) l).

(** Decimal digits of [str(n)]. *)
Fixpoint digits (d : Decimal.uint) : str :=
  match d with
  | Nil => []
  | D0 d => 48%N :: digits d
  | D1 d => 49%N :: digits d
  | D2 d => 50%N :: digits d
  | D3 d => 51%N :: digits d
  | D4 d => 52%N :: digits d
  | D5 d => 53%N :: digits d
  | D6 d => 54%N :: digits d
  | D7 d => 55%N :: digits d
  | D8 d => 56%N :: digits d
  | D9 d => 57%N :: digits d
  end.


(** [str(n)] and the [{n}] field of an f-string, for an [int]. *)
Definition str_of_int (n : Z) : str :=
  match Z.to_int n with
  | Decimal.Pos d => digits d
  | Decimal.Neg d => 45%N :: digits d
  end.

(** The [{n:04d}] field of an f-string: sign first, then zeros up to a
    total width of four. *)
Definition format_04d (n : Z) : str :=
  match Z.to_int n with
  | Decimal.Pos d => repeat 48%N (4 - length (digits d)) ++ digits d
  | Decimal.Neg d => 45%N :: repeat 48%N (3 - length (digits d)) ++ digits d
  end.

(** Truth value of a [str] and of a [list]. *)
Definition truthy {A} (l : list A) : bool :=
  match l with [] => false | _ => true end.

(** [a or b] on strings. *)
Definition or_else (a b : str) : str := if truthy a then a else b.

(** [needle in haystack] on strings. *)
Fixpoint starts_with (p s : str) : bool :=
  match p, s with
  | [], _ => true
  | _ :: _, [] => false
  | a :: p', b :: s' => (a =? b)%N && starts_with p' s'
  end.

Fixpoint contains (needle s : str) : bool :=
  starts_with needle s ||
  match s with
  | [] => false
  | _ :: s' => contains needle s'
  end.

(** The case mapping and the alphanumeric class come from the Unicode
    database of the interpreter. [ascii_tables] is their restriction to
    code points below 128, where [lower] moves [A-Z] only and the word
    characters are [0-9A-Za-z]; on ASCII text it agrees with CPython. *)
Record unicode_tables : Type := {
  lower : str -> str;
  isalnum : char -> bool
}.

Definition ascii_lower_char (c : char) : char :=
  if ((65 <=? c) && (c <=? 90))%N then (c + 32)%N else c.

Definition ascii_isalnum (c : char) : bool :=
  ((48 <=? c) && (c <=? 57) || (65 <=? c) && (c <=? 90)
   || (97 <=? c) && (c <=? 122))%N.

Definition ascii_tables : unicode_tables :=
  {| lower := map ascii_lower_char; isalnum := ascii_isalnum |}.

End Py.

Import Py.


(* ===================================================================== *)
(** * tools/data_processing/queen_elizabeth_ii/process_data.py            *)
(* ===================================================================== *)

Module QE2.

(** A raw (cleaned) Wikipedia document: a dict read with [.get(key, default)];
    an absent key is [None]. *)
Record RawDocument : Type := {
  raw_title : option str;
  raw_url : option str;
  raw_collection_timestamp : option str;
  raw_content : option str;
  raw_summary : option str
}.

Definition get (field : option str) (default : str) : str :=
  match field with Some v => v | None => default end.

Record Source : Type := {
  url : str;
  wikipedia_page : str;
  collected : str;
  processed : str
}.

Record Content : Type := {
  full_text : str;
  summary : str;
  word_count : Z;
  char_count : Z
}.

Record Metadata : Type := {
  persona : str;
  time_period : str;
  content_category : str;
  language : str;
  formality : str
}.

(** A structured document, as [_structure_document] builds it. *)
Record Document : Type := {
  id : str;
  type : str;
  title : str;
  source : Source;
  content : Content;
  metadata : Metadata
}.

(** A training chunk, as [_chunk_document] builds it. *)
Record Chunk : Type := {
  chunk_id : str;
  document_id : str;
  document_title : str;
  chunk_index : Z;
  chunk_content : str;
  chunk_word_count : Z;
  chunk_metadata : Metadata;
  chunk_source : Source
}.

Section Processor.

Variable U : unicode_tables.

(** [re.sub(r'[^\w\s-]', '', s)] *)
Definition keep_word_space_dash (s : str) : str :=
  List.filter (fun c => isalnum U c || (c =? 95)%N || isspace c || (c =? 45)%N) s.

(** [re.sub(r'[\s_]+', '_', s)]: every maximal run of white space and
    underscores becomes one underscore. [in_run] tells that the previous
    character belonged to such a run. *)
Fixpoint collapse_runs (in_run : bool) (s : str) : str :=
  match s with
  | [] => []
  | c :: s' =>
      if isspace c || (c =? 95)%N
      then (if in_run then collapse_runs true s'
            else 95%N :: collapse_runs true s')
      else c :: collapse_runs false s'
  end.

Definition _generate_doc_id (document : RawDocument) : str :=
  let title := get (raw_title document) (lit "unknown") in
  let doc_id := keep_word_space_dash (lower U title) in
  let doc_id := collapse_runs false doc_id in
  lit "qe2_" ++ doc_id.

Definition _determine_time_period (document : RawDocument) : str :=
  let title := lower U (get (raw_title document) []) in
  let has s := contains (lit s) title in
  if has "silver jubilee" || has "1977" then lit "1970s"
  else if has "golden jubilee" || has "2002" then lit "2000s"
  else if has "diamond jubilee" || has "2012" then lit "2010s"
  else if has "platinum jubilee" || has "2022" then lit "2020s"
  else if has "coronation" || has "1952" || has "1953" then lit "1950s"
  else if has "death" || has "funeral" then lit "2020s"
  else if has "george vi" then lit "1930s-1950s"
  else if has "churchill" then lit "1940s-1960s"
  else if has "annus horribilis" || has "1992" then lit "1990s"
  else lit "1952-2022".

Definition _categorize_content (document : RawDocument) : str :=
  let title := lower U (get (raw_title document) []) in
  let has s := contains (lit s) title in
  if has "elizabeth ii" && negb (has "death") then lit "biography"
  else if has "jubilee" then lit "celebration"
  else if has "coronation" then lit "ceremony"
  else if has "death" || has "funeral" then lit "historical_event"
  else if has "family" || has "philip" || has "george vi" then lit "family"
  else if has "christmas" then lit "tradition"
  else if has "commonwealth" then lit "political"
  else if has "jewels" || has "flag" || has "residences" then lit "royal_symbols"
  else if has "churchill" then lit "political_figures"
  else lit "general".

(** [now] is the value of [datetime.now().isoformat()] at the call. *)
Definition _structure_document (now : str) (document : RawDocument)
    (doc_type : str) : Document :=
  {| id := _generate_doc_id document;
     type := doc_type;
     title := get (raw_title document) (lit "Unknown");
     source := {| url := get (raw_url document) [];
                  wikipedia_page := get (raw_title document) [];
                  collected := get (raw_collection_timestamp document) [];
                  processed := now |};
     content := {| full_text := get (raw_content document) [];
                   summary := get (raw_summary document) [];
                   word_count := len (split (get (raw_content document) []));
                   char_count := len (get (raw_content document) []) |};
     metadata := {| persona := lit "Queen Elizabeth II";
                    time_period := _determine_time_period document;
                    content_category := _categorize_content document;
                    language := lit "English";
                    formality := lit "Formal" |} |}.

End Processor.

(** ** [_chunk_document] *)

(** The local variables of the [while] loop. *)
Record loop_state : Type := {
  start : Z;
  next_chunk_id : Z;
  chunks : list Chunk
}.

(** The chunk built in one iteration, from [start] and [chunk_id]. *)
Definition window (document : Document) (words : list str)
    (chunk_size : Z) (start chunk_id : Z) : Chunk :=
  let end_ := Z.min (start + chunk_size) (len words) in
  let chunk_text := join (lit " ") (slice words start end_) in
  {| chunk_id := id document ++ lit "_chunk_" ++ str_of_int chunk_id;
     document_id := id document;
     document_title := title document;
     chunk_index := chunk_id;
     chunk_content := chunk_text;
     chunk_word_count := len (split chunk_text);
     chunk_metadata := metadata document;
     chunk_source := source document |}.

(** One evaluation of the loop test followed, when it holds, by the loop
    body: either the loop goes on in a new state, or it is left (by the
    test or by [break]) with the chunks to return. *)
Definition iteration (document : Document) (words : list str)
    (chunk_size overlap : Z) (s : loop_state) : loop_state + list Chunk :=
  if start s <? len words then
    let chunk := window document words chunk_size (start s) (next_chunk_id s) in
    let chunks' := chunks s ++ [chunk] in
    let chunk_id' := next_chunk_id s + 1 in
    let start' := start s + (chunk_size - overlap) in
    if start' >=? len words then inr chunks'
    else inl {| start := start'; next_chunk_id := chunk_id'; chunks := chunks' |}
  else inr (chunks s).

(** The loop, run for at most [fuel] iterations; [None] when it is still
    running after them. *)
Fixpoint while_loop (fuel : nat) (document : Document) (words : list str)
    (chunk_size overlap : Z) (s : loop_state) : option (list Chunk) :=
  match fuel with
  | O => None
  | S fuel' =>
      match iteration document words chunk_size overlap s with
      | inr result => Some result
      | inl s' => while_loop fuel' document words chunk_size overlap s'
      end
  end.

Definition _chunk_document (fuel : nat) (document : Document)
    (chunk_size overlap : Z) : option (list Chunk) :=
  let words := split (full_text (content document)) in
  while_loop fuel document words chunk_size overlap
    {| start := 0; next_chunk_id := 0; chunks := [] |}.

(** [_chunk_document] returns [result]: some number of iterations ends
    the loop with it. *)
Definition chunk_document_returns (document : Document)
    (chunk_size overlap : Z) (result : list Chunk) : Prop :=
  exists fuel, _chunk_document fuel document chunk_size overlap = Some result.

(** ** [_create_chunks] *)

Definition chunk_size : Z := 500.
Definition overlap : Z := 100.

Fixpoint extend_articles (fuel : nat) (acc : list Chunk)
    (articles : list Document) : option (list Chunk) :=
  match articles with
  | [] => Some acc
  | article :: rest =>
      match _chunk_document fuel article chunk_size overlap with
      | Some article_chunks => extend_articles fuel (acc ++ article_chunks) rest
      | None => None
      end
  end.

Definition _create_chunks (fuel : nat) (biography : Document)
    (articles : list Document) : option (list Chunk) :=
  match _chunk_document fuel biography chunk_size overlap with
  | Some bio_chunks => extend_articles fuel ([] ++ bio_chunks) articles
  | None => None
  end.

Definition create_chunks_returns (biography : Document)
    (articles : list Document) (result : list Chunk) : Prop :=
  exists fuel, _create_chunks fuel biography articles = Some result.

(** ** Notions in which the chunking properties are stated *)

(** The words of a chunk, as a reader of the chunk file sees them. *)
Definition chunk_words (c : Chunk) : list str := split (chunk_content c).

(** The part of a chunk that the chunk before it does not already hold:
    every chunk but the first starts with [overlap] words repeated from
    its predecessor. *)
Definition fresh_words (overlap : Z) (c : Chunk) : list str :=
  if chunk_index c =? 0 then chunk_words c
  else slice (chunk_words c) overlap (len (chunk_words c)).

(** [count] successive windows, the first at [start] with index
    [chunk_id], each [stride] words after the one before. *)
Fixpoint windows (document : Document) (words : list str)
    (chunk_size stride : Z) (count : nat) (start chunk_id : Z) : list Chunk :=
  match count with
  | O => []
  | S count' =>
      window document words chunk_size start chunk_id
      :: windows document words chunk_size stride count'
           (start + stride) (chunk_id + 1)
  end.

(** What the chunk at position [i] of a document carries. *)
Definition labelled (document : Document) (i : nat) (c : Chunk) : Prop :=
  chunk_index c = Z.of_nat i /\
  chunk_id c = id document ++ lit "_chunk_" ++ str_of_int (Z.of_nat i) /\
  document_id c = id document /\
  document_title c = title document /\
  chunk_metadata c = metadata document /\
  chunk_source c = source document.

Definition all_labelled (document : Document) (l : list Chunk) : Prop :=
  forall i c, nth_error l i = Some c -> labelled document i c.

(** No two underscores side by side. *)
Definition no_double_underscore (s : str) : Prop :=
  forall a b, s <> a ++ [95%N; 95%N] ++ b.

(** The windows of a document under the pipeline's sizes. *)
Definition doc_windows (document : Document) : list Chunk :=
  let words := split (full_text (content document)) in
  windows document words chunk_size (chunk_size - overlap)
    (Z.to_nat ((len words + (chunk_size - overlap) - 1)
               / (chunk_size - overlap))) 0 0.

(** Fuel for every document of a list. *)
Definition enough (documents : list Document) : nat :=
  S (fold_right Nat.max 0%nat (map (fun d => length (doc_windows d)) documents)).

(** ** Sample documents *)

(** A structured document whose text is the word "word" [k] times. *)
Definition sample_document (k : nat) : Document :=
  let text := concat (repeat (lit "word ") k) in
  {| id := lit "qe2_sample";
     type := lit "biography";
     title := lit "Sample";
     source := {| url := []; wikipedia_page := lit "Sample";
                  collected := []; processed := lit "2024-10-04T00:00:00" |};
     content := {| full_text := text; summary := [];
                   word_count := len (split text); char_count := len text |};
     metadata := {| persona := lit "Queen Elizabeth II";
                    time_period := lit "1952-2022";
                    content_category := lit "general";
                    language := lit "English";
                    formality := lit "Formal" |} |}.

Definition raw_sample (page_title text : string) : RawDocument :=
  {| raw_title := Some (lit page_title);
     raw_url := None;
     raw_collection_timestamp := None;
     raw_content := Some (lit text);
     raw_summary := None |}.

(** Two pages whose titles differ only by punctuation. *)
Definition biography_sample : Document :=
  _structure_document ascii_tables (lit "2024-10-04T00:00:00")
    (raw_sample "Elizabeth II" "Elizabeth II was Queen") (lit "biography").


End QE2.


(* ===================================================================== *)
(** * tools/data_collection/du_fu/process_for_rag.py                      *)
(* ===================================================================== *)

Module DuFu.

(** ** The poems of [dufu_poems_full.json], as extract_from_xml.py writes
    them (the fields that the processor reads) *)

Record Allusion : Type := {
  allusion_id : str;
  sentence_index : str;
  text : str
}.

Record Annotation : Type := {
  index : str;
  ann_content : str
}.

Record Poem : Type := {
  poem_id : str;
  author_id : str;
  title : str;
  lines : list str;
  creation_date : str;
  place_code : str;
  poem_type : str;
  poem_type_detail : str;
  rhyme_category : str;
  allusions : list Allusion;
  text_annotations : list Annotation
}.

(** ** Structured documents *)

Record Source : Type := {
  database : str;
  author : str;
  source_author_id : str;
  source_poem_id : str;
  collected : str;
  processed : str
}.

Record Content : Type := {
  full_text : str;
  poem_lines : list str;
  line_count : Z;
  char_count : Z
}.

Record Metadata : Type := {
  persona : str;
  time_period : str;
  place : str;
  md_poem_type : str;
  md_poem_type_detail : str;
  md_rhyme_category : str;
  has_allusions : bool;
  allusion_count : Z;
  has_annotations : bool;
  annotation_count : Z;
  language : str;
  formality : str;
  content_category : str
}.

Record Document : Type := {
  doc_id : str;
  doc_type : str;
  doc_title : str;
  source : Source;
  content : Content;
  metadata : Metadata
}.

(** ** Training chunks. The metadata dict of a chunk has the flags, the
    allusion count or the annotation count according to its type. *)

Record ChunkMetadata : Type := {
  chunk_persona : str;
  chunk_time_period : str;
  poem_title : str;
  chunk_poem_type : str;
  chunk_language : str;
  chunk_has_allusions : option bool;
  chunk_has_annotations : option bool;
  chunk_allusion_count : option Z;
  chunk_annotation_count : option Z
}.

Record Chunk : Type := {
  chunk_id : str;
  source_document_id : str;
  chunk_type : str;
  chunk_content : str;
  chunk_char_count : Z;
  chunk_metadata : ChunkMetadata
}.

Definition nl : str := [10%N].
Definition du_fu : str := [26460%N; 29995%N].
Definition unknown : str := lit "Unknown".

Definition when (b : bool) {A} (l : list A) : list A := if b then l else [].

(** [sum(len(line) for line in lines)] *)
Definition sum_len (lines : list str) : Z :=
  fold_left (fun acc line => acc + len line) lines 0.

(** ** [_create_structured_documents], for one poem. [extraction_date] is
    [self.metadata['extraction_date']]; [now] is the value of
    [datetime.now().isoformat()] when the document is built. *)

Definition full_text_parts (poem : Poem) : list str :=
  let creation_info :=
    when (truthy (creation_date poem)) [lit "Date: " ++ creation_date poem]
    ++ when (truthy (place_code poem)) [lit "Place: " ++ place_code poem] in
  let lit_info :=
    when (truthy (poem_type poem)) [lit "Type: " ++ poem_type poem]
    ++ when (truthy (rhyme_category poem)) [lit "Rhyme: " ++ rhyme_category poem] in
  when (truthy (title poem)) [lit "Title: " ++ title poem; []]
  ++ when (truthy (lines poem)) ([lit "Poem:"] ++ lines poem ++ [[]])
  ++ when (truthy creation_info)
       ([lit "Creation Information:"] ++ creation_info ++ [[]])
  ++ when (truthy lit_info)
       ([lit "Literary Characteristics:"] ++ lit_info ++ [[]])
  ++ when (truthy (allusions poem))
       ([lit "Allusions:"]
        ++ map (fun allusion => lit "  - " ++ text allusion)
             (List.filter (fun allusion => truthy (text allusion))
                (allusions poem))
        ++ [[]])
  ++ when (truthy (text_annotations poem))
       ([lit "Annotations:"]
        ++ map (fun ann => lit "  - " ++ ann_content ann)
             (List.filter (fun ann => truthy (ann_content ann))
                (firstn 5 (text_annotations poem)))
        ++ when (len (text_annotations poem) >? 5)
             [lit "  ... and "
              ++ str_of_int (len (text_annotations poem) - 5)
              ++ lit " more"]
        ++ [[]]).

Definition structured_document (extraction_date now : str) (poem : Poem)
    : Document :=
  let full_text := join nl (full_text_parts poem) in
  let char_count := sum_len (lines poem) in
  {| doc_id := lit "dufu_" ++ poem_id poem;
     doc_type := lit "poem";
     doc_title := or_else (title poem) (lit "Untitled");
     source := {| database := lit "CNKGraph.Writings.xml";
                  author := du_fu;
                  source_author_id := author_id poem;
                  source_poem_id := poem_id poem;
                  collected := extraction_date;
                  processed := now |};
     content := {| full_text := full_text;
                   poem_lines := lines poem;
                   line_count := len (lines poem);
                   char_count := char_count |};
     metadata := {| persona := lit "Du Fu (" ++ du_fu ++ lit ")";
                    time_period := or_else (creation_date poem) unknown;
                    place := or_else (place_code poem) unknown;
                    md_poem_type := or_else (poem_type poem) unknown;
                    md_poem_type_detail := or_else (poem_type_detail poem) unknown;
                    md_rhyme_category := or_else (rhyme_category poem) unknown;
                    has_allusions := len (allusions poem) >? 0;
                    allusion_count := len (allusions poem);
                    has_annotations := len (text_annotations poem) >? 0;
                    annotation_count := len (text_annotations poem);
                    language := lit "Classical Chinese";
                    formality := lit "Formal";
                    content_category := lit "poetry" |} |}.

(** The loop over [self.poems]; [clock i] is the time read while the poem
    at position [i] is mapped. *)
Fixpoint create_from (extraction_date : str) (clock : nat -> str) (i : nat)
    (poems : list Poem) : list Document :=
  match poems with
  | [] => []
  | poem :: rest =>
      structured_document extraction_date (clock i) poem
      :: create_from extraction_date clock (S i) rest
  end.

Definition _create_structured_documents (extraction_date : str)
    (clock : nat -> str) (poems : list Poem) : list Document :=
  create_from extraction_date clock 0 poems.

(** ** [_generate_training_chunks] *)

Definition str_eqb (a b : str) : bool := bool_decide (a = b).

Definition number (chunk_id : Z) : str := lit "dufu_chunk_" ++ format_04d chunk_id.

(** Chunk 1: title, text and creation context. *)
Definition chunk1 (chunk_id : Z) (doc : Document) : Chunk :=
  let chunk_parts :=
    when (truthy (doc_title doc)) [lit "Poem Title: " ++ doc_title doc]
    ++ when (truthy (poem_lines (content doc)))
         ([nl ++ lit "Poem Text:"] ++ poem_lines (content doc))
    ++ when (negb (str_eqb (time_period (metadata doc)) unknown))
         [nl ++ lit "Creation Date: " ++ time_period (metadata doc)]
    ++ when (negb (str_eqb (place (metadata doc)) unknown))
         [lit "Location: " ++ place (metadata doc)]
    ++ when (negb (str_eqb (md_poem_type (metadata doc)) unknown))
         [lit "Poem Type: " ++ md_poem_type (metadata doc)] in
  let chunk1_text := join nl chunk_parts in
  {| chunk_id := number chunk_id;
     source_document_id := doc_id doc;
     chunk_type := lit "poem_content";
     chunk_content := chunk1_text;
     chunk_char_count := len chunk1_text;
     chunk_metadata :=
       {| chunk_persona := persona (metadata doc);
          chunk_time_period := time_period (metadata doc);
          poem_title := doc_title doc;
          chunk_poem_type := md_poem_type (metadata doc);
          chunk_language := language (metadata doc);
          chunk_has_allusions := Some (has_allusions (metadata doc));
          chunk_has_annotations := Some (has_annotations (metadata doc));
          chunk_allusion_count := None;
          chunk_annotation_count := None |} |}.

(** Chunk 2: the allusions of the poem found for the document. *)
Definition chunk2 (chunk_id : Z) (doc : Document) (poem : Poem) : Chunk :=
  let allusion_parts :=
    [lit "Poem: " ++ doc_title doc; []]
    ++ [lit "Literary Allusions and References:"]
    ++ map (fun allusion => lit "  " ++ text allusion)
         (List.filter (fun allusion => truthy (text allusion)) (allusions poem)) in
  let chunk2_text := join nl allusion_parts in
  {| chunk_id := number chunk_id;
     source_document_id := doc_id doc;
     chunk_type := lit "allusions_context";
     chunk_content := chunk2_text;
     chunk_char_count := len chunk2_text;
     chunk_metadata :=
       {| chunk_persona := persona (metadata doc);
          chunk_time_period := time_period (metadata doc);
          poem_title := doc_title doc;
          chunk_poem_type := md_poem_type (metadata doc);
          chunk_language := language (metadata doc);
          chunk_has_allusions := None;
          chunk_has_annotations := None;
          chunk_allusion_count := Some (len (allusions poem));
          chunk_annotation_count := None |} |}.

(** Chunk 3: the first ten annotations of the poem found for the
    document, and how many more there are. *)
Definition ann_parts (doc : Document) (poem : Poem) : list str :=
  [lit "Poem: " ++ doc_title doc; []]
  ++ [lit "Scholarly Annotations:"]
  ++ map (fun ann => lit "  " ++ ann_content ann)
       (List.filter (fun ann => truthy (ann_content ann))
          (firstn 10 (text_annotations poem)))
  ++ when (len (text_annotations poem) >? 10)
       [nl ++ lit "... and " ++ str_of_int (len (text_annotations poem) - 10)
        ++ lit " more annotations"].

Definition chunk3 (chunk_id : Z) (doc : Document) (poem : Poem) : Chunk :=
  let chunk3_text := join nl (ann_parts doc poem) in
  {| chunk_id := number chunk_id;
     source_document_id := doc_id doc;
     chunk_type := lit "annotations_context";
     chunk_content := chunk3_text;
     chunk_char_count := len chunk3_text;
     chunk_metadata :=
       {| chunk_persona := persona (metadata doc);
          chunk_time_period := time_period (metadata doc);
          poem_title := doc_title doc;
          chunk_poem_type := md_poem_type (metadata doc);
          chunk_language := language (metadata doc);
          chunk_has_allusions := None;
          chunk_has_annotations := None;
          chunk_allusion_count := None;
          chunk_annotation_count := Some (len (text_annotations poem)) |} |}.

(** The counter [chunk_id] and the list [self.training_chunks]. *)
Record state : Type := {
  next_chunk_id : Z;
  training_chunks : list Chunk
}.

Definition append (st : state) (chunk : Z -> Chunk) : state :=
  {| next_chunk_id := next_chunk_id st + 1;
     training_chunks := training_chunks st ++ [chunk (next_chunk_id st)] |}.

(** [next((p for p in self.poems if p['poem_id'] == doc['source']['poem_id']), None)] *)
Definition find_poem (poems : list Poem) (doc : Document) : option Poem :=
  List.find (fun p => str_eqb (poem_id p) (source_poem_id (source doc))) poems.

(** The body of the loop over [self.structured_documents]. *)
Definition generate_for (poems : list Poem) (st : state) (doc : Document)
    : state :=
  let st := append st (fun chunk_id => chunk1 chunk_id doc) in
  let poem := find_poem poems doc in
  let st :=
    match poem with
    | Some poem =>
        if truthy (allusions poem) && (len (allusions poem) >? 0)
        then append st (fun chunk_id => chunk2 chunk_id doc poem)
        else st
    | None => st
    end in
  match poem with
  | Some poem =>
      if truthy (text_annotations poem) && (len (text_annotations poem) >? 0)
      then append st (fun chunk_id => chunk3 chunk_id doc poem)
      else st
  | None => st
  end.

Definition _generate_training_chunks (poems : list Poem)
    (structured_documents : list Document) : list Chunk :=
  training_chunks
    (fold_left (generate_for poems) structured_documents
       {| next_chunk_id := 1; training_chunks := [] |}).

(** [process_all], up to the chunks: documents, then chunks. *)
Definition process_all (extraction_date : str) (clock : nat -> str)
    (poems : list Poem) : list Document * list Chunk :=
  let structured_documents :=
    _create_structured_documents extraction_date clock poems in
  (structured_documents, _generate_training_chunks poems structured_documents).

(** ** Notions in which the chunking properties are stated *)

(** The chunks of the output that refer to a document. *)
Definition chunks_of (doc : Document) (chunks : list Chunk) : list Chunk :=
  List.filter (fun c => str_eqb (source_document_id c) (doc_id doc)) chunks.

Definition of_type (kind : string) (chunks : list Chunk) : list Chunk :=
  List.filter (fun c => str_eqb (chunk_type c) (lit kind)) chunks.

Definition flag (b : bool) : Z := if b then 1 else 0.

(** The chunks that one pass of the loop body appends when the counter
    is [chunk_id], and those of the passes over a list of documents. *)
Definition emitted (poems : list Poem) (chunk_id : Z) (doc : Document)
    : list Chunk :=
  training_chunks
    (generate_for poems {| next_chunk_id := chunk_id; training_chunks := [] |} doc).

Fixpoint emitted_all (poems : list Poem) (chunk_id : Z)
    (docs : list Document) : list Chunk :=
  match docs with
  | [] => []
  | doc :: rest =>
      emitted poems chunk_id doc
      ++ emitted_all poems (chunk_id + len (emitted poems chunk_id doc)) rest
  end.

(** A document with its processing time replaced. *)
Definition with_processed (t : str) (doc : Document) : Document :=
  {| doc_id := doc_id doc;
     doc_type := doc_type doc;
     doc_title := doc_title doc;
     source := {| database := database (source doc);
                  author := author (source doc);
                  source_author_id := source_author_id (source doc);
                  source_poem_id := source_poem_id (source doc);
                  collected := collected (source doc);
                  processed := t |};
     content := content doc;
     metadata := metadata doc |}.

(** ** Sample poems *)

Definition annotation (s : string) : Annotation :=
  {| index := lit "0"; ann_content := lit s |}.

Definition allusion (s : string) : Allusion :=
  {| allusion_id := lit "1"; sentence_index := lit "0"; text := lit s |}.

Definition sample_poem (pid : string) (poem_title : str)
    (als : list Allusion) (anns : list Annotation) : Poem :=
  {| poem_id := lit pid;
     author_id := lit "1";
     title := poem_title;
     lines := [[22269%N; 30772%N; 23665%N; 27827%N; 22312%N];
               [22478%N; 26149%N; 33609%N; 26408%N; 28145%N];
               [24863%N; 26178%N; 33457%N; 28293%N; 28122%N];
               [24680%N; 21029%N; 40165%N; 39514%N; 24515%N]];
     creation_date := lit "757";
     place_code := [];
     poem_type := lit "5";
     poem_type_detail := [];
     rhyme_category := [];
     allusions := als;
     text_annotations := anns |}.

(** "Spring View", with 2 allusions and 6 annotations. *)
Definition chun_wang : Poem :=
  sample_poem "1001" [26149%N; 26395%N]
    [allusion "first"; allusion "second"]
    [annotation "n1"; annotation "n2"; annotation "n3";
     annotation "n4"; annotation "n5"; annotation "n6"].

Definition sample_clock (i : nat) : str := lit "2025-10-04T12:00:00".
Definition later_clock (i : nat) : str := lit "2025-10-05T09:30:00".
Definition sample_date : str := lit "2025-10-04".

(** Two records with the same identifier, as two records that lack the
    [Id] attribute are after extraction. *)
Definition twins_allusion : list Poem :=
  [sample_poem "" [] [allusion "first"] [];
   sample_poem "" [] [] []].

Definition twins_annotation : list Poem :=
  [sample_poem "" [] [] [];
   sample_poem "" [] [] [annotation "n1"]].

End DuFu.

(* ===================================================================== *)
(** * tools/validation/validate_dataset.py                                *)
(* ===================================================================== *)

Module Validator.

(** ** JSON values, as [json.load] returns them. Numbers are the integers;
    a dict is the list of its items, whose keys are pairwise distinct. *)
#[local] Unset Elimination Schemes.
Inductive json : Type :=
  | JNull
  | JBool (b : bool)
  | JInt (n : Z)
  | JStr (s : str)
  | JList (items : list json)
  | JObj (fields : list (str * json)).
#[local] Set Elimination Schemes.

(** Truth value of a Python object. *)
Definition truth (v : json) : bool :=
  match v with
  | JNull => false
  | JBool b => b
  | JInt n => negb (n =? 0)
  | JStr s => truthy s
  | JList items => truthy items
  | JObj fields => truthy fields
  end.

(** [a or b] *)
Definition or_ (a b : json) : json := if truth a then a else b.

Definition str_eqb (a b : str) : bool := bool_decide (a = b).

(** [key in d] and [d.get(key, default)] on a dict. *)
Fixpoint has_key (fields : list (str * json)) (key : str) : bool :=
  match fields with
  | [] => false
  | (k, _) :: rest => str_eqb k key || has_key rest key
  end.

Fixpoint get_default (fields : list (str * json)) (key : str)
    (default : json) : json :=
  match fields with
  | [] => default
  | (k, v) :: rest => if str_eqb k key then v else get_default rest key default
  end.

(** [d.get(key)]: [None] when the key is absent. *)
Definition get (fields : list (str * json)) (key : string) : json :=
  get_default fields (lit key) JNull.

(** Lists and dicts cannot be members of a [set] or keys of a [Counter]. *)
Definition hashable (v : json) : bool :=
  match v with
  | JList _ | JObj _ => false
  | _ => true
  end.

Definition as_int (b : bool) : Z := if b then 1 else 0.

(** [a == b] on hashable values: [True] and [False] are the integers 1
    and 0. *)
Definition py_eq (a b : json) : bool :=
  match a, b with
  | JNull, JNull => true
  | JStr s, JStr t => str_eqb s t
  | JInt n, JInt m => n =? m
  | JInt n, JBool b => n =? as_int b
  | JBool b, JInt m => as_int b =? m
  | JBool b, JBool c => Bool.eqb b c
  | _, _ => false
  end.

Definition member (v : json) (set : list json) : bool := existsb (py_eq v) set.

(** ** Issues and warnings. The validator appends formatted strings; the
    model keeps what each string is made from. *)
Inductive message : Type :=
  | RequiredFileMissing (filename : string)
  | FailedToLoad (filename : string)
  | MustContainList (filename : string)
  | IsEmpty (filename : string)
  | DocumentMissingField (i : nat) (field : string)
  | DuplicateDocumentID (doc_id : json)
  | DocumentEmptyContent (doc_id : json)
  | ChunkMissingID (i : nat)
  | DuplicateChunkID (chunk_id : json)
  | ChunkMissingSource (i : nat)
  | ChunkEmptyContent (chunk_id : json)
  | OrphanChunks (count : Z).

Record Stats : Type := {
  total_documents : Z;
  total_chunks : Z;
  total_words : Z;
  total_characters : Z;
  total_tokens : Z;
  document_types : list (json * Z);
  categories : list (json * Z);
  chunk_types : list (json * Z)
}.

Record Report : Type := {
  report_dataset_name : str;
  validation_date : str;
  status : string;
  statistics : option Stats;
  report_issues : list message;
  report_warnings : list message;
  total_issues : Z;
  total_warnings : Z;
  validation_passed : bool
}.

(** ** The files of a directory. A file that exists either loads as JSON
    or makes [open]/[json.load] raise; the report is what the validator
    writes: [Written r] is the whole text of [r], [Truncated r] the
    beginning of that text, left behind when [json.dump] raised before
    its end. *)
Inductive file : Type :=
  | Unreadable
  | Data (v : json)
  | Written (r : Report)
  | Truncated (r : Report).

(** The file system: (directory, file name) to file. *)
Abbreviation files := (gmap (str * string) file).

(** ** The validator object and the world it runs in *)
Record validator : Type := {
  dataset_name : str;
  processed_dir : str;
  issues : list message;
  warnings : list message;
  stats : option Stats;
  documents : option json;
  chunks : option json
}.

Record state : Type := {
  self : validator;
  fs : files
}.

(** The end of a call: a result and a new state, or an exception that
    nothing catches, which leaves the file system as it is then. *)
Inductive result (A : Type) : Type :=
  | Return (r : A * state)
  | Raise (disk : files).
Arguments Return {A} r.
Arguments Raise {A} disk.

(** Methods. *)
Definition M (A : Type) : Type := state -> result A.

Definition ret {A} (a : A) : M A := fun s => Return (a, s).
Definition raise {A} : M A := fun s => Raise (fs s).
Definition bind {A B} (m : M A) (k : A -> M B) : M B :=
  fun s => match m s with
           | Return (a, s') => k a s'
           | Raise disk => Raise disk
           end.

Notation "x <- m ;; k" := (bind m (fun x => k))
  (at level 100, m at next level, right associativity).
Notation "m ;;; k" := (bind m (fun _ => k))
  (at level 100, right associativity).

Definition read_self : M validator := fun s => Return (self s, s).
Definition read_fs : M files := fun s => Return (fs s, s).

Definition update (f : validator -> validator) : M unit :=
  fun s => Return (tt, {| self := f (self s); fs := fs s |}).

Definition add_issue (m : message) : M unit :=
  update (fun v =>
    {| dataset_name := dataset_name v; processed_dir := processed_dir v;
       issues := issues v ++ [m]; warnings := warnings v;
       stats := stats v; documents := documents v; chunks := chunks v |}).

Definition add_warning (m : message) : M unit :=
  update (fun v =>
    {| dataset_name := dataset_name v; processed_dir := processed_dir v;
       issues := issues v; warnings := warnings v ++ [m];
       stats := stats v; documents := documents v; chunks := chunks v |}).

Definition set_documents (d : json) : M unit :=
  update (fun v =>
    {| dataset_name := dataset_name v; processed_dir := processed_dir v;
       issues := issues v; warnings := warnings v;
       stats := stats v; documents := Some d; chunks := chunks v |}).

Definition set_chunks (c : json) : M unit :=
  update (fun v =>
    {| dataset_name := dataset_name v; processed_dir := processed_dir v;
       issues := issues v; warnings := warnings v;
       stats := stats v; documents := documents v; chunks := Some c |}).

Definition set_stats (st : Stats) : M unit :=
  update (fun v =>
    {| dataset_name := dataset_name v; processed_dir := processed_dir v;
       issues := issues v; warnings := warnings v;
       stats := Some st; documents := documents v; chunks := chunks v |}).

Definition write_file (name : string) (f : file) : M unit :=
  fun s => Return (tt, {| self := self s;
                          fs := <[(processed_dir (self s), name) := f]> (fs s) |}).

Definition when_ (b : bool) (m : M unit) : M unit := if b then m else ret tt.

(** [for i, x in enumerate(l): body] *)
Fixpoint for_each {A} (body : nat -> A -> M unit) (i : nat) (l : list A)
    : M unit :=
  match l with
  | [] => ret tt
  | x :: rest => body i x ;;; for_each body (S i) rest
  end.

Definition no_issues : M bool :=
  v <- read_self ;; ret (len (issues v) =? 0).

(** [__init__] *)
Definition init (dataset_name processed_dir : str) : validator :=
  {| dataset_name := dataset_name; processed_dir := processed_dir;
     issues := []; warnings := []; stats := None;
     documents := None; chunks := None |}.

(** ** [_check_required_files] *)
Definition required_files : list string :=
  ["structured_documents.json"; "training_chunks.json";
   "dataset_metadata.json"]%string.

Fixpoint check_files (all_exist : bool) (names : list string) : M bool :=
  match names with
  | [] => ret all_exist
  | filename :: rest =>
      v <- read_self ;;
      files <- read_fs ;;
      match files !! (processed_dir v, filename) with
      | Some _ => check_files all_exist rest
      | None =>
          add_issue (RequiredFileMissing filename) ;;;
          check_files false rest
      end
  end.

Definition _check_required_files : M bool := check_files true required_files.

(** ** [_validate_documents] *)
Definition required_fields : list string :=
  ["id"; "title"; "type"; "content"]%string.

(** The body of the loop over the documents; [doc_ids] is the set of
    identifiers seen so far, which the body returns updated. A document
    that is not a dict has no [get] method. *)
Definition validate_document (i : nat) (doc : json) (doc_ids : list json)
    : M (list json) :=
  match doc with
  | JObj fields =>
      for_each (fun _ field =>
                  when_ (negb (has_key fields (lit field)))
                    (add_issue (DocumentMissingField i field)))
        0 required_fields ;;;
      let doc_id := get fields "id" in
      doc_ids' <-
        (if truth doc_id then
           if hashable doc_id then
             when_ (member doc_id doc_ids)
               (add_issue (DuplicateDocumentID doc_id)) ;;;
             ret (doc_ids ++ [doc_id])
           else raise
         else ret doc_ids) ;;
      when_ (negb (truth (get fields "content")))
        (add_warning (DocumentEmptyContent doc_id)) ;;;
      ret doc_ids'
  | _ => raise
  end.

Fixpoint validate_each {A} (body : nat -> json -> A -> M A) (i : nat)
    (l : list json) (acc : A) : M A :=
  match l with
  | [] => ret acc
  | x :: rest => acc' <- body i x acc ;; validate_each body (S i) rest acc'
  end.

Definition _validate_documents : M bool :=
  v <- read_self ;;
  files <- read_fs ;;
  match files !! (processed_dir v, "structured_documents.json"%string) with
  | Some (Data loaded) =>
      set_documents loaded ;;;
      match loaded with
      | JList [] =>
          add_issue (IsEmpty "structured_documents.json") ;;; ret false
      | JList docs =>
          validate_each validate_document 0 docs [] ;;; no_issues
      | _ =>
          add_issue (MustContainList "structured_documents.json") ;;;
          ret false
      end
  | Some (Written _) =>
      (* a report is a dict *)
      add_issue (MustContainList "structured_documents.json") ;;; ret false
  | _ => add_issue (FailedToLoad "structured_documents.json") ;;; ret false
  end.

(** ** [_validate_chunks] *)
Definition validate_chunk (i : nat) (chunk : json) (chunk_ids : list json)
    : M (list json) :=
  match chunk with
  | JObj fields =>
      let chunk_id := or_ (get fields "id") (get fields "chunk_id") in
      chunk_ids' <-
        (if negb (truth chunk_id) then
           add_issue (ChunkMissingID i) ;;; ret chunk_ids
         else if hashable chunk_id then
           when_ (member chunk_id chunk_ids)
             (add_issue (DuplicateChunkID chunk_id)) ;;;
           ret (chunk_ids ++ [chunk_id])
         else raise) ;;
      let source_id :=
        or_ (get fields "source_document_id") (get fields "document_id") in
      when_ (negb (truth source_id)) (add_issue (ChunkMissingSource i)) ;;;
      when_ (negb (truth (get fields "content")))
        (add_warning (ChunkEmptyContent chunk_id)) ;;;
      ret chunk_ids'
  | _ => raise
  end.

Definition _validate_chunks : M bool :=
  v <- read_self ;;
  files <- read_fs ;;
  match files !! (processed_dir v, "training_chunks.json"%string) with
  | Some (Data loaded) =>
      set_chunks loaded ;;;
      match loaded with
      | JList [] => add_issue (IsEmpty "training_chunks.json") ;;; ret false
      | JList cs => validate_each validate_chunk 0 cs [] ;;; no_issues
      | _ => add_issue (MustContainList "training_chunks.json") ;;; ret false
      end
  | Some (Written _) =>
      add_issue (MustContainList "training_chunks.json") ;;; ret false
  | _ => add_issue (FailedToLoad "training_chunks.json") ;;; ret false
  end.

(** The lists that [self.documents] and [self.chunks] hold once both
    validations have passed. *)
Definition loaded_list (v : option json) : M (list json) :=
  match v with
  | Some (JList l) => ret l
  | _ => raise
  end.

Definition fields_of (v : json) : M (list (str * json)) :=
  match v with
  | JObj fields => ret fields
  | _ => raise
  end.

(** ** [_cross_validate] *)

(** [{doc['id'] for doc in self.documents}] *)
Fixpoint id_set (docs : list json) : M (list json) :=
  match docs with
  | [] => ret []
  | doc :: rest =>
      fields <- fields_of doc ;;
      if has_key fields (lit "id") && hashable (get fields "id")
      then (ids <- id_set rest ;; ret (get fields "id" :: ids))
      else raise
  end.

Fixpoint orphans (doc_ids : list json) (cs : list json) : M (list json) :=
  match cs with
  | [] => ret []
  | chunk :: rest =>
      fields <- fields_of chunk ;;
      let source_id :=
        or_ (get fields "source_document_id") (get fields "document_id") in
      if truth source_id then
        if hashable source_id then
          more <- orphans doc_ids rest ;;
          if negb (member source_id doc_ids)
          then ret (or_ (get fields "id") (get fields "chunk_id") :: more)
          else ret more
        else raise
      else orphans doc_ids rest
  end.

Definition _cross_validate : M unit :=
  v <- read_self ;;
  docs <- loaded_list (documents v) ;;
  cs <- loaded_list (chunks v) ;;
  doc_ids <- id_set docs ;;
  orphan_chunks <- orphans doc_ids cs ;;
  when_ (truthy orphan_chunks) (add_warning (OrphanChunks (len orphan_chunks))).

(** ** [_generate_statistics] *)

(** [total += v] for an [int] total. *)
Definition add_to (total : Z) (v : json) : M Z :=
  match v with
  | JInt n => ret (total + n)
  | JBool b => ret (total + as_int b)
  | _ => raise
  end.

(** Python floats are IEEE 754 doubles. [float(n)], as [n * 1.3] takes
    it of an [int]: the nearest double, ties to even; a double that would
    be out of range is [OverflowError]. *)
Definition float_of_int (n : Z) : option SpecFloat.spec_float :=
  match SpecFloat.binary_normalize 53 1024 n 0 false with
  | SpecFloat.S754_infinity _ => None
  | x => Some x
  end.

(** The doubles that the literals [1.3] and [1.1] denote. *)
Definition float_1_3 : SpecFloat.spec_float :=
  SpecFloat.S754_finite false 5854679515581645 (-52).
Definition float_1_1 : SpecFloat.spec_float :=
  SpecFloat.S754_finite false 4953959590107546 (-52).

(** [int(x)]: [x] cut towards zero; [OverflowError] on an infinity and
    [ValueError] on a nan. *)
Definition int_of_float (x : SpecFloat.spec_float) : option Z :=
  match x with
  | SpecFloat.S754_zero _ => Some 0
  | SpecFloat.S754_finite sign m e =>
      let magnitude :=
        if 0 <=? e then Z.pos m * 2 ^ e else Z.pos m / 2 ^ (- e) in
      Some (if sign then - magnitude else magnitude)
  | _ => None
  end.

(** [int(n * factor)] for an [int] [n]. *)
Definition int_of_product (n : Z) (factor : SpecFloat.spec_float) : M Z :=
  match float_of_int n with
  | Some x =>
      match int_of_float (SpecFloat.SFmul 53 1024 x factor) with
      | Some k => ret k
      | None => raise
      end
  | None => raise
  end.

(** [int(v * factor)]: a [bool] counts as 1 or 0, and no other value can
    be multiplied by a float. *)
Definition int_times (v : json) (factor : SpecFloat.spec_float) : M json :=
  match v with
  | JInt n => k <- int_of_product n factor ;; ret (JInt k)
  | JBool b => k <- int_of_product (as_int b) factor ;; ret (JInt k)
  | _ => raise
  end.

Definition word_count_of (fields : list (str * json)) : json :=
  let word_count :=
    or_ (get_default fields (lit "word_count") (JInt 0))
        (get_default fields (lit "wordCount") (JInt 0)) in
  if negb (truth word_count) then
    match get_default fields (lit "content") (JStr []) with
    | JStr content => JInt (len (split content))
    | _ => word_count
    end
  else word_count.

Definition char_count_of (fields : list (str * json)) : json :=
  let char_count :=
    or_ (get_default fields (lit "char_count") (JInt 0))
        (get_default fields (lit "charCount") (JInt 0)) in
  if negb (truth char_count) then
    match get_default fields (lit "content") (JStr []) with
    | JStr content => JInt (len content)
    | _ => char_count
    end
  else char_count.

Definition token_count_of (fields : list (str * json)) : M json :=
  let token_count :=
    or_ (or_ (get_default fields (lit "tokens") (JInt 0))
             (get_default fields (lit "token_count") (JInt 0)))
        (get_default fields (lit "word_count") (JInt 0)) in
  if negb (truth token_count) then
    let char_count := get_default fields (lit "char_count") (JInt 0) in
    if truth char_count then int_times char_count float_1_3
    else ret token_count
  else ret token_count.

Fixpoint sum_over (measure : list (str * json) -> M json) (total : Z)
    (l : list json) : M Z :=
  match l with
  | [] => ret total
  | x :: rest =>
      fields <- fields_of x ;;
      v <- measure fields ;;
      total' <- add_to total v ;;
      sum_over measure total' rest
  end.

(** [Counter(...)]: one more for a key, in first-seen order. *)
Fixpoint count_key (key : json) (counts : list (json * Z)) : list (json * Z) :=
  match counts with
  | [] => [(key, 1)]
  | (k, n) :: rest =>
      if py_eq k key then (k, n + 1) :: rest else (k, n) :: count_key key rest
  end.

Fixpoint counter (key : string) (default : string) (l : list json)
    (counts : list (json * Z)) : M (list (json * Z)) :=
  match l with
  | [] => ret counts
  | x :: rest =>
      fields <- fields_of x ;;
      let k := get_default fields (lit key) (JStr (lit default)) in
      if hashable k then counter key default rest (count_key k counts)
      else raise
  end.

Definition _generate_statistics : M unit :=
  v <- read_self ;;
  docs <- loaded_list (documents v) ;;
  cs <- loaded_list (chunks v) ;;
  total_words <- sum_over (fun f => ret (word_count_of f)) 0 docs ;;
  total_chars <- sum_over (fun f => ret (char_count_of f)) 0 docs ;;
  total_tokens <- sum_over token_count_of 0 cs ;;
  total_tokens <-
    (if total_tokens =? 0
     then int_of_product total_chars float_1_1
     else ret total_tokens) ;;
  doc_types <- counter "type" "unknown" docs [] ;;
  categories <- counter "category" "general" docs [] ;;
  chunk_types <- counter "type" "unknown" cs [] ;;
  set_stats {| total_documents := len docs;
               total_chunks := len cs;
               total_words := total_words;
               total_characters := total_chars;
               total_tokens := total_tokens;
               document_types := doc_types;
               categories := categories;
               chunk_types := chunk_types |}.

(** ** [_save_report] *)

(** The report file is opened with [encoding='utf-8'], and [json.dump]
    writes with [ensure_ascii=False]: a string goes to the file as it
    is, and a surrogate code point in it cannot be encoded. *)
Definition surrogate (c : char) : bool :=
  ((55296 <=? c) && (c <=? 57343))%N.

Definition encodable (text : str) : bool :=
  forallb (fun c => negb (surrogate c)) text.

(** A value formatted into a message or used as a key: a [str] stands as
    it is; the text of any other value is its [repr], in which a
    surrogate is written as an escape. *)
Definition value_encodable (v : json) : bool :=
  match v with
  | JStr text => encodable text
  | _ => true
  end.

Definition message_encodable (m : message) : bool :=
  match m with
  | DuplicateDocumentID v | DocumentEmptyContent v
  | DuplicateChunkID v | ChunkEmptyContent v => value_encodable v
  | _ => true
  end.

Definition keys_encodable (counts : list (json * Z)) : bool :=
  forallb (fun kv => value_encodable (fst kv)) counts.

Definition stats_encodable (st : option Stats) : bool :=
  match st with
  | Some st =>
      keys_encodable (document_types st) && keys_encodable (categories st)
      && keys_encodable (chunk_types st)
  | None => true
  end.

Definition report_encodable (r : Report) : bool :=
  encodable (report_dataset_name r) && encodable (validation_date r)
  && stats_encodable (statistics r)
  && forallb message_encodable (report_issues r)
  && forallb message_encodable (report_warnings r).

(** [now] is [datetime.now().isoformat()]. [open(report_file, 'w')]
    empties the file; [json.dump] then writes the report piece by piece,
    and raises [UnicodeEncodeError] at the first piece that cannot be
    encoded, the pieces before it staying in the file. *)
Definition _save_report (now : str) : M unit :=
  v <- read_self ;;
  let report :=
    {| report_dataset_name := dataset_name v;
       validation_date := now;
       status := if len (issues v) =? 0 then "passed" else "failed";
       statistics := stats v;
       report_issues := issues v;
       report_warnings := warnings v;
       total_issues := len (issues v);
       total_warnings := len (warnings v);
       validation_passed := len (issues v) =? 0 |} in
  if report_encodable report
  then write_file "validation_report.json" (Written report)
  else write_file "validation_report.json" (Truncated report) ;;; raise.

(** ** [validate]. Printing has no effect on the state. *)
Definition validate (now : str) : M bool :=
  ok <- _check_required_files ;;
  if negb ok then ret false else
  ok <- _validate_documents ;;
  if negb ok then ret false else
  ok <- _validate_chunks ;;
  if negb ok then ret false else
  _cross_validate ;;;
  _generate_statistics ;;;
  _save_report now ;;;
  no_issues.

(** ** [main]. [argv] is [sys.argv]; the result is the exit status of the
    interpreter and the file system it leaves. An uncaught exception ends
    the interpreter with status 1. *)
Definition main (now : str) (argv : list str) (disk : files)
    : Z * files :=
  match argv with
  | _ :: dataset_name :: processed_dir :: _ =>
      match validate now {| self := init dataset_name processed_dir;
                            fs := disk |} with
      | Return (success, s) => (if success then 0 else 1, fs s)
      | Raise disk' => (1, disk')
      end
  | _ => (1, disk)
  end.

(** ** Notions in which the properties of the validator are stated *)

Definition report_key (s : state) : str * string :=
  (processed_dir (self s), "validation_report.json"%string).

(** What a method may change: it may add issues, write the report file,
    and load [self.documents] and [self.chunks] from their files. *)
Record frame (s s' : state) : Prop := {
  frame_name : dataset_name (self s') = dataset_name (self s);
  frame_dir : processed_dir (self s') = processed_dir (self s);
  frame_issues : exists extra, issues (self s') = issues (self s) ++ extra;
  frame_fs : forall key, key <> report_key s -> fs s' !! key = fs s !! key;
  frame_documents : forall d,
    documents (self s') = Some d ->
    documents (self s) = Some d \/
    fs s !! (processed_dir (self s), "structured_documents.json"%string)
    = Some (Data d);
  frame_chunks : forall c,
    chunks (self s') = Some c ->
    chunks (self s) = Some c \/
    fs s !! (processed_dir (self s), "training_chunks.json"%string)
    = Some (Data c)
}.

(** The same, without new issues. *)
Definition quiet (s s' : state) : Prop :=
  frame s s' /\ issues (self s') = issues (self s).

(** Every run of [m] that returns is within [R]. *)
Definition respects {A} (R : state -> state -> Prop) (m : M A) : Prop :=
  forall s a s', m s = Return (a, s') -> R s s'.

(** [m] leaves the state as it is. *)
Definition pure {A} (m : M A) : Prop :=
  forall s a s', m s = Return (a, s') -> s' = s.

(** [m] returns [False] only with an issue recorded. *)
Definition fails_with_issue (m : M bool) : Prop :=
  forall s s', m s = Return (false, s') -> issues (self s') <> [].

(** [m] adds no warning. *)
Definition same_warnings (s s' : state) : Prop :=
  warnings (self s') = warnings (self s).

(** The warnings that the loop over the documents adds: one for every
    document whose [content] is absent or false as a truth value. *)
Definition document_warnings (docs : list json) : list message :=
  flat_map (fun doc =>
              match doc with
              | JObj fields =>
                  if truth (get fields "content") then []
                  else [DocumentEmptyContent (get fields "id")]
              | _ => []
              end) docs.

(** The same for the loop over the chunks. *)
Definition chunk_warnings (cs : list json) : list message :=
  flat_map (fun chunk =>
              match chunk with
              | JObj fields =>
                  if truth (get fields "content") then []
                  else [ChunkEmptyContent
                          (or_ (get fields "id") (get fields "chunk_id"))]
              | _ => []
              end) cs.






Definition start (dataset_name processed_dir : str) (disk : files) : state :=
  {| self := init dataset_name processed_dir; fs := disk |}.

(** [m] writes no file. *)
Definition same_files (s s' : state) : Prop := fs s' = fs s.

(** [m] writes no file, whether it returns or raises. *)
Definition keeps_files {A} (m : M A) : Prop :=
  forall s, match m s with
            | Return (_, s') => fs s' = fs s
            | Raise disk => disk = fs s
            end.

(** No value of a list equals one before it. *)
Definition pairwise_distinct (ids : list json) : Prop :=
  forall i j a b, (i < j)%nat ->
    nth_error ids i = Some a -> nth_error ids j = Some b -> py_eq b a = false.

(** Each value of [ids] is equal to none of [seen] and to none before it. *)
Fixpoint fresh_ids (seen ids : list json) : Prop :=
  match ids with
  | [] => True
  | x :: rest => member x seen = false /\ fresh_ids (seen ++ [x]) rest
  end.

(** The identifiers that the loop over the documents compares: those
    that are true as truth values. *)
Definition compared_ids (docs : list json) : list json :=
  flat_map (fun doc =>
              match doc with
              | JObj fields =>
                  if truth (get fields "id") then [get fields "id"] else []
              | _ => []
              end) docs.

Definition chunk_id_of (fields : list (str * json)) : json :=
  or_ (get fields "id") (get fields "chunk_id").

Definition source_id_of (fields : list (str * json)) : json :=
  or_ (get fields "source_document_id") (get fields "document_id").

Definition chunk_ids_of (cs : list json) : list json :=
  flat_map (fun chunk =>
              match chunk with
              | JObj fields => [chunk_id_of fields]
              | _ => []
              end) cs.

(** [{doc['id'] for doc in documents}], as a list. *)
Definition document_ids (docs : list json) : list json :=
  flat_map (fun doc =>
              match doc with
              | JObj fields => [get fields "id"]
              | _ => []
              end) docs.

(** A chunk whose source document is not among the documents. *)
Definition orphan (doc_ids : list json) (chunk : json) : bool :=
  match chunk with
  | JObj fields =>
      truth (source_id_of fields) && negb (member (source_id_of fields) doc_ids)
  | _ => false
  end.

Definition missing_files (s : state) : list string :=
  List.filter (fun name =>
                 match fs s !! (processed_dir (self s), name) with
                 | Some _ => false
                 | None => true
                 end) required_files.

(** ** Sample directories *)

Definition obj (fields : list (string * json)) : json :=
  JObj (map (fun kv => (lit (fst kv), snd kv)) fields).

Definition sample_doc (doc_id : string) : json :=
  obj [("id", JStr (lit doc_id)); ("title", JStr (lit "Spring View"));
       ("type", JStr (lit "poem"));
       ("content", obj [("full_text", JStr (lit "text"))])]%string.

Definition sample_chunk (chunk_id doc_id content : string) : json :=
  obj [("chunk_id", JStr (lit chunk_id));
       ("source_document_id", JStr (lit doc_id));
       ("content", JStr (lit content)); ("char_count", JInt 4)]%string.

Definition sample_dir (docs cs : list json) : files :=
  <[(lit "data", "structured_documents.json") := Data (JList docs)]>
  (<[(lit "data", "training_chunks.json") := Data (JList cs)]>
   (<[(lit "data", "dataset_metadata.json") := Data (JObj [])]> ∅))%string.

(** Chunks whose content is empty or only white space. *)
Definition blank_dir : files :=
  sample_dir [sample_doc "dufu_1"]
    [sample_chunk "dufu_chunk_0001" "dufu_1" "   ";
     sample_chunk "dufu_chunk_0002" "dufu_1" ""]%string.

(** Two chunks with one identifier. *)
Definition duplicate_dir : files :=
  sample_dir [sample_doc "dufu_1"]
    [sample_chunk "dufu_chunk_0001" "dufu_1" "text";
     sample_chunk "dufu_chunk_0001" "dufu_1" "more"]%string.

(** A chunk whose identifier is a lone surrogate and whose content is
    empty: the warning about it cannot be written to the report. *)
Definition surrogate_dir : files :=
  sample_dir [sample_doc "dufu_1"]
    [JObj [(lit "chunk_id", JStr [55296%N]);
           (lit "source_document_id", JStr (lit "dufu_1"));
           (lit "content", JStr [])]].



(** A validator that has loaded documents and chunks. *)
Definition loaded_state (docs cs : list json) : state :=
  {| self := {| dataset_name := lit "Du Fu"; processed_dir := lit "data";
                issues := []; warnings := []; stats := None;
                documents := Some (JList docs); chunks := Some (JList cs) |};
     fs := sample_dir docs cs |}.

Definition orphan_chunks : list json :=
  [sample_chunk "dufu_chunk_0001" "dufu_1" "text";
   sample_chunk "dufu_chunk_0002" "dufu_9" "text"]%string.

Definition sample_now : str := lit "2025-10-04T12:00:00".
Definition sample_argv : list str :=
  [lit "validate_dataset.py"; lit "Du Fu"; lit "data"].

End Validator.

(* ===================================================================== *)
(** * tools/data_collection/du_fu/extract_from_xml.py                     *)
(* ===================================================================== *)

Module Extractor.

(** An [xml.etree.ElementTree.Element]: tag, attributes, text and
    children. *)
#[local] Unset Elimination Schemes.
Inductive Element : Type :=
  | Elem (tag : str) (attrib : list (str * str)) (text : option str)
         (children : list Element).
#[local] Set Elimination Schemes.

Definition tag (e : Element) : str := let 'Elem t _ _ _ := e in t.
Definition attrib (e : Element) : list (str * str) := let 'Elem _ a _ _ := e in a.
Definition text (e : Element) : option str := let 'Elem _ _ x _ := e in x.
Definition children (e : Element) : list Element := let 'Elem _ _ _ c := e in c.

Definition str_eqb (a b : str) : bool := bool_decide (a = b).

(** [elem.get(key, default)] *)
Fixpoint lookup_attr (attrs : list (str * str)) (key default : str) : str :=
  match attrs with
  | [] => default
  | (k, v) :: rest => if str_eqb k key then v else lookup_attr rest key default
  end.

Definition get (e : Element) (key : string) (default : str) : str :=
  lookup_attr (attrib e) (lit key) default.

(** [elem.findall(name)]: the children with that tag; [elem.find(name)]:
    the first of them. *)
Definition findall (e : Element) (name : string) : list Element :=
  List.filter (fun c => str_eqb (tag c) (lit name)) (children e).

Definition find (e : Element) (name : string) : option Element :=
  List.find (fun c => str_eqb (tag c) (lit name)) (children e).

(** [elem.iter(name)]: the element and its descendants with that tag, in
    document order. *)
Fixpoint descendants (e : Element) : list Element :=
  match e with
  | Elem _ _ _ kids => e :: flat_map descendants kids
  end.

Definition iter (e : Element) (name : string) : list Element :=
  List.filter (fun c => str_eqb (tag c) (lit name)) (descendants e).

(** [elem.text or ''] *)
Definition text_or_empty (e : Element) : str :=
  match text e with
  | Some s => s
  | None => []
  end.

(** [elem.clear()]: no children, no attributes, no text; the tag stays,
    and so does the place of the element among the children of its
    parent. *)
Definition clear (e : Element) : Element := Elem (tag e) [] None [].

(** ** [_extract_poem_data], for the fields that process_for_rag.py
    reads *)
Definition _extract_poem_data (poem_elem : Element) : DuFu.Poem :=
  {| DuFu.poem_id := get poem_elem "Id" [];
     DuFu.author_id := get poem_elem "AId" [];
     DuFu.title :=
       match find poem_elem "Title" with
       | Some title_elem => get title_elem "C" []
       | None => []
       end;
     DuFu.lines :=
       match find poem_elem "Jus" with
       | Some jus_elem => map (fun ju => get ju "C" []) (findall jus_elem "Ju")
       | None => []
       end;
     DuFu.creation_date := get poem_elem "AD" [];
     DuFu.place_code := get poem_elem "AP" [];
     DuFu.poem_type := get poem_elem "T" [];
     DuFu.poem_type_detail := get poem_elem "TD" [];
     DuFu.rhyme_category := get poem_elem "R" [];
     DuFu.allusions :=
       match find poem_elem "As" with
       | Some as_elem =>
           map (fun a => {| DuFu.allusion_id := get a "AI" [];
                            DuFu.sentence_index := get a "SI" [];
                            DuFu.text := text_or_empty a |})
             (findall as_elem "A")
       | None => []
       end;
     DuFu.text_annotations :=
       map (fun n => {| DuFu.index := get n "I" [];
                        DuFu.ann_content := text_or_empty n |})
         (List.filter (fun n => str_eqb (get n "T" []) (lit "Text"))
            (iter poem_elem "N")) |}.

(** ** [extract_all_dufu_poems] *)

Record Stats : Type := {
  total_poems_scanned : Z;
  dufu_poems_found : Z;
  dufu_author_id : option str
}.

Record extractor : Type := {
  stats : Stats;
  dufu_poems : list DuFu.Poem
}.

Definition init : extractor :=
  {| stats := {| total_poems_scanned := 0; dufu_poems_found := 0;
                 dufu_author_id := None |};
     dufu_poems := [] |}.

(** The body of the loop for one ["end"] event, up to [elem.clear()]. *)
Definition on_end (elem : Element) (self : extractor) : extractor :=
  if str_eqb (tag elem) (lit "Poem") then
    let scanned := total_poems_scanned (stats self) + 1 in
    let author := get elem "AU" [] in
    if str_eqb author DuFu.du_fu then
      {| stats :=
           {| total_poems_scanned := scanned;
              dufu_poems_found := dufu_poems_found (stats self) + 1;
              dufu_author_id :=
                match dufu_author_id (stats self) with
                | Some (_ :: _ as known) => Some known
                | _ => Some (get elem "AId" [])
                end |};
         dufu_poems := dufu_poems self ++ [_extract_poem_data elem] |}
    else
      {| stats := {| total_poems_scanned := scanned;
                     dufu_poems_found := dufu_poems_found (stats self);
                     dufu_author_id := dufu_author_id (stats self) |};
         dufu_poems := dufu_poems self |}
  else self.

(** What the element is in memory after its ["end"] event. *)
Definition after_end (elem : Element) : Element :=
  if str_eqb (tag elem) (lit "Poem") then clear elem else elem.

Section Events.

Variable scan : Element -> extractor -> Element * extractor.

(** The children of an element end one after the other, in document
    order, before the element does. *)
Fixpoint scan_children (kids : list Element) (self : extractor)
    : list Element * extractor :=
  match kids with
  | [] => ([], self)
  | kid :: rest =>
      let (kid', self1) := scan kid self in
      let (rest', self2) := scan_children rest self1 in
      (kid' :: rest', self2)
  end.

End Events.

(** The loop over [ET.iterparse(path, events=("end",))], on the subtree
    of one element: the parser builds the tree as it reads, each element
    staying among the children of its parent, and hands every element to
    the loop when it ends. The result is the subtree as the parser holds
    it after the event of its top element, and the extractor then. *)
Fixpoint scan (elem : Element) (self : extractor) : Element * extractor :=
  match elem with
  | Elem t a x kids =>
      let (kids', self') := scan_children scan kids self in
      let built := Elem t a x kids' in
      (after_end built, on_end built self')
  end.

(** [extract_all_dufu_poems] on a document whose root element is [root]:
    the poems returned, and the tree the parser holds at the end. *)
Definition extract_all_dufu_poems (root : Element)
    : list DuFu.Poem * Element :=
  let (held, self) := scan root init in (dufu_poems self, held).

(** ** Notions in which memory use is stated *)

(** The number of elements in a tree. *)
Fixpoint size (e : Element) : nat :=
  match e with
  | Elem _ _ _ kids => S (list_sum (map size kids))
  end.

(** ** Notions in which the result of the scan is stated *)





(** ** A sample document: three records, one of them by Du Fu *)

Definition attr (k : string) (v : str) : str * str := (lit k, v).

Definition poem_elem (pid : string) (author : str) (line : string) : Element :=
  Elem (lit "Poem") [attr "Id" (lit pid); attr "AU" author; attr "AId" (lit "7")]
    None
    [Elem (lit "Title") [attr "C" (lit "t")] None [];
     Elem (lit "Jus") [] None [Elem (lit "Ju") [attr "C" (lit line)] None []]].

Definition sample_xml : Element :=
  Elem (lit "Poems") [] None
    [poem_elem "1" (lit "Li Bai") "a";
     poem_elem "2" DuFu.du_fu "b";
     poem_elem "3" (lit "Wang Wei") "c"].

End Extractor.

(* ===================================================================== *)
(** * Facts about the Python runtime operations                           *)
(* ===================================================================== *)

Module PyFacts.

Example split_ex :
  split (lit "  the  quick brown
 fox ") = [lit "the"; lit "quick"; lit "brown"; lit "fox"].
Proof. reflexivity. Qed.

Example fmt_ex :
  format_04d 7 = lit "0007" /\ format_04d 12345 = lit "12345"
  /\ format_04d (-5) = lit "-005" /\ str_of_int 0 = lit "0"
  /\ str_of_int 120 = lit "120".
Proof. repeat split; reflexivity. Qed.

Example slice_ex :
  slice [1;2;3;4;5] (-2) 9 = [4;5] /\ slice [1;2;3;4;5] 1 3 = [2;3]
  /\ slice [1;2;3;4;5] 4 2 = [].
Proof. repeat split; reflexivity. Qed.

(** ** [split] and [join] *)

Lemma word_nonempty w : word w -> w <> [].
Proof. intros [H _]; exact H. Qed.

Lemma split_from_run w : forall cur rest,
  Forall (fun c => isspace c = false) w ->
  split_from cur (w ++ rest) = split_from (rev w ++ cur) rest.
Proof.
  induction w as [|c w IH]; intros cur rest Hw; simpl.
  - reflexivity.
  - inversion Hw as [|? ? Hc Hw']; subst. rewrite Hc.
    rewrite IH by assumption. now rewrite <- app_assoc.
Qed.

Lemma split_from_words s : forall cur,
  Forall (fun c => isspace c = false) cur ->
  Forall word (split_from cur s).
Proof.
  assert (Hrev : forall cur : str, cur <> [] ->
            Forall (fun c => isspace c = false) cur -> word (rev cur)).
  { intros cur Hne Hcur. split.
    - intros E. apply Hne. apply (f_equal (@rev _)) in E.
      now rewrite rev_involutive in E.
    - apply Forall_rev. exact Hcur. }
  induction s as [|c s IH]; intros cur Hcur; simpl.
  - destruct cur; constructor; [apply Hrev; [discriminate|assumption] | constructor].
  - destruct (isspace c) eqn:Hc.
    + destruct cur.
      * apply IH. constructor.
      * constructor; [apply Hrev; [discriminate|assumption] | apply IH; constructor].
    + apply IH. constructor; assumption.
Qed.

(** The pieces [split] returns are words: non-empty, without white space. *)
Lemma split_words s : Forall word (split s).
Proof. apply split_from_words. constructor. Qed.

Lemma split_word w : word w -> split w = [w].
Proof.
  intros [Hne Hw]. unfold split.
  rewrite <- (app_nil_r w) at 1. rewrite split_from_run by assumption.
  rewrite app_nil_r. simpl.
  destruct (rev w) eqn:E.
  - exfalso. apply Hne. apply (f_equal (@rev _)) in E.
    now rewrite rev_involutive in E.
  - rewrite <- E, rev_involutive. reflexivity.
Qed.

(** Joining words with one space and splitting again gives the words back. *)
Lemma split_join ws : Forall word ws -> split (join (lit " ") ws) = ws.
Proof.
  induction ws as [|w ws IH]; intros Hws.
  - reflexivity.
  - inversion Hws as [|? ? Hw Hws']; subst.
    destruct ws as [|w' ws].
    + simpl. apply split_word; assumption.
    + change (join (lit " ") (w :: w' :: ws))
        with (w ++ 32%N :: join (lit " ") (w' :: ws)).
      unfold split. destruct Hw as [Hne Hw].
      rewrite split_from_run by assumption. rewrite app_nil_r.
      simpl split_from.
      destruct (rev w) eqn:E.
      * exfalso. apply Hne. apply (f_equal (@rev _)) in E.
        now rewrite rev_involutive in E.
      * rewrite <- E, rev_involutive. f_equal. apply IH. assumption.
Qed.

(** ** Slices *)

Lemma Forall_slice {A} (P : A -> Prop) (l : list A) i j :
  Forall P l -> Forall P (slice l i j).
Proof. intros Hl. unfold slice. apply Forall_take, Forall_drop, Hl. Qed.

(** Inside the list, a slice from [i] is the next [k] elements. *)
Lemma slice_window {A} (l : list A) (i k : Z) :
  0 <= i <= len l -> 0 <= k ->
  slice l i (Z.min (i + k) (len l)) = firstn (Z.to_nat k) (skipn (Z.to_nat i) l).
Proof.
  intros Hi Hk. unfold slice, clamp_index.
  assert (Hlen : len (skipn (Z.to_nat i) l) = len l - i).
  { unfold len in *. rewrite length_skipn. lia. }
  destruct (Z.ltb_spec i 0); [lia|].
  destruct (Z.ltb_spec (Z.min (i + k) (len l)) 0); [lia|].
  rewrite (Z.min_l i) by lia.
  destruct (Z.le_gt_cases (i + k) (len l)).
  - f_equal. lia.
  - rewrite !firstn_all2; [reflexivity| |]; unfold len in *; lia.
Qed.

Lemma len_slice_window {A} (l : list A) (i k : Z) :
  0 <= i <= len l -> 0 <= k ->
  len (slice l i (Z.min (i + k) (len l))) = Z.min k (len l - i).
Proof.
  intros Hi Hk. rewrite slice_window by assumption.
  unfold len in *. rewrite length_firstn, length_skipn. lia.
Qed.

(** ** Decimal rendering *)











End PyFacts.

(* ===================================================================== *)
(** * Fixed-window segmentation                                           *)
(* ===================================================================== *)

Module QE2Facts.
Import QE2.

Section Windows.

Variables (document : Document) (words : list str) (chunk_size stride : Z).

Lemma windows_length count : forall start cid,
  length (windows document words chunk_size stride count start cid) = count.
Proof. induction count; intros; simpl; [reflexivity | now rewrite IHcount]. Qed.

Lemma windows_nth count : forall i start cid,
  (i < count)%nat ->
  nth_error (windows document words chunk_size stride count start cid) i
  = Some (window document words chunk_size
            (start + Z.of_nat i * stride) (cid + Z.of_nat i)).
Proof.
  induction count as [|count IH]; intros i start cid Hi; [lia|].
  destruct i as [|i]; simpl.
  - do 2 f_equal; lia.
  - rewrite IH by lia. do 2 f_equal; lia.
Qed.

Lemma windows_last count : forall start cid,
  last (windows document words chunk_size stride (S count) start cid)
  = Some (window document words chunk_size
            (start + Z.of_nat count * stride) (cid + Z.of_nat count)).
Proof.
  induction count as [|count IH]; intros start cid.
  - simpl. do 2 f_equal; lia.
  - change (windows document words chunk_size stride (S (S count)) start cid)
      with (window document words chunk_size start cid
            :: windows document words chunk_size stride (S count)
                 (start + stride) (cid + 1)).
    rewrite last_cons, IH. do 2 f_equal; lia.
Qed.

Lemma windows_index count : forall start cid,
  0 <= cid ->
  map chunk_index (windows document words chunk_size stride count start cid)
  = map Z.of_nat (seq (Z.to_nat cid) count).
Proof.
  induction count as [|count IH]; intros start cid Hcid; simpl.
  - reflexivity.
  - rewrite IH by lia. rewrite Z2Nat.id by assumption.
    replace (Z.to_nat (cid + 1)) with (S (Z.to_nat cid)) by lia. reflexivity.
Qed.

End Windows.

Section Loop.

Variables (document : Document) (words : list str) (chunk_size overlap : Z).

Let stride := chunk_size - overlap.
Let n := len words.

(** More fuel does not change a result. *)
Lemma while_loop_mono fuel : forall fuel' s r,
  (fuel <= fuel')%nat ->
  while_loop fuel document words chunk_size overlap s = Some r ->
  while_loop fuel' document words chunk_size overlap s = Some r.
Proof.
  induction fuel as [|fuel IH]; intros fuel' s r Hle Hrun; [discriminate|].
  destruct fuel' as [|fuel']; [lia|]. simpl in *.
  destruct (iteration document words chunk_size overlap s); [|assumption].
  apply IH; [lia | assumption].
Qed.

(** With a positive stride the loop leaves after one iteration per
    window: [count] is the number of strides needed to cover what is left
    of the words from [start s]. *)
Lemma while_loop_windows count : forall fuel s,
  0 < stride ->
  (Z.of_nat count - 1) * stride < n - start s <= Z.of_nat count * stride ->
  (count < fuel)%nat ->
  while_loop fuel document words chunk_size overlap s
  = Some (chunks s ++ windows document words chunk_size stride count
                        (start s) (next_chunk_id s)).
Proof.
  subst stride n.
  induction count as [|count IH]; intros fuel s Hstride Hcount Hfuel;
    (destruct fuel as [|fuel]; [lia|]); simpl; unfold iteration.
  - destruct (Z.ltb_spec (start s) (len words)); [lia|].
    now rewrite app_nil_r.
  - rewrite Nat2Z.inj_succ in Hcount.
    destruct (Z.ltb_spec (start s) (len words)); [|nia].
    destruct (Z.geb_spec (start s + (chunk_size - overlap)) (len words)).
    + destruct count; [reflexivity | nia].
    + rewrite IH; simpl; [now rewrite <- app_assoc | lia | nia | lia].
Qed.

(** When the stride is not positive and there is a word, [start] never
    reaches the end of the words: no amount of fuel ends the loop. *)
Lemma while_loop_stuck fuel : forall s,
  stride <= 0 -> start s <= 0 -> 0 < n ->
  while_loop fuel document words chunk_size overlap s = None.
Proof.
  subst stride n.
  induction fuel as [|fuel IH]; intros s Hstride Hstart Hn; [reflexivity|].
  simpl. unfold iteration.
  destruct (Z.ltb_spec (start s) (len words)); [|lia].
  destruct (Z.geb_spec (start s + (chunk_size - overlap)) (len words)); [lia|].
  apply IH; simpl; lia.
Qed.

(** The words of a window that starts inside a list of words. *)
Lemma window_words s cid :
  Forall word words -> 0 <= s <= n -> 0 <= chunk_size ->
  chunk_words (window document words chunk_size s cid)
  = firstn (Z.to_nat chunk_size) (skipn (Z.to_nat s) words).
Proof.
  intros Hw Hs Hc. unfold chunk_words, window. simpl.
  rewrite PyFacts.split_join by (apply PyFacts.Forall_slice; assumption).
  apply PyFacts.slice_window; assumption.
Qed.

Lemma window_word_count s cid :
  Forall word words -> 0 <= s <= n -> 0 <= chunk_size ->
  chunk_word_count (window document words chunk_size s cid)
  = Z.min chunk_size (n - s).
Proof.
  intros Hw Hs Hc. unfold window. simpl.
  rewrite PyFacts.split_join by (apply PyFacts.Forall_slice; assumption).
  apply PyFacts.len_slice_window; assumption.
Qed.

Lemma slice_to_end {A} (l : list A) (k : Z) :
  0 <= k -> slice l k (len l) = skipn (Z.to_nat k) l.
Proof.
  intros Hk. unfold slice, clamp_index, len.
  destruct (Z.ltb_spec k 0); [lia|].
  destruct (Z.ltb_spec (Z.of_nat (length l)) 0); [lia|].
  rewrite Z.min_id.
  destruct (Z.le_gt_cases k (Z.of_nat (length l))).
  - rewrite Z.min_l by lia. apply firstn_all2. rewrite length_skipn. lia.
  - rewrite Z.min_r by lia. rewrite Z.sub_diag. simpl.
    symmetry. apply skipn_all2. lia.
Qed.

(** What a window after the first adds to the windows before it. *)
Lemma window_fresh s cid :
  Forall word words -> 0 <= s <= n -> 0 <= overlap < chunk_size -> cid <> 0 ->
  fresh_words overlap (window document words chunk_size s cid)
  = firstn (Z.to_nat stride) (skipn (Z.to_nat (s + overlap)) words).
Proof.
  intros Hw Hs Hc Hcid. unfold fresh_words.
  replace (chunk_index (window document words chunk_size s cid) =? 0)
    with false by (symmetry; apply Z.eqb_neq; exact Hcid).
  rewrite slice_to_end by lia. rewrite window_words by (assumption || lia).
  rewrite skipn_firstn_comm, skipn_skipn.
  assert (Estride : stride = chunk_size - overlap) by reflexivity.
  f_equal.
  - lia.
  - f_equal. lia.
Qed.

(** The windows after the first add, one after the other, all the words
    from [overlap] words after the start of the first of them. *)
Lemma windows_fresh count : forall s cid,
  Forall word words -> 0 <= overlap < chunk_size -> 0 < cid -> 0 <= s ->
  (Z.of_nat count - 1) * stride < n - s <= Z.of_nat count * stride ->
  concat (map (fresh_words overlap)
            (windows document words chunk_size stride count s cid))
  = skipn (Z.to_nat (s + overlap)) words.
Proof.
  assert (Estride : stride = chunk_size - overlap) by reflexivity.
  assert (En : n = len words) by reflexivity.
  induction count as [|count IH]; intros s cid Hw Hc Hcid Hs Hcount.
  - simpl. symmetry. apply skipn_all2. unfold len in *. lia.
  - rewrite Nat2Z.inj_succ in Hcount. simpl.
    rewrite window_fresh by (assumption || nia).
    rewrite IH by (assumption || nia).
    replace (Z.to_nat (s + stride + overlap))
      with (Z.to_nat stride + Z.to_nat (s + overlap))%nat by lia.
    rewrite <- skipn_skipn. apply firstn_skipn.
Qed.

(** The first window and what the later ones add make up the words. *)
Lemma windows_cover count :
  Forall word words -> 0 <= overlap < chunk_size ->
  (Z.of_nat count - 1) * stride < n - 0 <= Z.of_nat count * stride ->
  concat (map (fresh_words overlap)
            (windows document words chunk_size stride count 0 0))
  = words.
Proof.
  assert (Estride : stride = chunk_size - overlap) by reflexivity.
  assert (En : n = len words) by reflexivity.
  intros Hw Hc Hcount. destruct count as [|count].
  - simpl. symmetry. apply length_zero_iff_nil. unfold len in En.
    change (Z.of_nat 0) with 0 in Hcount. lia.
  - rewrite Nat2Z.inj_succ in Hcount. simpl.
    rewrite windows_fresh by (assumption || lia).
    unfold len in En. unfold fresh_words at 1. simpl chunk_index. simpl (0 =? 0).  cbv iota.
    rewrite window_words by (assumption || lia).
    replace (Z.to_nat (0 + stride + overlap)) with (Z.to_nat chunk_size) by lia.
    simpl (Z.to_nat 0). rewrite skipn_O. apply firstn_skipn.
Qed.

(** The number of windows over [n] words. *)
Lemma window_count_bounds :
  0 < stride ->
  let count := Z.to_nat ((n + stride - 1) / stride) in
  (Z.of_nat count - 1) * stride < n - 0 <= Z.of_nat count * stride.
Proof.
  intros Hstride count. subst count.
  assert (Hn : 0 <= n) by (unfold n, len; lia).
  pose proof (Z.mul_div_le (n + stride - 1) stride Hstride).
  pose proof (Z.mul_succ_div_gt (n + stride - 1) stride Hstride).
  assert (0 <= (n + stride - 1) / stride) by (apply Z.div_pos; lia).
  rewrite Z2Nat.id by assumption. nia.
Qed.

(** With a positive stride [_chunk_document] returns the windows. *)
Lemma chunk_document_windows :
  words = split (full_text (content document)) -> 0 < stride ->
  let count := Z.to_nat ((n + stride - 1) / stride) in
  forall fuel, (count < fuel)%nat ->
  _chunk_document fuel document chunk_size overlap
  = Some (windows document words chunk_size stride count 0 0).
Proof.
  intros Hwords Hstride count fuel Hfuel. unfold _chunk_document.
  rewrite <- Hwords.
  rewrite (while_loop_windows count); [reflexivity | assumption | | assumption].
  apply window_count_bounds. assumption.
Qed.

End Loop.

(** ** Chunk identifiers *)






(** ** What [_chunk_document] and [_create_chunks] return *)

Lemma chunk_document_enough fuel document :
  (length (doc_windows document) < fuel)%nat ->
  _chunk_document fuel document chunk_size overlap
  = Some (doc_windows document).
Proof.
  intros Hfuel. unfold doc_windows in *. rewrite windows_length in Hfuel.
  apply (chunk_document_windows document _ chunk_size overlap);
    [reflexivity | reflexivity | exact Hfuel].
Qed.

Lemma chunk_document_result fuel document result :
  _chunk_document fuel document chunk_size overlap = Some result ->
  result = doc_windows document.
Proof.
  intros Hrun. unfold _chunk_document in Hrun.
  pose proof (chunk_document_enough
                (S (Nat.max fuel (length (doc_windows document)))) document
                ltac:(lia)) as Hbig.
  unfold _chunk_document in Hbig.
  apply (while_loop_mono _ _ _ _ _
           (S (Nat.max fuel (length (doc_windows document))))) in Hrun; [|lia].
  congruence.
Qed.

Lemma extend_articles_result fuel articles : forall acc result,
  extend_articles fuel acc articles = Some result ->
  result = acc ++ concat (map doc_windows articles).
Proof.
  induction articles as [|a articles IH]; intros acc result Hrun; simpl in *.
  - injection Hrun as <-. now rewrite app_nil_r.
  - destruct (_chunk_document fuel a chunk_size overlap) as [r|] eqn:E;
      [|discriminate].
    apply chunk_document_result in E. subst r.
    apply IH in Hrun. now rewrite Hrun, <- app_assoc.
Qed.

Lemma create_chunks_result fuel biography articles result :
  _create_chunks fuel biography articles = Some result ->
  result = concat (map doc_windows (biography :: articles)).
Proof.
  unfold _create_chunks. intros Hrun.
  destruct (_chunk_document fuel biography chunk_size overlap) as [r|] eqn:E;
    [|discriminate].
  apply chunk_document_result in E. subst r.
  apply extend_articles_result in Hrun. exact Hrun.
Qed.

Lemma extend_articles_enough fuel articles : forall acc,
  (enough articles <= fuel)%nat ->
  extend_articles fuel acc articles
  = Some (acc ++ concat (map doc_windows articles)).
Proof.
  unfold enough.
  induction articles as [|a articles IH]; intros acc Hfuel; simpl in *.
  - now rewrite app_nil_r.
  - rewrite chunk_document_enough by lia.
    rewrite IH by lia. now rewrite <- app_assoc.
Qed.

Lemma create_chunks_enough biography articles :
  _create_chunks (enough (biography :: articles)) biography articles
  = Some (concat (map doc_windows (biography :: articles))).
Proof.
  unfold _create_chunks, enough. simpl.
  rewrite chunk_document_enough by lia.
  rewrite extend_articles_enough; [reflexivity|]. unfold enough. lia.
Qed.

End QE2Facts.

(* ===================================================================== *)
(** * Fixed-window segmentation: what every chunk carries                 *)
(* ===================================================================== *)

Module QE2More.
Import QE2.

Lemma all_labelled_snoc document l c :
  all_labelled document l -> labelled document (length l) c ->
  all_labelled document (l ++ [c]).
Proof.
  intros Hl Hc i c' Hi.
  destruct (Nat.lt_ge_cases i (length l)) as [Hlt|Hge].
  - rewrite nth_error_app1 in Hi by assumption. now apply Hl.
  - rewrite nth_error_app2 in Hi by assumption.
    destruct (i - length l)%nat as [|k] eqn:E; simpl in Hi.
    + injection Hi as <-. replace i with (length l) by lia. exact Hc.
    + destruct k; discriminate.
Qed.

(** The loop numbers the chunks by their position, for any sizes. *)
Lemma while_loop_labelled document words cs ov fuel : forall s result,
  next_chunk_id s = len (chunks s) ->
  all_labelled document (chunks s) ->
  while_loop fuel document words cs ov s = Some result ->
  all_labelled document result.
Proof.
  induction fuel as [|fuel IH]; intros s result Hid Hall Hrun; [discriminate|].
  simpl in Hrun. unfold iteration in Hrun.
  destruct (start s <? len words); [|injection Hrun as <-; exact Hall].
  assert (Hnew : all_labelled document
                   (chunks s ++ [window document words cs (start s)
                                   (next_chunk_id s)])).
  { apply all_labelled_snoc; [exact Hall|].
    unfold labelled, window. simpl. rewrite Hid. unfold len.
    repeat split; reflexivity. }
  destruct (start s + (cs - ov) >=? len words).
  - injection Hrun as <-. exact Hnew.
  - eapply IH; [| |exact Hrun]; simpl; [|exact Hnew].
    unfold len. rewrite length_app. simpl. unfold len in Hid. lia.
Qed.

(** ** Document identifiers *)

Lemma ndu_nil : no_double_underscore [].
Proof. intros a b E. destruct a; discriminate. Qed.

Lemma ndu_cons_other c l :
  c <> 95%N -> no_double_underscore l -> no_double_underscore (c :: l).
Proof.
  intros Hc Hl a b E. destruct a as [|x a]; simpl in E.
  - injection E as E _. contradiction.
  - injection E as _ E. exact (Hl a b E).
Qed.

Lemma ndu_cons_underscore l :
  hd_error l <> Some 95%N ->
  no_double_underscore l -> no_double_underscore (95%N :: l).
Proof.
  intros Hhead Hl a b E. destruct a as [|x a]; simpl in E.
  - injection E as E. subst l. now apply Hhead.
  - injection E as _ E. exact (Hl a b E).
Qed.

Lemma collapse_runs_spec (s : str) :
  no_double_underscore (collapse_runs false s) /\
  no_double_underscore (collapse_runs true s) /\
  hd_error (collapse_runs true s) <> Some 95%N.
Proof.
  induction s as [|c s (IHf & IHt & IHh)]; simpl.
  - split; [apply ndu_nil|]. split; [apply ndu_nil | discriminate].
  - destruct (isspace c || (c =? 95)%N) eqn:E.
    + split; [now apply ndu_cons_underscore|]. split; assumption.
    + apply orb_false_iff in E. destruct E as [_ E].
      apply N.eqb_neq in E.
      split; [now apply ndu_cons_other|].
      split; [now apply ndu_cons_other|].
      simpl. intros H. injection H as H. contradiction.
Qed.

(** What [collapse_runs] lets through: underscores, and the characters of
    the input that are neither white space nor underscores. *)
Lemma collapse_runs_chars (P : char -> Prop) (s : str) : forall b,
  Forall P s ->
  Forall (fun c => c = 95%N \/ (isspace c = false /\ c <> 95%N /\ P c))
    (collapse_runs b s).
Proof.
  induction s as [|c s IH]; intros b Hs; simpl; [constructor|].
  inversion Hs as [|? ? Hc Hs']; subst.
  destruct (isspace c || (c =? 95)%N) eqn:E.
  - destruct b; [now apply IH|]. constructor; [now left | now apply IH].
  - apply orb_false_iff in E. destruct E as [E1 E2].
    apply N.eqb_neq in E2. constructor; [|now apply IH]. right. auto.
Qed.

End QE2More.

(* ===================================================================== *)
(** * Structure-aware segmentation                                        *)
(* ===================================================================== *)

Module DuFuFacts.
Import DuFu.

Lemma str_eqb_eq a b : str_eqb a b = true <-> a = b.
Proof. unfold str_eqb. apply bool_decide_eq_true. Qed.

Lemma str_eqb_neq a b : str_eqb a b = false <-> a <> b.
Proof. unfold str_eqb. apply bool_decide_eq_false. Qed.

Lemma str_eqb_refl a : str_eqb a a = true.
Proof. now apply str_eqb_eq. Qed.

Lemma nonempty_len {A} (l : list A) : truthy l && (len l >? 0) = (len l >? 0).
Proof. destruct l; reflexivity. Qed.

Lemma len_pos {A} (l : list A) : (len l >? 0) = truthy l.
Proof.
  destruct l; [reflexivity|]. unfold len. simpl length.
  apply Z.gtb_lt. lia.
Qed.

(** ** The loop body appends its chunks and advances the counter *)

Lemma generate_for_emitted poems st doc :
  generate_for poems st doc
  = {| next_chunk_id :=
         next_chunk_id st + len (emitted poems (next_chunk_id st) doc);
       training_chunks :=
         training_chunks st ++ emitted poems (next_chunk_id st) doc |}.
Proof.
  unfold emitted, generate_for, append. simpl.
  destruct (find_poem poems doc) as [poem|]; simpl.
  - destruct (truthy (allusions poem) && (len (allusions poem) >? 0));
      destruct (truthy (text_annotations poem)
                && (len (text_annotations poem) >? 0));
      simpl; unfold len; simpl; rewrite <- ?app_assoc; simpl;
      f_equal; try lia.
  - f_equal; try (unfold len; simpl; lia).
Qed.

Lemma fold_emitted poems docs : forall st,
  training_chunks (fold_left (generate_for poems) docs st)
  = training_chunks st ++ emitted_all poems (next_chunk_id st) docs.
Proof.
  induction docs as [|doc docs IH]; intros st; simpl.
  - now rewrite app_nil_r.
  - rewrite IH, generate_for_emitted. simpl. now rewrite <- app_assoc.
Qed.

Lemma generate_training_chunks_emitted poems docs :
  _generate_training_chunks poems docs = emitted_all poems 1 docs.
Proof. unfold _generate_training_chunks. now rewrite fold_emitted. Qed.

(** The chunks of one pass, once the poem of the document is known. *)
Lemma emitted_found poems cid doc poem :
  find_poem poems doc = Some poem ->
  emitted poems cid doc
  = chunk1 cid doc
    :: when (truthy (allusions poem)) [chunk2 (cid + 1) doc poem]
    ++ when (truthy (text_annotations poem))
         [chunk3 (cid + 1 + flag (truthy (allusions poem))) doc poem].
Proof.
  intros Hfind. unfold emitted, generate_for, append. simpl. rewrite Hfind.
  rewrite !nonempty_len, !len_pos.
  destruct (truthy (allusions poem)), (truthy (text_annotations poem));
    simpl; rewrite ?Z.add_0_r; reflexivity.
Qed.

Lemma emitted_not_found poems cid doc :
  find_poem poems doc = None -> emitted poems cid doc = [chunk1 cid doc].
Proof.
  intros Hfind. unfold emitted, generate_for, append. simpl.
  now rewrite Hfind.
Qed.

Lemma emitted_source poems cid doc :
  Forall (fun c => source_document_id c = doc_id doc) (emitted poems cid doc).
Proof.
  destruct (find_poem poems doc) as [poem|] eqn:Hfind.
  - rewrite (emitted_found _ _ _ _ Hfind).
    destruct (truthy (allusions poem)), (truthy (text_annotations poem));
      simpl; repeat constructor.
  - rewrite (emitted_not_found _ _ _ Hfind). repeat constructor.
Qed.

(** Between one and three chunks for a pass. *)
Lemma emitted_length poems cid doc :
  1 <= len (emitted poems cid doc) <= 3.
Proof.
  destruct (find_poem poems doc) as [poem|] eqn:Hfind.
  - rewrite (emitted_found _ _ _ _ Hfind).
    destruct (truthy (allusions poem)), (truthy (text_annotations poem));
      unfold len; simpl; lia.
  - rewrite (emitted_not_found _ _ _ Hfind). unfold len; simpl; lia.
Qed.

(** The identifiers of a pass are the numbers from the counter on. *)
Lemma emitted_ids poems cid doc :
  map chunk_id (emitted poems cid doc)
  = map (fun k => number (cid + Z.of_nat k))
      (seq 0 (length (emitted poems cid doc))).
Proof.
  destruct (find_poem poems doc) as [poem|] eqn:Hfind.
  - rewrite (emitted_found _ _ _ _ Hfind).
    destruct (truthy (allusions poem)), (truthy (text_annotations poem));
      simpl; rewrite ?Z.add_0_r;
      change (Z.of_nat 1) with 1; change (Z.of_nat 2) with 2;
      replace (cid + 2) with (cid + 1 + 1) by lia; reflexivity.
  - rewrite (emitted_not_found _ _ _ Hfind). simpl. now rewrite Z.add_0_r.
Qed.

Lemma seq_from a n : seq a n = map (Nat.add a) (seq 0 n).
Proof.
  induction a as [|a IH]; simpl.
  - now rewrite map_id.
  - rewrite <- seq_shift, IH, map_map. reflexivity.
Qed.

Lemma emitted_all_ids poems docs : forall cid,
  map chunk_id (emitted_all poems cid docs)
  = map (fun k => number (cid + Z.of_nat k))
      (seq 0 (length (emitted_all poems cid docs))).
Proof.
  induction docs as [|doc docs IH]; intros cid; simpl; [reflexivity|].
  rewrite map_app, length_app, seq_app, map_app, emitted_ids, IH.
  f_equal. rewrite (seq_from (0 + _)), map_map.
  apply map_ext. intros k. f_equal. unfold len. lia.
Qed.



(** ** Documents and their poems *)

Lemma create_from_ids ed clock poems : forall i,
  map doc_id (create_from ed clock i poems)
  = map (fun p => lit "dufu_" ++ poem_id p) poems.
Proof.
  induction poems as [|p poems IH]; intros i; simpl; [reflexivity|].
  now rewrite IH.
Qed.

Lemma create_from_nth ed clock poems : forall i k,
  nth_error (create_from ed clock i poems) k
  = option_map (structured_document ed (clock (i + k)%nat)) (nth_error poems k).
Proof.
  induction poems as [|p poems IH]; intros i k; destruct k; simpl;
    try reflexivity.
  - now rewrite Nat.add_0_r.
  - rewrite IH. now rewrite Nat.add_succ_r.
Qed.

Lemma create_from_In ed clock poems doc : forall i,
  In doc (create_from ed clock i poems) ->
  exists t p, In p poems /\ doc = structured_document ed t p.
Proof.
  induction poems as [|p poems IH]; intros i; simpl; [tauto|].
  intros [<-|Hin].
  - eauto.
  - destruct (IH _ Hin) as (t & q & Hq & ->). eauto.
Qed.

Lemma NoDup_doc_ids ed clock poems i :
  NoDup (map poem_id poems) ->
  NoDup (map doc_id (create_from ed clock i poems)).
Proof.
  intros Hnd. rewrite create_from_ids, <- (map_map poem_id).
  apply NoDup_fmap_2_strong; [|assumption].
  intros a b _ _ E. now apply app_inv_head in E.
Qed.

(** ** Mapping the same poems at two different times *)

Lemma create_from_rerun ed clock1 clock2 poems : forall i j,
  Forall2 (fun d1 d2 => d1 = with_processed (processed (source d1)) d2)
    (create_from ed clock1 i poems) (create_from ed clock2 j poems).
Proof.
  induction poems as [|p poems IH]; intros i j; simpl; constructor.
  - reflexivity.
  - apply IH.
Qed.

Lemma create_from_processed ed clock poems : forall i,
  map (fun d => processed (source d)) (create_from ed clock i poems)
  = map clock (seq i (length poems)).
Proof.
  induction poems as [|p poems IH]; intros i; simpl; [reflexivity|].
  now rewrite IH.
Qed.

Lemma create_from_ext ed clock1 clock2 poems : forall i,
  (forall k, (k < length poems)%nat -> clock1 (i + k)%nat = clock2 (i + k)%nat) ->
  create_from ed clock1 i poems = create_from ed clock2 i poems.
Proof.
  induction poems as [|p poems IH]; intros i Hclock; simpl; [reflexivity|].
  f_equal.
  - specialize (Hclock 0%nat ltac:(simpl; lia)). rewrite Nat.add_0_r in Hclock.
    now rewrite Hclock.
  - apply IH. intros k Hk. specialize (Hclock (S k) ltac:(simpl; lia)).
    now rewrite Nat.add_succ_r in Hclock.
Qed.

(** With distinct poem identifiers, the poem looked up for a document is
    the poem the document was made from. *)
Lemma find_poem_unique ed t poems p :
  NoDup (map poem_id poems) -> In p poems ->
  find_poem poems (structured_document ed t p) = Some p.
Proof.
  unfold find_poem. simpl.
  induction poems as [|h poems IH]; intros Hnd Hin; [destruct Hin|].
  simpl in *. apply NoDup_cons in Hnd. destruct Hnd as [Hh Hnd].
  destruct Hin as [->|Hin].
  - now rewrite str_eqb_refl.
  - destruct (str_eqb (poem_id h) (poem_id p)) eqn:E.
    + apply str_eqb_eq in E. exfalso. apply Hh. rewrite E.
      apply list_elem_of_In. now apply in_map.
    + auto.
Qed.

(** ** The chunks that refer to a document *)

Lemma chunks_of_self poems cid doc :
  chunks_of doc (emitted poems cid doc) = emitted poems cid doc.
Proof.
  unfold chunks_of. pose proof (emitted_source poems cid doc) as H.
  induction H as [|c l Hc Hl IH]; simpl; [reflexivity|].
  rewrite Hc, str_eqb_refl. now rewrite IH.
Qed.

Lemma chunks_of_other poems cid doc d :
  doc_id d <> doc_id doc -> chunks_of doc (emitted poems cid d) = [].
Proof.
  intros Hne. unfold chunks_of. pose proof (emitted_source poems cid d) as H.
  induction H as [|c l Hc Hl IH]; simpl; [reflexivity|].
  rewrite Hc. apply str_eqb_neq in Hne. now rewrite Hne.
Qed.

Lemma chunks_of_absent poems doc docs : forall cid,
  ~ In (doc_id doc) (map doc_id docs) ->
  chunks_of doc (emitted_all poems cid docs) = [].
Proof.
  induction docs as [|d docs IH]; intros cid Hnot; simpl; [reflexivity|].
  unfold chunks_of in *. rewrite List.filter_app.
  fold (chunks_of doc (emitted poems cid d)).
  rewrite chunks_of_other, IH; simpl in *; [reflexivity | tauto | ].
  intros E. apply Hnot. now left.
Qed.

(** With distinct document identifiers, the chunks that refer to a
    document are those of its own pass of the loop. *)
Lemma chunks_of_emitted_all poems doc docs : forall cid,
  NoDup (map doc_id docs) -> In doc docs ->
  exists cid', cid <= cid' /\
    chunks_of doc (emitted_all poems cid docs) = emitted poems cid' doc.
Proof.
  induction docs as [|d docs IH]; intros cid Hnd Hin; [destruct Hin|].
  simpl in Hnd. apply NoDup_cons in Hnd. destruct Hnd as [Hd Hnd].
  rewrite list_elem_of_In in Hd.
  simpl. unfold chunks_of. rewrite List.filter_app.
  fold (chunks_of doc (emitted poems cid d)).
  fold (chunks_of doc (emitted_all poems
          (cid + len (emitted poems cid d)) docs)).
  destruct Hin as [->|Hin].
  - exists cid. split; [lia|].
    rewrite chunks_of_self, chunks_of_absent by assumption.
    now rewrite app_nil_r.
  - destruct (IH (cid + len (emitted poems cid d)) Hnd Hin) as (cid' & Hle & E).
    exists cid'. split; [unfold len in *; lia|].
    rewrite chunks_of_other, E; [reflexivity|].
    intros Eid. apply Hd. rewrite Eid. now apply in_map.
Qed.

End DuFuFacts.

(* ===================================================================== *)
(** * Structure-aware segmentation: the whole output                      *)
(* ===================================================================== *)

Module DuFuMore.
Import DuFu.

Lemma emitted_all_source poems docs : forall cid,
  Forall (fun c => In (source_document_id c) (map doc_id docs))
    (emitted_all poems cid docs).
Proof.
  induction docs as [|d docs IH]; intros cid; simpl; [constructor|].
  apply Forall_app. split.
  - eapply Forall_impl; [apply DuFuFacts.emitted_source|].
    intros c ->. now left.
  - eapply Forall_impl; [apply IH|]. intros c Hc. now right.
Qed.

(** One pass gives one [poem_content] chunk, first. *)
Lemma emitted_content poems cid doc :
  exists rest,
    emitted poems cid doc = chunk1 cid doc :: rest /\
    of_type "poem_content" rest = [] /\ (length rest <= 2)%nat.
Proof.
  destruct (find_poem poems doc) as [poem|] eqn:Hfind.
  - rewrite (DuFuFacts.emitted_found _ _ _ _ Hfind). eexists.
    split; [reflexivity|].
    destruct (truthy (allusions poem)), (truthy (text_annotations poem));
      (split; [vm_compute; reflexivity | simpl; lia]).
  - rewrite (DuFuFacts.emitted_not_found _ _ _ Hfind). exists [].
    split; [reflexivity|]. split; [reflexivity | simpl; lia].
Qed.

Lemma emitted_all_counts poems docs : forall cid,
  length (of_type "poem_content" (emitted_all poems cid docs)) = length docs /\
  (length docs <= length (emitted_all poems cid docs) <= 3 * length docs)%nat.
Proof.
  induction docs as [|d docs IH]; intros cid; simpl; [split; [reflexivity|lia]|].
  destruct (emitted_content poems cid d) as (rest & E & Ht & Hl).
  destruct (IH (cid + len (emitted poems cid d))) as [IH1 IH2].
  assert (He1 : length (of_type "poem_content" (emitted poems cid d)) = 1%nat).
  { rewrite E. unfold of_type in *. simpl. now rewrite Ht. }
  assert (He2 : (1 <= length (emitted poems cid d) <= 3)%nat).
  { rewrite E. simpl. lia. }
  unfold of_type in *. rewrite List.filter_app, !length_app, IH1, He1.
  split; lia.
Qed.

Lemma sum_len_concat (lines : list str) : forall acc,
  fold_left (fun acc line => acc + len line) lines acc
  = acc + len (concat lines).
Proof.
  induction lines as [|l lines IH]; intros acc; simpl.
  - unfold len. simpl. lia.
  - rewrite IH. unfold len. rewrite length_app. lia.
Qed.

End DuFuMore.

(* ===================================================================== *)
(** * The validator: what a run changes and what it reports               *)
(* ===================================================================== *)

Module ValidatorFacts.
Import Validator.

Lemma bind_Some {A B} (m : M A) (k : A -> M B) s b s'' :
  bind m k s = Return (b, s'') <->
  exists a s', m s = Return (a, s') /\ k a s' = Return (b, s'').
Proof.
  unfold bind. split.
  - destruct (m s) as [[a s']|]; [eauto | discriminate].
  - intros (a & s' & -> & Hk). exact Hk.
Qed.

(** Splits a run of [x <- m ;; k] into the run of [m] and that of [k]. *)
Ltac run H :=
  let a := fresh "a" in
  let s := fresh "s" in
  let H1 := fresh H in
  apply bind_Some in H; destruct H as (a & s & H1 & H).

Lemma len_zero {A} (l : list A) : (len l =? 0) = true <-> l = [].
Proof.
  unfold len. destruct l; simpl; split; intros H;
    try reflexivity; try discriminate.
Qed.

Lemma no_issues_spec s b s' :
  no_issues s = Return (b, s') ->
  s' = s /\ (b = true <-> issues (self s) = []).
Proof.
  unfold no_issues, bind, read_self, ret. intros H. injection H as <- <-.
  split; [reflexivity | apply len_zero].
Qed.

(** ** Methods that only read *)

Lemma pure_ret {A} (a : A) : pure (ret a).
Proof. intros s b s' H. injection H as _ <-. reflexivity. Qed.

Lemma pure_raise {A} : pure (@raise A).
Proof. intros s b s' H. discriminate. Qed.

Lemma pure_bind {A B} (m : M A) (k : A -> M B) :
  pure m -> (forall a, pure (k a)) -> pure (bind m k).
Proof.
  intros Hm Hk s b s'' H. run H.
  apply Hm in H0. subst. now apply Hk in H.
Qed.

Lemma pure_read_self : pure read_self.
Proof. intros s a s' H. injection H as _ <-. reflexivity. Qed.

Lemma pure_read_fs : pure read_fs.
Proof. intros s a s' H. injection H as _ <-. reflexivity. Qed.

Lemma pure_fields_of v : pure (fields_of v).
Proof. destruct v; try apply pure_raise. apply pure_ret. Qed.

Lemma pure_loaded_list v : pure (loaded_list v).
Proof.
  destruct v as [[]|]; try apply pure_raise. apply pure_ret.
Qed.

Lemma pure_add_to total v : pure (add_to total v).
Proof. destruct v; try apply pure_raise; apply pure_ret. Qed.

Lemma pure_int_of_product n factor : pure (int_of_product n factor).
Proof.
  unfold int_of_product. destruct (float_of_int n); [|apply pure_raise].
  destruct (int_of_float _); [apply pure_ret | apply pure_raise].
Qed.

Lemma pure_int_times v factor : pure (int_times v factor).
Proof.
  destruct v; try apply pure_raise; simpl;
    (apply pure_bind; [apply pure_int_of_product | intros k; apply pure_ret]).
Qed.

Lemma pure_token_count_of fields : pure (token_count_of fields).
Proof.
  unfold token_count_of.
  repeat match goal with
         | |- pure (if ?c then _ else _) => destruct c
         end; try apply pure_ret; apply pure_int_times.
Qed.

Lemma pure_sum_over measure l : forall total,
  (forall fields, pure (measure fields)) -> pure (sum_over measure total l).
Proof.
  induction l as [|x l IH]; intros total Hm; simpl; [apply pure_ret|].
  apply pure_bind; [apply pure_fields_of|]. intros fields.
  apply pure_bind; [apply Hm|]. intros v.
  apply pure_bind; [apply pure_add_to|]. intros total'. now apply IH.
Qed.

Lemma pure_counter key default l : forall counts,
  pure (counter key default l counts).
Proof.
  induction l as [|x l IH]; intros counts; simpl; [apply pure_ret|].
  apply pure_bind; [apply pure_fields_of|]. intros fields.
  destruct (hashable _); [apply IH | apply pure_raise].
Qed.

Lemma pure_id_set docs : pure (id_set docs).
Proof.
  induction docs as [|d docs IH]; simpl; [apply pure_ret|].
  apply pure_bind; [apply pure_fields_of|]. intros fields.
  destruct (_ && _); [|apply pure_raise].
  apply pure_bind; [exact IH|]. intros ids. apply pure_ret.
Qed.

Lemma pure_orphans doc_ids cs : pure (orphans doc_ids cs).
Proof.
  induction cs as [|c cs IH]; simpl; [apply pure_ret|].
  apply pure_bind; [apply pure_fields_of|]. intros fields.
  destruct (truth _); [|exact IH].
  destruct (hashable _); [|apply pure_raise].
  apply pure_bind; [exact IH|]. intros more.
  destruct (negb _); apply pure_ret.
Qed.

(** ** Methods within a reflexive and transitive relation *)

Section Respects.

Variable R : state -> state -> Prop.
Hypothesis R_refl : forall s, R s s.
Hypothesis R_trans : forall s1 s2 s3, R s1 s2 -> R s2 s3 -> R s1 s3.

Lemma respects_pure {A} (m : M A) : pure m -> respects R m.
Proof. intros Hm s a s' H. apply Hm in H. subst. apply R_refl. Qed.

Lemma respects_ret {A} (a : A) : respects R (ret a).
Proof. apply respects_pure, pure_ret. Qed.

Lemma respects_raise {A} : respects R (@raise A).
Proof. apply respects_pure, pure_raise. Qed.

Lemma respects_bind {A B} (m : M A) (k : A -> M B) :
  respects R m -> (forall a, respects R (k a)) -> respects R (bind m k).
Proof.
  intros Hm Hk s b s'' H. run H.
  eapply R_trans; [eapply Hm | eapply Hk]; eassumption.
Qed.

Lemma respects_when b m : respects R m -> respects R (when_ b m).
Proof. destruct b; simpl; [auto | intros _; apply respects_ret]. Qed.

Lemma respects_for_each {A} (body : nat -> A -> M unit) l : forall i,
  (forall i x, respects R (body i x)) -> respects R (for_each body i l).
Proof.
  induction l as [|x l IH]; intros i Hbody; simpl; [apply respects_ret|].
  apply respects_bind; [apply Hbody | intros _; now apply IH].
Qed.

Lemma respects_validate_each {A} (body : nat -> json -> A -> M A) l :
  forall i acc,
  (forall i x acc, respects R (body i x acc)) ->
  respects R (validate_each body i l acc).
Proof.
  induction l as [|x l IH]; intros i acc Hbody; simpl; [apply respects_ret|].
  apply respects_bind; [apply Hbody | intros acc'; now apply IH].
Qed.

End Respects.

(** ** The frame *)

Lemma frame_refl s : frame s s.
Proof.
  split; auto.
  exists []. now rewrite app_nil_r.
Qed.

Lemma frame_trans s1 s2 s3 : frame s1 s2 -> frame s2 s3 -> frame s1 s3.
Proof.
  intros [N1 D1 [e1 I1] F1 Doc1 Ch1] [N2 D2 [e2 I2] F2 Doc2 Ch2].
  split.
  - congruence.
  - congruence.
  - exists (e1 ++ e2). rewrite I2, I1. now rewrite app_assoc.
  - intros key Hkey. rewrite F2, F1; [reflexivity | assumption |].
    unfold report_key in *. now rewrite D1.
  - intros d Hd. destruct (Doc2 d Hd) as [H|H]; [auto|].
    right. rewrite D1 in H. rewrite <- F1; [exact H|].
    unfold report_key. intros E. injection E as _ E. discriminate.
  - intros c Hc. destruct (Ch2 c Hc) as [H|H]; [auto|].
    right. rewrite D1 in H. rewrite <- F1; [exact H|].
    unfold report_key. intros E. injection E as _ E. discriminate.
Qed.

Lemma quiet_refl s : quiet s s.
Proof. split; [apply frame_refl | reflexivity]. Qed.

Lemma quiet_trans s1 s2 s3 : quiet s1 s2 -> quiet s2 s3 -> quiet s1 s3.
Proof.
  intros [F1 I1] [F2 I2]. split; [eapply frame_trans; eassumption|].
  congruence.
Qed.

Lemma respects_quiet_frame {A} (m : M A) : respects quiet m -> respects frame m.
Proof. intros H s a s' Hrun. exact (proj1 (H s a s' Hrun)). Qed.

Lemma frame_add_issue m : respects frame (add_issue m).
Proof.
  intros s a s' H. injection H as _ <-. split; simpl; auto.
  eauto.
Qed.

Lemma quiet_add_warning m : respects quiet (add_warning m).
Proof.
  intros s a s' H. injection H as _ <-. split; [|reflexivity].
  split; simpl; auto. exists []. now rewrite app_nil_r.
Qed.

Lemma quiet_set_stats st : respects quiet (set_stats st).
Proof.
  intros s a s' H. injection H as _ <-. split; [|reflexivity].
  split; simpl; auto. exists []. now rewrite app_nil_r.
Qed.

Lemma quiet_write_report f : respects quiet (write_file "validation_report.json" f).
Proof.
  intros s a s' H. injection H as _ <-. split; [|reflexivity].
  split; simpl; auto.
  - exists []. now rewrite app_nil_r.
  - intros key Hkey. apply lookup_insert_ne. unfold report_key in Hkey. auto.
Qed.

Lemma frame_set_documents s d a s' :
  fs s !! (processed_dir (self s), "structured_documents.json"%string)
  = Some (Data d) ->
  set_documents d s = Return (a, s') -> frame s s'.
Proof.
  intros Hfile H. injection H as _ <-. split; simpl; auto.
  - exists []. now rewrite app_nil_r.
  - intros d' Hd'. injection Hd' as <-. now right.
Qed.

Lemma frame_set_chunks s c a s' :
  fs s !! (processed_dir (self s), "training_chunks.json"%string)
  = Some (Data c) ->
  set_chunks c s = Return (a, s') -> frame s s'.
Proof.
  intros Hfile H. injection H as _ <-. split; simpl; auto.
  - exists []. now rewrite app_nil_r.
  - intros c' Hc'. injection Hc' as <-. now right.
Qed.

(** ** The loops over documents and chunks *)

Lemma frame_validate_document i doc doc_ids :
  respects frame (validate_document i doc doc_ids).
Proof.
  pose proof frame_refl as Hr. pose proof frame_trans as Ht.
  destruct doc; try (apply respects_raise; assumption).
  cbv beta iota delta [validate_document].
  apply respects_bind; try assumption.
  { apply respects_for_each; try assumption. intros j x.
    apply respects_when; try assumption. apply frame_add_issue. }
  intros _. apply respects_bind; try assumption.
  { destruct (truth _); [|apply respects_ret; assumption].
    destruct (hashable _); [|apply respects_raise; assumption].
    apply respects_bind; try assumption.
    - apply respects_when; try assumption. apply frame_add_issue.
    - intros _. apply respects_ret; assumption. }
  intros ids. apply respects_bind; try assumption.
  - apply respects_when; try assumption.
    apply respects_quiet_frame, quiet_add_warning.
  - intros _. apply respects_ret; assumption.
Qed.

Lemma frame_validate_chunk i chunk chunk_ids :
  respects frame (validate_chunk i chunk chunk_ids).
Proof.
  pose proof frame_refl as Hr. pose proof frame_trans as Ht.
  destruct chunk; try (apply respects_raise; assumption).
  cbv beta iota zeta delta [validate_chunk].
  apply respects_bind; try assumption.
  { destruct (negb (truth _)).
    - apply respects_bind; try assumption; [apply frame_add_issue|].
      intros _. apply respects_ret; assumption.
    - destruct (hashable _); [|apply respects_raise; assumption].
      apply respects_bind; try assumption.
      + apply respects_when; try assumption. apply frame_add_issue.
      + intros _. apply respects_ret; assumption. }
  intros ids. apply respects_bind; try assumption.
  { apply respects_when; try assumption. apply frame_add_issue. }
  intros _. apply respects_bind; try assumption.
  - apply respects_when; try assumption.
    apply respects_quiet_frame, quiet_add_warning.
  - intros _. apply respects_ret; assumption.
Qed.

(** ** [_check_required_files] *)

Lemma frame_check_files names : forall b, respects frame (check_files b names).
Proof.
  pose proof frame_refl as Hr. pose proof frame_trans as Ht.
  induction names as [|f names IH]; intros b; simpl.
  - apply respects_ret; assumption.
  - apply respects_bind; try assumption.
    { apply respects_pure, pure_read_self; assumption. }
    intros v. apply respects_bind; try assumption.
    { apply respects_pure, pure_read_fs; assumption. }
    intros disk. destruct (disk !! _); [apply IH|].
    apply respects_bind; try assumption; [apply frame_add_issue|].
    intros _. apply IH.
Qed.

Lemma frame_nonempty s s' : frame s s' -> issues (self s) <> [] -> issues (self s') <> [].
Proof.
  intros [_ _ [extra E] _ _ _] Hne. rewrite E.
  destruct (issues (self s)); [contradiction | discriminate].
Qed.

Lemma add_issue_nonempty m s a s' :
  add_issue m s = Return (a, s') -> issues (self s') <> [].
Proof.
  intros H. injection H as _ <-. simpl.
  destruct (issues (self s)); discriminate.
Qed.

Lemma check_files_false names : forall b s s',
  check_files b names s = Return (false, s') ->
  b = false \/ issues (self s') <> [].
Proof.
  induction names as [|f names IH]; intros b s s' H; simpl in H.
  - injection H as -> _. now left.
  - run H. run H. apply pure_read_self in H0. apply pure_read_fs in H1.
    subst. destruct (a0 !! _).
    + eapply IH; eassumption.
    + run H. right. apply add_issue_nonempty in H0.
      eapply frame_nonempty; [|exact H0].
      eapply frame_check_files; eassumption.
Qed.

Lemma check_required_files_fails : fails_with_issue _check_required_files.
Proof.
  intros s s' H. apply check_files_false in H.
  destruct H as [H|H]; [discriminate | exact H].
Qed.

(** An issue followed by [return False]. *)
Lemma issue_then_false m s b s' :
  (add_issue m ;;; ret false) s = Return (b, s') ->
  frame s s' /\ issues (self s') <> [] /\ same_warnings s s'.
Proof.
  intros H. run H. injection H as _ <-.
  split; [eapply frame_add_issue; eassumption|].
  split; [eapply add_issue_nonempty; eassumption|].
  injection H0 as _ <-. reflexivity.
Qed.

(** ** Warnings *)

Lemma same_warnings_refl s : same_warnings s s.
Proof. reflexivity. Qed.

Lemma same_warnings_trans s1 s2 s3 :
  same_warnings s1 s2 -> same_warnings s2 s3 -> same_warnings s1 s3.
Proof. unfold same_warnings. congruence. Qed.

Lemma same_warnings_add_issue m : respects same_warnings (add_issue m).
Proof. intros s a s' H. injection H as _ <-. reflexivity. Qed.

Lemma add_warning_spec m s a s' :
  add_warning m s = Return (a, s') ->
  warnings (self s') = warnings (self s) ++ [m].
Proof. intros H. injection H as _ <-. reflexivity. Qed.

Lemma validate_document_warnings i doc doc_ids s ids s' :
  validate_document i doc doc_ids s = Return (ids, s') ->
  warnings (self s') = warnings (self s) ++ document_warnings [doc].
Proof.
  pose proof same_warnings_refl as Hr. pose proof same_warnings_trans as Ht.
  destruct doc; try discriminate.
  cbv beta iota zeta delta [validate_document]. intros H.
  run H. run H. run H. injection H as _ <-.
  assert (E0 : same_warnings s s0).
  { revert H0. apply respects_for_each; try assumption. intros j x.
    apply respects_when; try assumption. apply same_warnings_add_issue. }
  assert (E1 : same_warnings s0 s1).
  { revert H1. destruct (truth (get fields "id"));
      [|apply respects_ret; assumption].
    destruct (hashable _); [|apply respects_raise; assumption].
    apply respects_bind; try assumption.
    - apply respects_when; try assumption. apply same_warnings_add_issue.
    - intros _. apply respects_ret; assumption. }
  unfold same_warnings in *. simpl. rewrite app_nil_r.
  destruct (truth (get fields "content")); simpl in H2.
  - injection H2 as _ <-. rewrite app_nil_r. congruence.
  - apply add_warning_spec in H2. congruence.
Qed.

Lemma validate_chunk_warnings i chunk chunk_ids s ids s' :
  validate_chunk i chunk chunk_ids s = Return (ids, s') ->
  warnings (self s') = warnings (self s) ++ chunk_warnings [chunk].
Proof.
  pose proof same_warnings_refl as Hr. pose proof same_warnings_trans as Ht.
  destruct chunk; try discriminate.
  cbv beta iota zeta delta [validate_chunk]. intros H.
  run H. run H. run H. injection H as _ <-.
  assert (E0 : same_warnings s s0).
  { revert H0.
    destruct (negb (truth (or_ (get fields "id") (get fields "chunk_id")))).
    - apply respects_bind; try assumption; [apply same_warnings_add_issue|].
      intros _. apply respects_ret; assumption.
    - destruct (hashable _); [|apply respects_raise; assumption].
      apply respects_bind; try assumption.
      + apply respects_when; try assumption. apply same_warnings_add_issue.
      + intros _. apply respects_ret; assumption. }
  assert (E1 : same_warnings s0 s1).
  { revert H1. apply respects_when; try assumption.
    apply same_warnings_add_issue. }
  unfold same_warnings in *. simpl. rewrite app_nil_r.
  destruct (truth (get fields "content")); simpl in H2.
  - injection H2 as _ <-. rewrite app_nil_r. congruence.
  - apply add_warning_spec in H2. congruence.
Qed.

Lemma validate_documents_loop docs : forall i acc s acc' s',
  validate_each validate_document i docs acc s = Return (acc', s') ->
  warnings (self s') = warnings (self s) ++ document_warnings docs.
Proof.
  induction docs as [|d docs IH]; intros i acc s acc' s' H; simpl in H.
  - injection H as _ <-. simpl. now rewrite app_nil_r.
  - run H. apply validate_document_warnings in H0. apply IH in H.
    rewrite H, H0. change (d :: docs) with ([d] ++ docs).
    unfold document_warnings. rewrite flat_map_app. now rewrite app_assoc.
Qed.

Lemma validate_chunks_loop cs : forall i acc s acc' s',
  validate_each validate_chunk i cs acc s = Return (acc', s') ->
  warnings (self s') = warnings (self s) ++ chunk_warnings cs.
Proof.
  induction cs as [|c cs IH]; intros i acc s acc' s' H; simpl in H.
  - injection H as _ <-. simpl. now rewrite app_nil_r.
  - run H. apply validate_chunk_warnings in H0. apply IH in H.
    rewrite H, H0. change (c :: cs) with ([c] ++ cs).
    unfold chunk_warnings. rewrite flat_map_app. now rewrite app_assoc.
Qed.

(** ** [_validate_documents] and [_validate_chunks] *)

Lemma validate_documents_spec s ok s' :
  _validate_documents s = Return (ok, s') ->
  frame s s' /\
  (ok = true <-> issues (self s') = []) /\
  (forall docs,
     fs s !! (processed_dir (self s), "structured_documents.json"%string)
     = Some (Data (JList docs)) ->
     warnings (self s') = warnings (self s) ++ document_warnings docs).
Proof.
  unfold _validate_documents. intros H.
  run H. run H. injection H0 as <- <-. injection H1 as <- <-.
  assert (Hfalse : forall m,
            (add_issue m ;;; ret false) s = Return (ok, s') ->
            forall docs : list json, docs = [] ->
            frame s s' /\ (ok = true <-> issues (self s') = []) /\
            warnings (self s') = warnings (self s) ++ document_warnings docs).
  { intros m Hm docs ->. pose proof Hm as Hm'.
    apply issue_then_false in Hm. destruct Hm as (Hf & Hi & Hw).
    run Hm'. injection Hm' as <- _.
    split; [exact Hf|]. split; [split; [discriminate | contradiction]|].
    simpl. rewrite app_nil_r. exact Hw. }
  destruct (fs s !! _) as [[| loaded | r | r]|] eqn:Hfile.
  - destruct (Hfalse _ H [] eq_refl) as (Hf & Hi & _).
    split; [exact Hf|]. split; [exact Hi|]. intros docs E. discriminate.
  - run H.
    assert (Hset : frame s s0)
      by (eapply frame_set_documents; [exact Hfile | exact H0]).
    assert (Hw0 : same_warnings s s0) by (injection H0 as _ <-; reflexivity).
    assert (Hlift : forall P : Prop,
              frame s0 s' /\ P -> frame s s' /\ P).
    { intros P [Hf HP]. split; [eapply frame_trans; eassumption | exact HP]. }
    destruct loaded as [| | | | [|d docs] |].
    1-4, 7: (apply issue_then_false in H as Hx; destruct Hx as (Hf & Hi & Hw);
         run H; injection H as <- _;
         split; [eapply frame_trans; eassumption|];
         split; [split; [discriminate | contradiction]|];
         intros docs E; discriminate).
    + apply issue_then_false in H as Hx. destruct Hx as (Hf & Hi & Hw).
      run H. injection H as <- _.
      split; [eapply frame_trans; eassumption|].
      split; [split; [discriminate | contradiction]|].
      intros docs E. injection E as <-. simpl. rewrite app_nil_r.
      unfold same_warnings in *. congruence.
    + run H. apply no_issues_spec in H. destruct H as [-> Hok].
      split.
      { eapply frame_trans; [exact Hset|]. revert H1.
        apply respects_validate_each;
          [apply frame_refl | apply frame_trans |].
        intros; apply frame_validate_document. }
      split; [exact Hok|].
      intros docs' E. injection E as <-.
      apply validate_documents_loop in H1. unfold same_warnings in Hw0.
      congruence.
  - destruct (Hfalse _ H [] eq_refl) as (Hf & Hi & _).
    split; [exact Hf|]. split; [exact Hi|]. intros docs E. discriminate.
  - destruct (Hfalse _ H [] eq_refl) as (Hf & Hi & _).
    split; [exact Hf|]. split; [exact Hi|]. intros docs E. discriminate.
  - destruct (Hfalse _ H [] eq_refl) as (Hf & Hi & _).
    split; [exact Hf|]. split; [exact Hi|]. intros docs E. discriminate.
Qed.

Lemma validate_chunks_spec s ok s' :
  _validate_chunks s = Return (ok, s') ->
  frame s s' /\
  (ok = true <-> issues (self s') = []) /\
  (forall docs,
     fs s !! (processed_dir (self s), "training_chunks.json"%string)
     = Some (Data (JList docs)) ->
     warnings (self s') = warnings (self s) ++ chunk_warnings docs).
Proof.
  unfold _validate_chunks. intros H.
  run H. run H. injection H0 as <- <-. injection H1 as <- <-.
  assert (Hfalse : forall m,
            (add_issue m ;;; ret false) s = Return (ok, s') ->
            forall docs : list json, docs = [] ->
            frame s s' /\ (ok = true <-> issues (self s') = []) /\
            warnings (self s') = warnings (self s) ++ chunk_warnings docs).
  { intros m Hm docs ->. pose proof Hm as Hm'.
    apply issue_then_false in Hm. destruct Hm as (Hf & Hi & Hw).
    run Hm'. injection Hm' as <- _.
    split; [exact Hf|]. split; [split; [discriminate | contradiction]|].
    simpl. rewrite app_nil_r. exact Hw. }
  destruct (fs s !! _) as [[| loaded | r | r]|] eqn:Hfile.
  - destruct (Hfalse _ H [] eq_refl) as (Hf & Hi & _).
    split; [exact Hf|]. split; [exact Hi|]. intros docs E. discriminate.
  - run H.
    assert (Hset : frame s s0)
      by (eapply frame_set_chunks; [exact Hfile | exact H0]).
    assert (Hw0 : same_warnings s s0) by (injection H0 as _ <-; reflexivity).
    assert (Hlift : forall P : Prop,
              frame s0 s' /\ P -> frame s s' /\ P).
    { intros P [Hf HP]. split; [eapply frame_trans; eassumption | exact HP]. }
    destruct loaded as [| | | | [|d docs] |].
    1-4, 7: (apply issue_then_false in H as Hx; destruct Hx as (Hf & Hi & Hw);
         run H; injection H as <- _;
         split; [eapply frame_trans; eassumption|];
         split; [split; [discriminate | contradiction]|];
         intros docs E; discriminate).
    + apply issue_then_false in H as Hx. destruct Hx as (Hf & Hi & Hw).
      run H. injection H as <- _.
      split; [eapply frame_trans; eassumption|].
      split; [split; [discriminate | contradiction]|].
      intros docs E. injection E as <-. simpl. rewrite app_nil_r.
      unfold same_warnings in *. congruence.
    + run H. apply no_issues_spec in H. destruct H as [-> Hok].
      split.
      { eapply frame_trans; [exact Hset|]. revert H1.
        apply respects_validate_each;
          [apply frame_refl | apply frame_trans |].
        intros; apply frame_validate_chunk. }
      split; [exact Hok|].
      intros docs' E. injection E as <-.
      apply validate_chunks_loop in H1. unfold same_warnings in Hw0.
      congruence.
  - destruct (Hfalse _ H [] eq_refl) as (Hf & Hi & _).
    split; [exact Hf|]. split; [exact Hi|]. intros docs E. discriminate.
  - destruct (Hfalse _ H [] eq_refl) as (Hf & Hi & _).
    split; [exact Hf|]. split; [exact Hi|]. intros docs E. discriminate.
  - destruct (Hfalse _ H [] eq_refl) as (Hf & Hi & _).
    split; [exact Hf|]. split; [exact Hi|]. intros docs E. discriminate.
Qed.


(** ** The steps after the two validations add no issue *)

Lemma quiet_pure {A} (m : M A) : pure m -> respects quiet m.
Proof. apply respects_pure. apply quiet_refl. Qed.

Lemma quiet_cross_validate : respects quiet _cross_validate.
Proof.
  pose proof quiet_refl as Hr. pose proof quiet_trans as Ht.
  unfold _cross_validate.
  apply respects_bind; try assumption; [apply quiet_pure, pure_read_self|].
  intros v.
  apply respects_bind; try assumption; [apply quiet_pure, pure_loaded_list|].
  intros docs.
  apply respects_bind; try assumption; [apply quiet_pure, pure_loaded_list|].
  intros cs.
  apply respects_bind; try assumption; [apply quiet_pure, pure_id_set|].
  intros doc_ids.
  apply respects_bind; try assumption; [apply quiet_pure, pure_orphans|].
  intros orphan_chunks.
  apply respects_when; try assumption. apply quiet_add_warning.
Qed.

Lemma quiet_generate_statistics : respects quiet _generate_statistics.
Proof.
  pose proof quiet_refl as Hr. pose proof quiet_trans as Ht.
  unfold _generate_statistics.
  apply respects_bind; try assumption; [apply quiet_pure, pure_read_self|].
  intros v.
  apply respects_bind; try assumption; [apply quiet_pure, pure_loaded_list|].
  intros docs.
  apply respects_bind; try assumption; [apply quiet_pure, pure_loaded_list|].
  intros cs.
  apply respects_bind; try assumption.
  { apply quiet_pure, pure_sum_over. intros f. apply pure_ret. }
  intros total_words.
  apply respects_bind; try assumption.
  { apply quiet_pure, pure_sum_over. intros f. apply pure_ret. }
  intros total_chars.
  apply respects_bind; try assumption.
  { apply quiet_pure, pure_sum_over. apply pure_token_count_of. }
  intros total_tokens.
  apply respects_bind; try assumption.
  { apply quiet_pure.
    destruct (total_tokens =? 0); [apply pure_int_of_product | apply pure_ret]. }
  intros total_tokens'.
  apply respects_bind; try assumption; [apply quiet_pure, pure_counter|].
  intros doc_types.
  apply respects_bind; try assumption; [apply quiet_pure, pure_counter|].
  intros cats.
  apply respects_bind; try assumption; [apply quiet_pure, pure_counter|].
  intros chunk_types. apply quiet_set_stats.
Qed.

Lemma quiet_save_report now : respects quiet (_save_report now).
Proof.
  pose proof quiet_refl as Hr. pose proof quiet_trans as Ht.
  unfold _save_report.
  apply respects_bind; try assumption; [apply quiet_pure, pure_read_self|].
  intros v. cbv zeta. destruct (report_encodable _);
    [apply quiet_write_report|].
  apply respects_bind; try assumption; [apply quiet_write_report|].
  intros _. apply respects_raise; assumption.
Qed.

(** ** No issue is about empty content *)













(** ** [validate] *)

(** A run of [validate] that returns stays within the frame, and returns
    [True] exactly when no issue was recorded. *)
Lemma validate_spec now s success s' :
  validate now s = Return (success, s') ->
  frame s s' /\ (success = true <-> issues (self s') = []).
Proof.
  unfold validate. intros H.
  run H. destruct a; simpl in H.
  2: { injection H as <- <-. split.
       - eapply frame_check_files; eassumption.
       - split; [discriminate|]. intros E.
         apply check_required_files_fails in H0. contradiction. }
  assert (F0 : frame s s0) by (eapply frame_check_files; eassumption).
  run H. apply validate_documents_spec in H1.
  destruct H1 as (F1 & Hok1 & _). destruct a; simpl in H.
  2: { injection H as <- <-. split; [eapply frame_trans; eassumption|].
       exact Hok1. }
  run H. apply validate_chunks_spec in H1.
  destruct H1 as (F2 & Hok2 & _). destruct a; simpl in H.
  2: { injection H as <- <-.
       split; [eapply frame_trans; [|exact F2]; eapply frame_trans; eassumption|].
       exact Hok2. }
  run H. apply quiet_cross_validate in H1. destruct H1 as [F3 I3].
  run H. apply quiet_generate_statistics in H1. destruct H1 as [F4 I4].
  run H. apply quiet_save_report in H1. destruct H1 as [F5 I5].
  apply no_issues_spec in H. destruct H as [-> Hok].
  split; [|exact Hok].
  eapply frame_trans; [|exact F5]. eapply frame_trans; [|exact F4].
  eapply frame_trans; [|exact F3]. eapply frame_trans; [|exact F2].
  eapply frame_trans; [exact F0 | exact F1].
Qed.

(** ** Issues about content in the loop over the documents *)






End ValidatorFacts.

(* ===================================================================== *)
(** * The validator: files, identifiers, orphans                          *)
(* ===================================================================== *)

Module ValidatorMore.
Import Validator ValidatorFacts.

(** ** Methods that change the validator object only *)

Section Updates.

Variable R : state -> state -> Prop.
Hypothesis R_refl : forall s, R s s.
Hypothesis R_trans : forall s1 s2 s3, R s1 s2 -> R s2 s3 -> R s1 s3.
Hypothesis R_update : forall f, respects R (update f).

Local Ltac step :=
  first [ apply respects_bind; [assumption | | intros ?]
        | apply respects_when; [assumption|]
        | apply respects_ret; assumption
        | apply respects_raise; assumption
        | apply R_update ].

Lemma upd_add_issue m : respects R (add_issue m).
Proof. apply R_update. Qed.

Lemma upd_add_warning m : respects R (add_warning m).
Proof. apply R_update. Qed.

Lemma upd_issue_false m : respects R (add_issue m ;;; ret false).
Proof. repeat step. Qed.

Lemma upd_validate_document i doc doc_ids :
  respects R (validate_document i doc doc_ids).
Proof.
  destruct doc; try (apply respects_raise; assumption).
  cbv beta iota zeta delta [validate_document].
  step.
  { apply respects_for_each; try assumption. intros j x. repeat step. }
  step.
  { destruct (truth _); [|step]. destruct (hashable _); repeat step. }
  repeat step.
Qed.

Lemma upd_validate_chunk i chunk chunk_ids :
  respects R (validate_chunk i chunk chunk_ids).
Proof.
  destruct chunk; try (apply respects_raise; assumption).
  cbv beta iota zeta delta [validate_chunk].
  step.
  { destruct (negb (truth _)); [repeat step|].
    destruct (hashable _); repeat step. }
  repeat step.
Qed.

Lemma upd_check_files names : forall b, respects R (check_files b names).
Proof.
  induction names as [|f names IH]; intros b; simpl; [step|].
  step; [apply respects_pure, pure_read_self; assumption|].
  step; [apply respects_pure, pure_read_fs; assumption|].
  destruct (_ !! _); [apply IH|]. step; [apply R_update | apply IH].
Qed.

Lemma upd_no_issues : respects R no_issues.
Proof.
  intros s b s' H. apply no_issues_spec in H. destruct H as [-> _].
  apply R_refl.
Qed.

Lemma upd_validate_documents : respects R _validate_documents.
Proof.
  unfold _validate_documents.
  step; [apply respects_pure, pure_read_self; assumption|].
  step; [apply respects_pure, pure_read_fs; assumption|].
  destruct (_ !! _) as [[| loaded | |]|]; try apply upd_issue_false.
  step; [apply R_update|].
  destruct loaded as [| | | | [|d docs] |]; try apply upd_issue_false.
  step; [|apply upd_no_issues].
  apply respects_validate_each; try assumption.
  intros; apply upd_validate_document.
Qed.

Lemma upd_validate_chunks : respects R _validate_chunks.
Proof.
  unfold _validate_chunks.
  step; [apply respects_pure, pure_read_self; assumption|].
  step; [apply respects_pure, pure_read_fs; assumption|].
  destruct (_ !! _) as [[| loaded | |]|]; try apply upd_issue_false.
  step; [apply R_update|].
  destruct loaded as [| | | | [|c cs] |]; try apply upd_issue_false.
  step; [|apply upd_no_issues].
  apply respects_validate_each; try assumption.
  intros; apply upd_validate_chunk.
Qed.

Lemma upd_cross_validate : respects R _cross_validate.
Proof.
  unfold _cross_validate.
  step; [apply respects_pure, pure_read_self; assumption|].
  step; [apply respects_pure, pure_loaded_list; assumption|].
  step; [apply respects_pure, pure_loaded_list; assumption|].
  step; [apply respects_pure, pure_id_set; assumption|].
  step; [apply respects_pure, pure_orphans; assumption|].
  repeat step.
Qed.

Lemma upd_generate_statistics : respects R _generate_statistics.
Proof.
  unfold _generate_statistics.
  step; [apply respects_pure, pure_read_self; assumption|].
  step; [apply respects_pure, pure_loaded_list; assumption|].
  step; [apply respects_pure, pure_loaded_list; assumption|].
  step.
  { apply respects_pure; [assumption|]. apply pure_sum_over.
    intros f. apply pure_ret. }
  step.
  { apply respects_pure; [assumption|]. apply pure_sum_over.
    intros f. apply pure_ret. }
  step.
  { apply respects_pure; [assumption|]. apply pure_sum_over.
    apply pure_token_count_of. }
  step.
  { apply respects_pure; [assumption|]. destruct (_ =? 0);
      [apply ValidatorFacts.pure_int_of_product | apply pure_ret]. }
  step; [apply respects_pure, pure_counter; assumption|].
  step; [apply respects_pure, pure_counter; assumption|].
  step; [apply respects_pure, pure_counter; assumption|].
  apply R_update.
Qed.

End Updates.

Lemma same_files_refl s : same_files s s.
Proof. reflexivity. Qed.

Lemma same_files_trans s1 s2 s3 :
  same_files s1 s2 -> same_files s2 s3 -> same_files s1 s3.
Proof. unfold same_files. congruence. Qed.

Lemma same_files_update f : respects same_files (update f).
Proof. intros s a s' H. injection H as _ <-. reflexivity. Qed.

(** ** [_check_required_files], file by file *)

Lemma check_files_spec names : forall b s ok s',
  check_files b names s = Return (ok, s') ->
  fs s' = fs s /\ processed_dir (self s') = processed_dir (self s) /\
  issues (self s')
  = issues (self s)
    ++ map RequiredFileMissing
         (List.filter (fun name =>
                         match fs s !! (processed_dir (self s), name) with
                         | Some _ => false
                         | None => true
                         end) names) /\
  ok = b && forallb (fun name =>
                       match fs s !! (processed_dir (self s), name) with
                       | Some _ => true
                       | None => false
                       end) names.
Proof.
  induction names as [|f names IH]; intros b s ok s' H; simpl in H.
  - injection H as <- <-. simpl. rewrite app_nil_r, andb_true_r. auto.
  - run H. run H. injection H0 as <- <-. injection H1 as <- <-. simpl.
    destruct (fs s !! (processed_dir (self s), f)) eqn:E.
    + apply IH in H. simpl. exact H.
    + run H. injection H0 as _ <-. apply IH in H. simpl in H.
      destruct H as (Hfs & Hdir & Hiss & Hok).
      split; [exact Hfs|]. split; [exact Hdir|]. split.
      * rewrite Hiss. simpl. now rewrite <- app_assoc.
      * rewrite Hok. simpl. now rewrite andb_false_r.
Qed.

(** ** Identifiers seen once *)

Lemma member_app x l1 l2 : member x (l1 ++ l2) = member x l1 || member x l2.
Proof. unfold member. apply existsb_app. Qed.

Lemma fresh_ids_app ids1 : forall seen ids2,
  fresh_ids seen ids1 -> fresh_ids (seen ++ ids1) ids2 ->
  fresh_ids seen (ids1 ++ ids2).
Proof.
  induction ids1 as [|x ids1 IH]; intros seen ids2 H1 H2; simpl in *.
  - now rewrite app_nil_r in H2.
  - destruct H1 as [Hx H1]. split; [exact Hx|].
    apply IH; [exact H1|]. now rewrite <- app_assoc.
Qed.

Lemma fresh_ids_seen ids : forall seen j b a,
  fresh_ids seen ids -> nth_error ids j = Some b -> In a seen ->
  py_eq b a = false.
Proof.
  induction ids as [|x ids IH]; intros seen j b a H Hj Ha.
  - destruct j; discriminate.
  - destruct H as [Hx H]. destruct j as [|j]; simpl in Hj.
    + injection Hj as <-. unfold member in Hx.
      destruct (py_eq x a) eqn:E; [|reflexivity].
      assert (existsb (py_eq x) seen = true)
        by (apply existsb_exists; eauto).
      congruence.
    + apply (IH (seen ++ [x]) j b a H Hj). apply in_or_app. now left.
Qed.

Lemma fresh_ids_pairwise ids : forall seen,
  fresh_ids seen ids -> pairwise_distinct ids.
Proof.
  induction ids as [|x ids IH]; intros seen H i j a b Hij Hi Hj.
  - destruct i; discriminate.
  - destruct H as [_ H]. destruct j as [|j]; [lia|]. simpl in Hj.
    destruct i as [|i]; simpl in Hi.
    + injection Hi as <-.
      apply (fresh_ids_seen ids (seen ++ [x]) j b x H Hj).
      apply in_or_app. right. now left.
    + apply (IH _ H i j a b); [lia | assumption | assumption].
Qed.

(** ** Runs of the loops that record no issue *)

Lemma issues_empty_before s s' :
  frame s s' -> issues (self s') = [] -> issues (self s) = [].
Proof.
  intros [_ _ [extra E] _ _ _] H. rewrite E in H.
  now apply app_eq_nil in H.
Qed.

Lemma required_present fields i l : forall j s a s',
  for_each (fun _ field =>
              when_ (negb (has_key fields (lit field)))
                (add_issue (DocumentMissingField i field))) j l s
  = Return (a, s') ->
  issues (self s') = [] ->
  Forall (fun field => has_key fields (lit field) = true) l /\ s' = s.
Proof.
  induction l as [|f l IH]; intros j s a s' H Hnil; simpl in H.
  - injection H as _ <-. split; [constructor | reflexivity].
  - run H. destruct (has_key fields (lit f)) eqn:E; simpl in H0.
    + injection H0 as _ <-. destruct (IH _ _ _ _ H Hnil) as [Hl ->].
      split; [constructor; assumption | reflexivity].
    + exfalso. apply add_issue_nonempty in H0.
      assert (Hf : frame s0 s').
      { revert H. apply respects_for_each;
          [apply frame_refl | apply frame_trans|].
        intros k x. apply respects_when; [apply frame_refl|].
        apply frame_add_issue. }
      apply (frame_nonempty _ _ Hf H0). exact Hnil.
Qed.

Lemma validate_document_clean i doc acc s acc' s' :
  validate_document i doc acc s = Return (acc', s') ->
  issues (self s') = [] ->
  exists fields,
    doc = JObj fields /\
    Forall (fun field => has_key fields (lit field) = true) required_fields /\
    (truth (get fields "id") = true ->
     member (get fields "id") acc = false /\ acc' = acc ++ [get fields "id"]) /\
    (truth (get fields "id") = false -> acc' = acc).
Proof.
  destruct doc; try discriminate.
  cbv beta iota zeta delta [validate_document]. intros H Hnil.
  run H. run H. run H. injection H as <- <-.
  assert (I1 : issues (self s1) = []).
  { assert (Hq : quiet s1 s2).
    { revert H2. apply respects_when; [apply quiet_refl|].
      apply quiet_add_warning. }
    destruct Hq as [_ Hq]. congruence. }
  assert (I0 : issues (self s0) = []).
  { apply (issues_empty_before s0 s1); [|exact I1].
    revert H1. destruct (truth (get fields "id"));
      [|apply respects_ret, frame_refl].
    destruct (hashable _); [|apply respects_raise, frame_refl].
    apply respects_bind; [apply frame_trans | |].
    - apply respects_when; [apply frame_refl | apply frame_add_issue].
    - intros _. apply respects_ret, frame_refl. }
  destruct (required_present _ _ _ _ _ _ _ H0 I0) as [Hreq ->].
  exists fields. split; [reflexivity|]. split; [exact Hreq|].
  destruct (truth (get fields "id")).
  - split; [intros _ | discriminate].
    destruct (hashable _); [|discriminate]. run H1.
    injection H1 as <- <-.
    destruct (member (get fields "id") acc) eqn:Em; simpl in H3.
    + exfalso. apply add_issue_nonempty in H3. contradiction.
    + auto.
  - split; [discriminate | intros _]. now injection H1 as <- _.
Qed.

Lemma frame_validate_documents_loop docs i acc :
  respects frame (validate_each validate_document i docs acc).
Proof.
  apply respects_validate_each; [apply frame_refl | apply frame_trans|].
  intros; apply frame_validate_document.
Qed.

Lemma validate_documents_clean docs : forall i acc s acc' s',
  validate_each validate_document i docs acc s = Return (acc', s') ->
  issues (self s') = [] ->
  Forall (fun doc =>
            exists fields,
              doc = JObj fields /\
              Forall (fun field => has_key fields (lit field) = true)
                required_fields) docs /\
  fresh_ids acc (compared_ids docs).
Proof.
  induction docs as [|d docs IH]; intros i acc s acc' s' H Hnil; simpl in H.
  - split; [constructor | exact I].
  - run H.
    assert (I0 : issues (self s0) = []).
    { apply (issues_empty_before s0 s'); [|exact Hnil].
      eapply frame_validate_documents_loop. exact H. }
    destruct (validate_document_clean _ _ _ _ _ _ H0 I0)
      as (fields & -> & Hreq & Hyes & Hno).
    destruct (IH _ _ _ _ _ H Hnil) as [Hdocs Hfresh].
    split; [constructor; eauto|].
    simpl. destruct (truth (get fields "id")).
    + destruct (Hyes eq_refl) as [Hm ->]. simpl. auto.
    + rewrite (Hno eq_refl) in Hfresh. exact Hfresh.
Qed.

Lemma validate_chunk_clean i chunk acc s acc' s' :
  validate_chunk i chunk acc s = Return (acc', s') ->
  issues (self s') = [] ->
  exists fields,
    chunk = JObj fields /\
    truth (chunk_id_of fields) = true /\
    truth (source_id_of fields) = true /\
    member (chunk_id_of fields) acc = false /\
    acc' = acc ++ [chunk_id_of fields].
Proof.
  destruct chunk; try discriminate.
  cbv beta iota zeta delta [validate_chunk]. intros H Hnil.
  fold (chunk_id_of fields) in H. fold (source_id_of fields) in H.
  run H. run H. run H. injection H as <- <-.
  assert (I1 : issues (self s1) = []).
  { assert (Hq : quiet s1 s2).
    { revert H2. apply respects_when; [apply quiet_refl|].
      apply quiet_add_warning. }
    destruct Hq as [_ Hq]. congruence. }
  assert (I0 : issues (self s0) = []).
  { apply (issues_empty_before s0 s1); [|exact I1].
    revert H1. apply respects_when; [apply frame_refl|].
    apply frame_add_issue. }
  exists fields. split; [reflexivity|].
  destruct (truth (chunk_id_of fields)) eqn:Eid; simpl in H0.
  2: { exfalso. run H0. injection H0 as _ <-.
       apply add_issue_nonempty in H3. contradiction. }
  destruct (hashable (chunk_id_of fields)); [|discriminate].
  run H0. injection H0 as <- <-.
  destruct (truth (source_id_of fields)) eqn:Esrc; simpl in H1.
  2: { exfalso. apply add_issue_nonempty in H1. contradiction. }
  destruct (member (chunk_id_of fields) acc) eqn:Em; simpl in H3.
  { exfalso. apply add_issue_nonempty in H3. contradiction. }
  auto.
Qed.

Lemma frame_validate_chunks_loop cs i acc :
  respects frame (validate_each validate_chunk i cs acc).
Proof.
  apply respects_validate_each; [apply frame_refl | apply frame_trans|].
  intros; apply frame_validate_chunk.
Qed.

Lemma validate_chunks_clean cs : forall i acc s acc' s',
  validate_each validate_chunk i cs acc s = Return (acc', s') ->
  issues (self s') = [] ->
  Forall (fun chunk =>
            exists fields,
              chunk = JObj fields /\
              truth (chunk_id_of fields) = true /\
              truth (source_id_of fields) = true) cs /\
  fresh_ids acc (chunk_ids_of cs).
Proof.
  induction cs as [|c cs IH]; intros i acc s acc' s' H Hnil; simpl in H.
  - split; [constructor | exact I].
  - run H.
    assert (I0 : issues (self s0) = []).
    { apply (issues_empty_before s0 s'); [|exact Hnil].
      eapply frame_validate_chunks_loop. exact H. }
    destruct (validate_chunk_clean _ _ _ _ _ _ H0 I0)
      as (fields & -> & Hid & Hsrc & Hm & ->).
    destruct (IH _ _ _ _ _ H Hnil) as [Hcs Hfresh].
    split; [constructor; eauto|]. simpl. auto.
Qed.

(** ** [_cross_validate] *)

Lemma id_set_spec docs : forall s ids s',
  id_set docs s = Return (ids, s') -> ids = document_ids docs /\ s' = s.
Proof.
  induction docs as [|d docs IH]; intros s ids s' H; simpl in H.
  - injection H as <- <-. auto.
  - run H. destruct d; try discriminate. injection H0 as <- <-.
    destruct (_ && _); [|discriminate]. run H. injection H as <- <-.
    destruct (IH _ _ _ H0) as [-> ->]. auto.
Qed.

Lemma orphans_spec doc_ids cs : forall s l s',
  orphans doc_ids cs s = Return (l, s') ->
  length l = length (List.filter (orphan doc_ids) cs) /\ s' = s.
Proof.
  induction cs as [|c cs IH]; intros s l s' H; simpl in H.
  - injection H as <- <-. auto.
  - run H. destruct c; try discriminate. injection H0 as <- <-.
    simpl. fold (source_id_of fields) in *.
    destruct (truth (source_id_of fields)); simpl.
    + destruct (hashable _); [|discriminate]. run H.
      destruct (IH _ _ _ H0) as [Hl ->].
      destruct (negb (member (source_id_of fields) doc_ids));
        injection H as <- <-; simpl; auto.
    + apply IH in H. exact H.
Qed.

End ValidatorMore.

(* ===================================================================== *)
(** * The validator: what an exception leaves behind                      *)
(* ===================================================================== *)

Module ValidatorRaise.
Import Validator.

Lemma keeps_files_ret {A} (a : A) : keeps_files (ret a).
Proof. intros s. reflexivity. Qed.

Lemma keeps_files_raise {A} : keeps_files (@raise A).
Proof. intros s. reflexivity. Qed.

Lemma keeps_files_bind {A B} (m : M A) (k : A -> M B) :
  keeps_files m -> (forall a, keeps_files (k a)) -> keeps_files (bind m k).
Proof.
  intros Hm Hk s. unfold bind. specialize (Hm s).
  destruct (m s) as [[a s1]|d]; [|exact Hm].
  specialize (Hk a s1). destruct (k a s1) as [[b s2]|d]; congruence.
Qed.

Lemma keeps_files_read_self : keeps_files read_self.
Proof. intros s. reflexivity. Qed.

Lemma keeps_files_read_fs : keeps_files read_fs.
Proof. intros s. reflexivity. Qed.

Lemma keeps_files_update f : keeps_files (update f).
Proof. intros s. reflexivity. Qed.

Lemma keeps_files_no_issues : keeps_files no_issues.
Proof. intros s. reflexivity. Qed.

(** One step through a method built from the operations above. *)
Ltac keeps :=
  repeat first
    [ apply keeps_files_ret | apply keeps_files_raise
    | apply keeps_files_read_self | apply keeps_files_read_fs
    | apply keeps_files_update | apply keeps_files_no_issues
    | assumption
    | apply keeps_files_bind; [|intros ?]
    | match goal with
      | |- keeps_files (when_ ?c _) => destruct c; simpl when_
      | |- keeps_files (if ?c then _ else _) => destruct c
      | |- keeps_files (match ?x with _ => _ end) => destruct x
      end ].

Lemma keeps_files_for_each {A} (body : nat -> A -> M unit) l :
  (forall i x, keeps_files (body i x)) ->
  forall i, keeps_files (for_each body i l).
Proof.
  intros Hb. induction l as [|x l IH]; intros i; simpl; [keeps|].
  apply keeps_files_bind; [apply Hb | intros _; apply IH].
Qed.

Lemma keeps_files_validate_each {A} (body : nat -> json -> A -> M A) l :
  (forall i x acc, keeps_files (body i x acc)) ->
  forall i acc, keeps_files (validate_each body i l acc).
Proof.
  intros Hb. induction l as [|x l IH]; intros i acc; simpl; [keeps|].
  apply keeps_files_bind; [apply Hb | intros acc'; apply IH].
Qed.

Lemma keeps_files_check_files names :
  forall all_exist, keeps_files (check_files all_exist names).
Proof.
  induction names as [|name names IH]; intros all_exist; simpl; [keeps|].
  apply keeps_files_bind; [keeps|]. intros v.
  apply keeps_files_bind; [keeps|]. intros disk.
  destruct (disk !! _); [apply IH|].
  apply keeps_files_bind; [apply keeps_files_update | intros _; apply IH].
Qed.

Lemma keeps_files_validate_document i doc doc_ids :
  keeps_files (validate_document i doc doc_ids).
Proof.
  destruct doc; try apply keeps_files_raise.
  cbv beta iota zeta delta [validate_document].
  apply keeps_files_bind.
  { apply keeps_files_for_each. intros j field.
    destruct (negb _); simpl; [apply keeps_files_update | keeps]. }
  intros _. unfold add_issue, add_warning. keeps.
Qed.

Lemma keeps_files_validate_chunk i chunk chunk_ids :
  keeps_files (validate_chunk i chunk chunk_ids).
Proof.
  destruct chunk; try apply keeps_files_raise.
  cbv beta iota zeta delta [validate_chunk].
  unfold add_issue, add_warning. keeps.
Qed.

Lemma keeps_files_validate_documents : keeps_files _validate_documents.
Proof.
  unfold _validate_documents, set_documents, add_issue.
  apply keeps_files_bind; [keeps|]. intros v.
  apply keeps_files_bind; [keeps|]. intros disk.
  destruct (disk !! _) as [[| loaded | |]|]; try solve [keeps].
  apply keeps_files_bind; [keeps|]. intros _.
  destruct loaded as [| | | | [|d docs] |]; try solve [keeps].
  apply keeps_files_bind; [|intros _; keeps].
  apply keeps_files_validate_each. intros. apply keeps_files_validate_document.
Qed.

Lemma keeps_files_validate_chunks : keeps_files _validate_chunks.
Proof.
  unfold _validate_chunks, set_chunks, add_issue.
  apply keeps_files_bind; [keeps|]. intros v.
  apply keeps_files_bind; [keeps|]. intros disk.
  destruct (disk !! _) as [[| loaded | |]|]; try solve [keeps].
  apply keeps_files_bind; [keeps|]. intros _.
  destruct loaded as [| | | | [|c cs] |]; try solve [keeps].
  apply keeps_files_bind; [|intros _; keeps].
  apply keeps_files_validate_each. intros. apply keeps_files_validate_chunk.
Qed.

Lemma keeps_files_loaded_list v : keeps_files (loaded_list v).
Proof. unfold loaded_list. keeps. Qed.

Lemma keeps_files_fields_of v : keeps_files (fields_of v).
Proof. unfold fields_of. keeps. Qed.

Lemma keeps_files_id_set docs : keeps_files (id_set docs).
Proof.
  induction docs as [|doc docs IH]; simpl; [keeps|].
  apply keeps_files_bind; [apply keeps_files_fields_of|]. intros fields.
  keeps.
Qed.

Lemma keeps_files_orphans doc_ids cs : keeps_files (orphans doc_ids cs).
Proof.
  induction cs as [|chunk cs IH]; simpl; [keeps|].
  apply keeps_files_bind; [apply keeps_files_fields_of|]. intros fields.
  keeps.
Qed.

Lemma keeps_files_cross_validate : keeps_files _cross_validate.
Proof.
  unfold _cross_validate, add_warning.
  apply keeps_files_bind; [keeps|]. intros v.
  apply keeps_files_bind; [apply keeps_files_loaded_list|]. intros docs.
  apply keeps_files_bind; [apply keeps_files_loaded_list|]. intros cs.
  apply keeps_files_bind; [apply keeps_files_id_set|]. intros doc_ids.
  apply keeps_files_bind; [apply keeps_files_orphans|]. intros orphan_chunks.
  keeps.
Qed.

Lemma keeps_files_add_to total v : keeps_files (add_to total v).
Proof. unfold add_to. keeps. Qed.

Lemma keeps_files_int_of_product n factor :
  keeps_files (int_of_product n factor).
Proof. unfold int_of_product. keeps. Qed.

Lemma keeps_files_int_times v factor : keeps_files (int_times v factor).
Proof.
  destruct v; simpl; try apply keeps_files_raise;
    (apply keeps_files_bind;
     [apply keeps_files_int_of_product | intros k; keeps]).
Qed.

Lemma keeps_files_token_count_of fields : keeps_files (token_count_of fields).
Proof.
  unfold token_count_of.
  repeat match goal with
         | |- keeps_files (if ?c then _ else _) => destruct c
         end; try apply keeps_files_ret; apply keeps_files_int_times.
Qed.

Lemma keeps_files_sum_over measure l :
  (forall fields, keeps_files (measure fields)) ->
  forall total, keeps_files (sum_over measure total l).
Proof.
  intros Hm. induction l as [|x l IH]; intros total; simpl; [keeps|].
  apply keeps_files_bind; [apply keeps_files_fields_of|]. intros fields.
  apply keeps_files_bind; [apply Hm|]. intros v.
  apply keeps_files_bind; [apply keeps_files_add_to|]. intros total'.
  apply IH.
Qed.

Lemma keeps_files_counter key default l :
  forall counts, keeps_files (counter key default l counts).
Proof.
  induction l as [|x l IH]; intros counts; simpl; [keeps|].
  apply keeps_files_bind; [apply keeps_files_fields_of|]. intros fields.
  destruct (hashable _); [apply IH | keeps].
Qed.

Lemma keeps_files_generate_statistics : keeps_files _generate_statistics.
Proof.
  unfold _generate_statistics, set_stats.
  apply keeps_files_bind; [keeps|]. intros v.
  apply keeps_files_bind; [apply keeps_files_loaded_list|]. intros docs.
  apply keeps_files_bind; [apply keeps_files_loaded_list|]. intros cs.
  apply keeps_files_bind.
  { apply keeps_files_sum_over. intros f. keeps. }
  intros total_words.
  apply keeps_files_bind.
  { apply keeps_files_sum_over. intros f. keeps. }
  intros total_chars.
  apply keeps_files_bind.
  { apply keeps_files_sum_over. apply keeps_files_token_count_of. }
  intros total_tokens.
  apply keeps_files_bind.
  { destruct (total_tokens =? 0);
      [apply keeps_files_int_of_product | keeps]. }
  intros total_tokens'.
  apply keeps_files_bind; [apply keeps_files_counter|]. intros doc_types.
  apply keeps_files_bind; [apply keeps_files_counter|]. intros cats.
  apply keeps_files_bind; [apply keeps_files_counter|]. intros chunk_types.
  keeps.
Qed.

Lemma keeps_files_Raise {A} (m : M A) s disk :
  keeps_files m -> m s = Raise disk -> disk = fs s.
Proof. intros K E. specialize (K s). rewrite E in K. exact K. Qed.

Lemma keeps_files_Return {A} (m : M A) s a s' :
  keeps_files m -> m s = Return (a, s') -> fs s' = fs s.
Proof. intros K E. specialize (K s). rewrite E in K. exact K. Qed.

Lemma bind_Raise {A B} (m : M A) (k : A -> M B) s disk :
  bind m k s = Raise disk ->
  m s = Raise disk \/
  exists a s', m s = Return (a, s') /\ k a s' = Raise disk.
Proof.
  unfold bind. destruct (m s) as [[a s']|d]; [eauto | intros H; left; congruence].
Qed.

(** What [_save_report] does to the file system. *)
Lemma save_report_outcome now s :
  exists r,
    report_issues r = issues (self s) /\
    report_warnings r = warnings (self s) /\
    (status r = "passed"%string <-> issues (self s) = []) /\
    (validation_passed r = true <-> issues (self s) = []) /\
    total_issues r = len (issues (self s)) /\
    match _save_report now s with
    | Return (_, s') =>
        report_encodable r = true /\ self s' = self s /\
        fs s' = <[report_key s := Written r]> (fs s)
    | Raise disk =>
        report_encodable r = false /\
        disk = <[report_key s := Truncated r]> (fs s)
    end.
Proof.
  unfold _save_report, bind, read_self. cbv zeta.
  match goal with
  | |- context [report_encodable ?r] => exists r
  end.
  simpl report_issues. simpl report_warnings. simpl status.
  simpl validation_passed. simpl total_issues.
  split; [reflexivity|]. split; [reflexivity|].
  split.
  { destruct (issues (self s)); simpl; split; intros H;
      try reflexivity; discriminate. }
  split; [apply ValidatorFacts.len_zero|].
  split; [reflexivity|].
  destruct (report_encodable _); simpl; auto.
Qed.

(** A run of [validate] that returns: [False] without writing, [True]
    with the whole report written. *)
Lemma validate_returns now s success s' :
  validate now s = Return (success, s') ->
  (success = false -> fs s' = fs s) /\
  (success = true ->
   exists r,
     fs s' = <[report_key s := Written r]> (fs s) /\
     status r = "passed"%string /\ report_issues r = [] /\
     total_issues r = 0 /\ validation_passed r = true /\
     report_warnings r = warnings (self s') /\
     report_encodable r = true).
Proof.
  unfold validate. intros H.
  apply ValidatorFacts.bind_Some in H. destruct H as (ok1 & s1 & H1 & H).
  assert (F1 : fs s1 = fs s)
    by (eapply keeps_files_Return; [apply keeps_files_check_files | exact H1]).
  assert (D1 : processed_dir (self s1) = processed_dir (self s))
    by (apply (ValidatorFacts.frame_check_files _ _ _ _ _ H1)).
  destruct ok1; simpl in H.
  2: { injection H as <- <-. split; [auto | discriminate]. }
  apply ValidatorFacts.bind_Some in H. destruct H as (ok2 & s2 & H2 & H).
  assert (F2 : fs s2 = fs s1)
    by (eapply keeps_files_Return;
        [apply keeps_files_validate_documents | exact H2]).
  pose proof (ValidatorFacts.validate_documents_spec _ _ _ H2) as (Fr2 & _ & _).
  destruct ok2; simpl in H.
  2: { injection H as <- <-. split; [intros _; congruence | discriminate]. }
  apply ValidatorFacts.bind_Some in H. destruct H as (ok3 & s3 & H3 & H).
  assert (F3 : fs s3 = fs s2)
    by (eapply keeps_files_Return;
        [apply keeps_files_validate_chunks | exact H3]).
  pose proof (ValidatorFacts.validate_chunks_spec _ _ _ H3) as (Fr3 & Hok3 & _).
  destruct ok3; simpl in H.
  2: { injection H as <- <-. split; [intros _; congruence | discriminate]. }
  assert (I3 : issues (self s3) = []) by now apply Hok3.
  apply ValidatorFacts.bind_Some in H. destruct H as (u4 & s4 & H4 & H).
  assert (F4 : fs s4 = fs s3)
    by (eapply keeps_files_Return;
        [apply keeps_files_cross_validate | exact H4]).
  apply ValidatorFacts.quiet_cross_validate in H4. destruct H4 as [Fr4 I4].
  apply ValidatorFacts.bind_Some in H. destruct H as (u5 & s5 & H5 & H).
  assert (F5 : fs s5 = fs s4)
    by (eapply keeps_files_Return;
        [apply keeps_files_generate_statistics | exact H5]).
  apply ValidatorFacts.quiet_generate_statistics in H5.
  destruct H5 as [Fr5 I5].
  apply ValidatorFacts.bind_Some in H. destruct H as (u6 & s6 & H6 & H).
  apply ValidatorFacts.no_issues_spec in H. destruct H as [-> Hok].
  assert (I5' : issues (self s5) = []) by congruence.
  assert (D5 : processed_dir (self s5) = processed_dir (self s)).
  { rewrite (frame_dir _ _ Fr5), (frame_dir _ _ Fr4), (frame_dir _ _ Fr3),
      (frame_dir _ _ Fr2). exact D1. }
  destruct (save_report_outcome now s5)
    as (r & Ri & Rw & Rs & Rp & Rt & Hsave).
  rewrite H6 in Hsave. destruct Hsave as (Re & Hself & Hfs).
  assert (I6 : issues (self s6) = []) by (rewrite Hself; exact I5').
  split.
  - intros ->. destruct Hok as [_ Hok]. specialize (Hok I6). discriminate.
  - intros _. exists r. split.
    { rewrite Hfs. unfold report_key. rewrite D5. f_equal. congruence. }
    split; [now apply Rs|]. split; [congruence|].
    split; [rewrite Rt, I5'; reflexivity|]. split; [now apply Rp|].
    split; [rewrite Hself; exact Rw | exact Re].
Qed.

(** A run of [validate] that ends in an exception: nothing is written,
    unless the exception is that of [json.dump], which leaves the
    beginning of a report that says "passed". *)
Lemma validate_raises now s disk :
  validate now s = Raise disk ->
  disk = fs s \/
  exists r,
    disk = <[report_key s := Truncated r]> (fs s) /\
    status r = "passed"%string /\ report_issues r = [] /\
    report_encodable r = false.
Proof.
  unfold validate. intros H.
  apply bind_Raise in H. destruct H as [H|(ok1 & s1 & H1 & H)].
  { left. eapply keeps_files_Raise; [apply keeps_files_check_files | exact H]. }
  assert (F1 : fs s1 = fs s)
    by (eapply keeps_files_Return; [apply keeps_files_check_files | exact H1]).
  assert (D1 : processed_dir (self s1) = processed_dir (self s))
    by (apply (ValidatorFacts.frame_check_files _ _ _ _ _ H1)).
  destruct ok1; simpl in H; [|discriminate].
  apply bind_Raise in H. destruct H as [H|(ok2 & s2 & H2 & H)].
  { left. rewrite <- F1.
    eapply keeps_files_Raise; [apply keeps_files_validate_documents | exact H]. }
  assert (F2 : fs s2 = fs s1)
    by (eapply keeps_files_Return;
        [apply keeps_files_validate_documents | exact H2]).
  pose proof (ValidatorFacts.validate_documents_spec _ _ _ H2) as (Fr2 & _ & _).
  destruct ok2; simpl in H; [|discriminate].
  apply bind_Raise in H. destruct H as [H|(ok3 & s3 & H3 & H)].
  { left. rewrite <- F1, <- F2.
    eapply keeps_files_Raise; [apply keeps_files_validate_chunks | exact H]. }
  assert (F3 : fs s3 = fs s2)
    by (eapply keeps_files_Return;
        [apply keeps_files_validate_chunks | exact H3]).
  pose proof (ValidatorFacts.validate_chunks_spec _ _ _ H3) as (Fr3 & Hok3 & _).
  destruct ok3; simpl in H; [|discriminate].
  assert (I3 : issues (self s3) = []) by now apply Hok3.
  apply bind_Raise in H. destruct H as [H|(u4 & s4 & H4 & H)].
  { left. rewrite <- F1, <- F2, <- F3.
    eapply keeps_files_Raise; [apply keeps_files_cross_validate | exact H]. }
  assert (F4 : fs s4 = fs s3)
    by (eapply keeps_files_Return;
        [apply keeps_files_cross_validate | exact H4]).
  apply ValidatorFacts.quiet_cross_validate in H4. destruct H4 as [Fr4 I4].
  apply bind_Raise in H. destruct H as [H|(u5 & s5 & H5 & H)].
  { left. rewrite <- F1, <- F2, <- F3, <- F4.
    eapply keeps_files_Raise;
      [apply keeps_files_generate_statistics | exact H]. }
  assert (F5 : fs s5 = fs s4)
    by (eapply keeps_files_Return;
        [apply keeps_files_generate_statistics | exact H5]).
  apply ValidatorFacts.quiet_generate_statistics in H5.
  destruct H5 as [Fr5 I5].
  assert (I5' : issues (self s5) = []) by congruence.
  assert (D5 : processed_dir (self s5) = processed_dir (self s)).
  { rewrite (frame_dir _ _ Fr5), (frame_dir _ _ Fr4), (frame_dir _ _ Fr3),
      (frame_dir _ _ Fr2). exact D1. }
  apply bind_Raise in H. destruct H as [H|(u6 & s6 & H6 & H)].
  2: { unfold no_issues, bind, read_self, ret in H. discriminate. }
  right.
  destruct (save_report_outcome now s5)
    as (r & Ri & Rw & Rs & Rp & Rt & Hsave).
  rewrite H in Hsave. destruct Hsave as (Re & Hdisk).
  exists r. split.
  { rewrite Hdisk. unfold report_key. rewrite D5. f_equal. congruence. }
  split; [now apply Rs|]. split; [congruence | exact Re].
Qed.

End ValidatorRaise.

(* ===================================================================== *)
(** * The streaming scan: what stays in memory                            *)
(* ===================================================================== *)

Module ExtractorFacts.
Import Extractor.

Lemma scan_eq t a x kids self :
  scan (Elem t a x kids) self
  = (after_end (Elem t a x (fst (scan_children scan kids self))),
     on_end (Elem t a x (fst (scan_children scan kids self)))
       (snd (scan_children scan kids self))).
Proof. simpl. destruct (scan_children scan kids self). reflexivity. Qed.

Lemma after_end_tag e : tag (after_end e) = tag e.
Proof. unfold after_end. destruct (str_eqb _ _); reflexivity. Qed.

(** An element keeps its tag through the scan. *)
Lemma scan_tag e self : tag (fst (scan e self)) = tag e.
Proof.
  destruct e. rewrite scan_eq. simpl fst. rewrite after_end_tag. reflexivity.
Qed.

(** A record is emptied once its event has been handled, whoever its
    author is. *)
Lemma scan_poem e self :
  tag e = lit "Poem" -> fst (scan e self) = Elem (lit "Poem") [] None [].
Proof.
  destruct e as [t a x kids]. simpl tag. intros ->. rewrite scan_eq.
  reflexivity.
Qed.

(** The children of an element all stay, each as its own scan left it. *)
Lemma scan_children_kept kids : forall self,
  Forall2 (fun kid kept =>
             tag kept = tag kid /\
             (tag kid = lit "Poem" -> kept = Elem (lit "Poem") [] None []))
    kids (fst (scan_children scan kids self)).
Proof.
  induction kids as [|kid kids IH]; intros self; simpl.
  - constructor.
  - destruct (scan kid self) as [kid' self1] eqn:E.
    specialize (IH self1).
    destruct (scan_children scan kids self1) as [rest' self2]. simpl in *.
    constructor; [|exact IH].
    replace kid' with (fst (scan kid self)) by now rewrite E.
    split; [apply scan_tag | apply scan_poem].
Qed.













End ExtractorFacts.

(* ===================================================================== *)
(** * Properties of the fixed-window segmenter                            *)
(* ===================================================================== *)

Import QE2.

(** C10. For a document of [n >= 1] words, [_chunk_document] with the
    pipeline's sizes (500 words, overlap 100) returns exactly
    ceil(n/400) chunks; the chunk at position [i] has [chunk_index] [i]
    and holds [min 500 (n - 400 i)] words, between 1 and 500; and its
    [word_count] field is the number of words of its content. *)
Theorem chunk_document_count_and_sizes (document : Document) :
  let n := len (split (full_text (content document))) in
  1 <= n ->
  exists result,
    chunk_document_returns document chunk_size overlap result /\
    len result = (n + 399) / 400 /\
    forall i c, nth_error result i = Some c ->
      chunk_index c = Z.of_nat i /\
      len (chunk_words c) = Z.min 500 (n - 400 * Z.of_nat i) /\
      1 <= len (chunk_words c) <= 500 /\
      chunk_word_count c = len (chunk_words c).
Proof.
  intros n Hn.
  set (words := split (full_text (content document))) in *.
  set (count := Z.to_nat ((n + 399) / 400)).
  assert (Hcount : (Z.of_nat count - 1) * 400 < n - 0 <= Z.of_nat count * 400).
  { subst count. rewrite Z2Nat.id by (apply Z.div_pos; lia).
    pose proof (Z.mul_div_le (n + 399) 400 eq_refl).
    pose proof (Z.mul_succ_div_gt (n + 399) 400 eq_refl). lia. }
  exists (windows document words chunk_size 400 count 0 0). split; [|split].
  - exists (S count). unfold _chunk_document. fold words.
    apply (QE2Facts.while_loop_windows document words chunk_size overlap count);
      [reflexivity | exact Hcount | apply Nat.lt_succ_diag_r].
  - unfold len. rewrite QE2Facts.windows_length. subst count.
    apply Z2Nat.id. apply Z.div_pos; lia.
  - intros i c Hi.
    assert (Hlt : (i < count)%nat).
    { rewrite <- (QE2Facts.windows_length document words chunk_size 400 count 0 0).
      apply nth_error_Some. congruence. }
    rewrite QE2Facts.windows_nth in Hi by assumption.
    injection Hi as <-.
    assert (Hw : Forall word words) by apply PyFacts.split_words.
    assert (Hs : 0 <= 0 + Z.of_nat i * 400 <= len words).
    { change (len words) with n. lia. }
    pose proof (QE2Facts.window_word_count document words chunk_size
                  (0 + Z.of_nat i * 400) (0 + Z.of_nat i) Hw Hs) as Hwc.
    assert (Hcw : len (chunk_words (window document words chunk_size
                    (0 + Z.of_nat i * 400) (0 + Z.of_nat i)))
                  = Z.min 500 (n - 400 * Z.of_nat i)).
    { rewrite QE2Facts.window_words by (assumption || (unfold chunk_size; lia)).
      unfold len, chunk_size. rewrite length_firstn, length_skipn.
      assert (En : n = Z.of_nat (length words)) by reflexivity. lia. }
    rewrite Hcw. split; [|split; [|split]].
    + simpl. lia.
    + reflexivity.
    + lia.
    + rewrite Hwc by (unfold chunk_size; lia).
      change (len words) with n. unfold chunk_size. lia.
Qed.

Lemma chunk_document_count_and_sizes_witness :
  1 <= len (split (full_text (content (sample_document 450)))) /\
  exists result,
    chunk_document_returns (sample_document 450) chunk_size overlap result /\
    len result = 2 /\
    forall i c, nth_error result i = Some c ->
      chunk_index c = Z.of_nat i /\
      len (chunk_words c) = Z.min 500 (450 - 400 * Z.of_nat i) /\
      1 <= len (chunk_words c) <= 500 /\
      chunk_word_count c = len (chunk_words c).
Proof.
  assert (H : 1 <= len (split (full_text (content (sample_document 450)))))
    by (vm_compute; discriminate).
  split; [exact H|].
  exact (chunk_document_count_and_sizes (sample_document 450) H).
Defined.

(** C1. With the pipeline's sizes (500 words, overlap 100, stride 400)
    [_chunk_document] returns chunks in [chunk_index] order; the first
    chunk followed by what each later chunk adds after its 100 repeated
    words is exactly the word sequence of the document; when the document
    has a word, the last chunk has between 1 and 500 words; and a document
    of 1,200 words gives 3 chunks, holding the words from offsets 0, 400
    and 800, the third being words 800 to 1199. *)
Theorem chunk_document_coverage (document : Document) :
  let words := split (full_text (content document)) in
  exists result,
    chunk_document_returns document chunk_size overlap result /\
    map chunk_index result = map Z.of_nat (seq 0 (length result)) /\
    concat (map (fresh_words overlap) result) = words /\
    (words <> [] ->
     exists c, last result = Some c /\ 0 < len (chunk_words c) <= chunk_size) /\
    (len words = 1200 ->
     length result = 3%nat /\
     map chunk_words result
     = [slice words 0 500; slice words 400 900; slice words 800 1200]).
Proof.
  intros words.
  set (n := len words).
  assert (En : n = Z.of_nat (length words)) by reflexivity.
  assert (Hw : Forall word words) by apply PyFacts.split_words.
  set (count := Z.to_nat ((n + 399) / 400)).
  assert (Hcount : (Z.of_nat count - 1) * 400 < n - 0 <= Z.of_nat count * 400).
  { subst count. rewrite Z2Nat.id by (apply Z.div_pos; lia).
    pose proof (Z.mul_div_le (n + 399) 400 eq_refl).
    pose proof (Z.mul_succ_div_gt (n + 399) 400 eq_refl). lia. }
  exists (windows document words chunk_size 400 count 0 0).
  split; [|split; [|split; [|split]]].
  - exists (S count). unfold _chunk_document. fold words.
    apply (QE2Facts.while_loop_windows document words chunk_size overlap count);
      [reflexivity | exact Hcount | apply Nat.lt_succ_diag_r].
  - rewrite QE2Facts.windows_length.
    apply (QE2Facts.windows_index document words chunk_size 400 count 0 0).
    lia.
  - apply (QE2Facts.windows_cover document words chunk_size overlap count);
      [assumption | unfold chunk_size, overlap; lia | exact Hcount].
  - intros Hne. destruct count as [|count].
    + exfalso. apply Hne. apply length_zero_iff_nil.
      change (Z.of_nat 0) with 0 in Hcount. lia.
    + rewrite Nat2Z.inj_succ in Hcount.
      eexists. split; [apply QE2Facts.windows_last|].
      rewrite QE2Facts.window_words
        by (assumption || (unfold chunk_size; fold n; lia)).
      unfold len, chunk_size. rewrite length_firstn, length_skipn. lia.
  - intros H1200. fold n in H1200.
    assert (Ec : count = 3%nat) by (subst count; rewrite H1200; reflexivity).
    rewrite Ec. split; [reflexivity|]. simpl.
    unfold chunk_words, window. simpl chunk_content.
    rewrite !PyFacts.split_join by (apply PyFacts.Forall_slice; assumption).
    fold n. rewrite H1200. reflexivity.
Qed.

Lemma chunk_document_coverage_witness :
  let words := split (full_text (content (sample_document 1200))) in
  len words = 1200 /\ words <> [] /\
  exists result,
    chunk_document_returns (sample_document 1200) chunk_size overlap result /\
    concat (map (fresh_words overlap) result) = words /\
    (exists c, last result = Some c /\ 0 < len (chunk_words c) <= chunk_size) /\
    length result = 3%nat /\
    map chunk_words result
    = [slice words 0 500; slice words 400 900; slice words 800 1200].
Proof.
  intros words.
  assert (H1200 : len words = 1200) by (vm_compute; reflexivity).
  assert (Hne : words <> []) by (vm_compute; discriminate).
  destruct (chunk_document_coverage (sample_document 1200))
    as (result & Hret & _ & Hcover & Hlast & Hex).
  split; [exact H1200|]. split; [exact Hne|].
  exists result. split; [exact Hret|]. split; [exact Hcover|].
  split; [exact (Hlast Hne)|]. exact (Hex H1200).
Defined.

(** C3, as the code has it. [_chunk_document] returns exactly when the
    stride is positive ([overlap < chunk_size], as with the pipeline's 500
    and 100) or the document has no word. The loop has no test on whether
    [start] advances: it is left only when [start] reaches the number of
    words. *)
Theorem chunk_document_terminates_iff (document : Document)
    (chunk_size overlap : Z) :
  (exists result, chunk_document_returns document chunk_size overlap result)
  <-> (overlap < chunk_size \/ split (full_text (content document)) = []).
Proof.
  set (words := split (full_text (content document))).
  split.
  - intros (result & fuel & Hrun).
    destruct (Z.lt_ge_cases overlap chunk_size) as [Hlt|Hge]; [now left|].
    right. destruct words as [|w ws] eqn:Ew; [reflexivity|]. exfalso.
    unfold _chunk_document in Hrun. fold words in Hrun. rewrite Ew in Hrun.
    rewrite QE2Facts.while_loop_stuck in Hrun;
      [discriminate | lia | simpl; lia | unfold len; simpl; lia].
  - intros [Hlt|Hnil].
    + eexists. eexists (S _).
      apply (QE2Facts.chunk_document_windows document words chunk_size overlap);
        [reflexivity | lia | apply Nat.lt_succ_diag_r].
    + exists [], 1%nat. unfold _chunk_document. fold words. rewrite Hnil.
      reflexivity.
Qed.

(** C3 fails when the overlap is not smaller than the window: on a
    document of one word, with window and overlap both 500, [start] stays
    at 0 and the loop never ends. *)
Lemma chunk_document_overlap_loops :
  ~ exists result, chunk_document_returns (sample_document 1) 500 500 result.
Proof.
  intros (result & fuel & Hrun). unfold _chunk_document in Hrun.
  rewrite QE2Facts.while_loop_stuck in Hrun;
    [discriminate | lia | simpl; lia | vm_compute; reflexivity].
Qed.

Lemma chunk_document_terminates_iff_witness :
  exists result, chunk_document_returns (sample_document 3) 500 100 result.
Proof.
  apply (proj2 (chunk_document_terminates_iff (sample_document 3) 500 100)).
  left. reflexivity.
Defined.

(* ===================================================================== *)
(** * Properties of the mapper and of the structure-aware segmenter       *)
(* ===================================================================== *)

Import DuFu.

(** C2, as the code has it. When the poems have pairwise distinct
    identifiers, the chunks that refer to a document are between one and
    three, and as many as one plus one for [has_allusions] plus one for
    [has_annotations]. *)
Theorem structure_aware_chunk_count (extraction_date : str)
    (clock : nat -> str) (poems : list Poem) :
  NoDup (map poem_id poems) ->
  forall doc, In doc (fst (process_all extraction_date clock poems)) ->
    let count :=
      len (chunks_of doc (snd (process_all extraction_date clock poems))) in
    count = 1 + flag (has_allusions (metadata doc))
              + flag (has_annotations (metadata doc))
    /\ 1 <= count <= 3.
Proof.
  intros Hnd doc Hin count. subst count. unfold process_all in *. simpl in *.
  rewrite DuFuFacts.generate_training_chunks_emitted.
  unfold _create_structured_documents in *.
  destruct (DuFuFacts.chunks_of_emitted_all poems doc
              (create_from extraction_date clock 0 poems) 1
              (DuFuFacts.NoDup_doc_ids _ _ _ _ Hnd) Hin) as (cid & _ & ->).
  split; [|apply DuFuFacts.emitted_length].
  apply DuFuFacts.create_from_In in Hin. destruct Hin as (t & p & Hp & ->).
  rewrite (DuFuFacts.emitted_found poems cid _ p)
    by (apply DuFuFacts.find_poem_unique; assumption).
  simpl. rewrite !DuFuFacts.len_pos.
  destruct (truthy (allusions p)), (truthy (text_annotations p)); reflexivity.
Qed.

Lemma structure_aware_chunk_count_witness :
  NoDup (map poem_id [chun_wang]) /\
  In (structured_document sample_date (sample_clock 0) chun_wang)
     (fst (process_all sample_date sample_clock [chun_wang])) /\
  len (chunks_of (structured_document sample_date (sample_clock 0) chun_wang)
         (snd (process_all sample_date sample_clock [chun_wang]))) = 3.
Proof.
  assert (Hnd : NoDup (map poem_id [chun_wang])) by apply NoDup_singleton.
  assert (Hin : In (structured_document sample_date (sample_clock 0) chun_wang)
                   (fst (process_all sample_date sample_clock [chun_wang])))
    by (left; reflexivity).
  split; [exact Hnd|]. split; [exact Hin|].
  exact (proj1 (structure_aware_chunk_count sample_date sample_clock
                  [chun_wang] Hnd _ Hin)).
Defined.

(** C2 fails when two poems share an identifier: the second document has
    neither allusions nor annotations, yet its pass emits an allusion
    chunk from the allusions of the first poem, and four chunks refer to
    its identifier. *)
Lemma duplicate_poem_id_chunk_count :
  let docs := fst (process_all sample_date sample_clock twins_allusion) in
  let chunks := snd (process_all sample_date sample_clock twins_allusion) in
  exists doc, nth_error docs 1 = Some doc /\
    has_allusions (metadata doc) = false /\
    has_annotations (metadata doc) = false /\
    map chunk_type chunks
    = [lit "poem_content"; lit "allusions_context";
       lit "poem_content"; lit "allusions_context"] /\
    len (chunks_of doc chunks) = 4 /\
    ~ (len (chunks_of doc chunks)
       = 1 + flag (has_allusions (metadata doc))
           + flag (has_annotations (metadata doc))
       /\ 1 <= len (chunks_of doc chunks) <= 3).
Proof.
  eexists. split; [reflexivity|].
  split; [reflexivity|]. split; [reflexivity|].
  split; [vm_compute; reflexivity|]. split; [vm_compute; reflexivity|].
  intros [H _]. vm_compute in H. discriminate.
Qed.

(** C8, as the code has it. When the poems have pairwise distinct
    identifiers, a document gets an annotation chunk exactly when its poem
    has an annotation, and then exactly one: under the title and the
    heading, the non-empty texts among the first ten annotations, followed
    by a note of how many more there are exactly when there are more than
    ten. *)
Theorem annotation_context_chunk (extraction_date : str)
    (clock : nat -> str) (poems : list Poem) (i : nat) (poem : Poem) :
  NoDup (map poem_id poems) ->
  nth_error poems i = Some poem ->
  let anns := text_annotations poem in
  let doc := structured_document extraction_date (clock i) poem in
  let found :=
    of_type "annotations_context"
      (chunks_of doc (snd (process_all extraction_date clock poems))) in
  (anns = [] -> found = []) /\
  (anns <> [] ->
   exists c trailer,
     found = [c] /\
     chunk_content c
     = join nl ([lit "Poem: " ++ doc_title doc; [];
                 lit "Scholarly Annotations:"]
                ++ map (fun ann => lit "  " ++ ann_content ann)
                     (List.filter (fun ann => truthy (ann_content ann))
                        (firstn 10 anns))
                ++ trailer) /\
     (len anns <= 10 -> trailer = []) /\
     (10 < len anns ->
      trailer = [nl ++ lit "... and " ++ str_of_int (len anns - 10)
                 ++ lit " more annotations"])).
Proof.
  intros Hnd Hnth anns doc found.
  assert (Hin : In doc (create_from extraction_date clock 0 poems)).
  { apply (nth_error_In _ i). rewrite DuFuFacts.create_from_nth, Hnth.
    reflexivity. }
  assert (Hfound : exists cid,
            found = of_type "annotations_context"
                      (when (truthy (allusions poem)) [chunk2 (cid + 1) doc poem]
                       ++ when (truthy anns)
                            [chunk3 (cid + 1 + flag (truthy (allusions poem)))
                               doc poem])).
  { subst found. unfold process_all. simpl.
    rewrite DuFuFacts.generate_training_chunks_emitted.
    unfold _create_structured_documents.
    destruct (DuFuFacts.chunks_of_emitted_all poems doc
                (create_from extraction_date clock 0 poems) 1
                (DuFuFacts.NoDup_doc_ids _ _ _ _ Hnd) Hin) as (cid & _ & ->).
    exists cid.
    rewrite (DuFuFacts.emitted_found poems cid doc poem); [reflexivity|].
    apply DuFuFacts.find_poem_unique; [assumption|].
    apply (nth_error_In _ i). exact Hnth. }
  destruct Hfound as (cid & Hfound). split.
  - intros Hnil. rewrite Hfound. fold anns. rewrite Hnil.
    destruct (truthy (allusions poem)); reflexivity.
  - intros Hne.
    exists (chunk3 (cid + 1 + flag (truthy (allusions poem))) doc poem).
    exists (when (len anns >? 10)
              [nl ++ lit "... and " ++ str_of_int (len anns - 10)
               ++ lit " more annotations"]).
    split; [|split; [|split]].
    + rewrite Hfound. destruct anns eqn:E; [contradiction|].
      destruct (truthy (allusions poem)); reflexivity.
    + reflexivity.
    + intros Hle. destruct (Z.gtb_spec (len anns) 10); [lia | reflexivity].
    + intros Hgt. destruct (Z.gtb_spec (len anns) 10); [reflexivity | lia].
Qed.

Lemma annotation_context_chunk_witness :
  NoDup (map poem_id [chun_wang]) /\
  nth_error [chun_wang] 0 = Some chun_wang /\
  text_annotations chun_wang <> [] /\
  len (text_annotations chun_wang) <= 10 /\
  exists c,
    of_type "annotations_context"
      (chunks_of (structured_document sample_date (sample_clock 0) chun_wang)
         (snd (process_all sample_date sample_clock [chun_wang]))) = [c] /\
    chunk_content c
    = join nl ([lit "Poem: " ++ title chun_wang; [];
                lit "Scholarly Annotations:"]
               ++ map (fun ann => lit "  " ++ ann_content ann)
                    (text_annotations chun_wang)).
Proof.
  assert (Hnd : NoDup (map poem_id [chun_wang])) by apply NoDup_singleton.
  assert (Hnth : nth_error [chun_wang] 0 = Some chun_wang) by reflexivity.
  assert (Hne : text_annotations chun_wang <> []) by discriminate.
  assert (Hle : len (text_annotations chun_wang) <= 10)
    by (vm_compute; discriminate).
  split; [exact Hnd|]. split; [exact Hnth|]. split; [exact Hne|].
  split; [exact Hle|].
  destruct (proj2 (annotation_context_chunk sample_date sample_clock
                     [chun_wang] 0 chun_wang Hnd Hnth) Hne)
    as (c & trailer & Hc & Hcontent & Hshort & _).
  exists c. split; [exact Hc|]. rewrite Hcontent, (Hshort Hle).
  reflexivity.
Defined.

(** C8 fails on the example of six annotations: the annotation chunk
    holds all six texts and no note of more (the limit of five, with
    "... and 1 more", is that of the Annotations block of the full text).
    It also fails when two poems share an identifier: the second document
    has an annotation and gets no annotation chunk. *)
Lemma six_annotations_no_trailer :
  (let doc := structured_document sample_date (sample_clock 0) chun_wang in
   let chunks := snd (process_all sample_date sample_clock [chun_wang]) in
   len (text_annotations chun_wang) = 6 /\
   exists c,
     of_type "annotations_context" (chunks_of doc chunks) = [c] /\
     chunk_content c
     = join nl [lit "Poem: " ++ title chun_wang; [];
                lit "Scholarly Annotations:";
                lit "  n1"; lit "  n2"; lit "  n3";
                lit "  n4"; lit "  n5"; lit "  n6"] /\
     contains (lit "more") (chunk_content c) = false /\
     contains (lit "  ... and 1 more") (full_text (content doc)) = true) /\
  (let docs := fst (process_all sample_date sample_clock twins_annotation) in
   let chunks := snd (process_all sample_date sample_clock twins_annotation) in
   exists doc, nth_error docs 1 = Some doc /\
     has_annotations (metadata doc) = true /\
     of_type "annotations_context" chunks = []).
Proof.
  split.
  - split; [reflexivity|]. eexists.
    split; [vm_compute; reflexivity|].
    split; [vm_compute; reflexivity|].
    split; vm_compute; reflexivity.
  - eexists. split; [reflexivity|]. split; vm_compute; reflexivity.
Qed.

(** C4, as the code has it. Two runs of the mapper over the same poems
    give documents that differ at most in [source.processed], which holds
    the time of the run: the identifier, title, content and metadata do
    not depend on the clock, and runs that read the same times give the
    same documents. *)
Theorem mapper_rerun (extraction_date : str) (clock1 clock2 : nat -> str)
    (poems : list Poem) :
  let run1 := _create_structured_documents extraction_date clock1 poems in
  let run2 := _create_structured_documents extraction_date clock2 poems in
  Forall2 (fun d1 d2 => d1 = with_processed (processed (source d1)) d2)
    run1 run2 /\
  map (fun d => processed (source d)) run1
  = map clock1 (seq 0 (length poems)) /\
  ((forall i, (i < length poems)%nat -> clock1 i = clock2 i) -> run1 = run2).
Proof.
  intros run1 run2. subst run1 run2. unfold _create_structured_documents.
  split; [apply DuFuFacts.create_from_rerun|].
  split; [apply DuFuFacts.create_from_processed|].
  intros Hclock. apply DuFuFacts.create_from_ext. exact Hclock.
Qed.

Lemma mapper_rerun_witness :
  (forall i, (i < length [chun_wang])%nat -> sample_clock i = sample_clock i) /\
  _create_structured_documents sample_date sample_clock [chun_wang]
  = _create_structured_documents sample_date sample_clock [chun_wang] /\
  Forall2 (fun d1 d2 => d1 = with_processed (processed (source d1)) d2)
    (_create_structured_documents sample_date sample_clock [chun_wang])
    (_create_structured_documents sample_date later_clock [chun_wang]).
Proof.
  assert (H : forall i, (i < length [chun_wang])%nat ->
                        sample_clock i = sample_clock i) by reflexivity.
  split; [exact H|]. split.
  - exact (proj2 (proj2 (mapper_rerun sample_date sample_clock sample_clock
                           [chun_wang])) H).
  - exact (proj1 (mapper_rerun sample_date sample_clock later_clock
                    [chun_wang])).
Defined.

(** C4 fails as stated: the processing time is a field of the document,
    so two runs at different times give different documents. *)
Lemma mapper_rerun_differs :
  _create_structured_documents sample_date sample_clock [chun_wang]
  <> _create_structured_documents sample_date later_clock [chun_wang].
Proof.
  intros E.
  apply (f_equal (map (fun d => processed (source d)))) in E.
  vm_compute in E. discriminate.
Qed.




(* ===================================================================== *)
(** * Properties of the validator                                         *)
(* ===================================================================== *)

Import Validator.

(** C6. A run of the validator that returns passes exactly when no issue
    was recorded, whatever the warnings; [main] exits with 0 when it
    passes and with 1 when it fails, when an exception ends it or when an
    argument is missing; however the run ends, no file other than the
    validation report is changed, and the documents and chunks held in
    memory are those read from their files. *)
Theorem validator_outcome (now : str) (script dataset_name processed_dir : str)
    (rest : list str) (disk : files) :
  let exit := main now (script :: dataset_name :: processed_dir :: rest) disk in
  match validate now (start dataset_name processed_dir disk) with
  | Return (success, s') =>
      (success = true <-> issues (self s') = []) /\
      exit = (if success then 0 else 1, fs s') /\
      (forall key, key <> (processed_dir, "validation_report.json"%string) ->
                   fs s' !! key = disk !! key) /\
      (forall d, documents (self s') = Some d ->
                 disk !! (processed_dir, "structured_documents.json"%string)
                 = Some (Data d)) /\
      (forall c, chunks (self s') = Some c ->
                 disk !! (processed_dir, "training_chunks.json"%string)
                 = Some (Data c))
  | Raise disk' =>
      exit = (1, disk') /\
      (forall key, key <> (processed_dir, "validation_report.json"%string) ->
                   disk' !! key = disk !! key)
  end /\
  main now [] disk = (1, disk) /\
  main now [script] disk = (1, disk) /\
  main now [script; dataset_name] disk = (1, disk).
Proof.
  intros exit. split; [|repeat split].
  subst exit. unfold main. fold (start dataset_name processed_dir disk).
  destruct (validate now (start dataset_name processed_dir disk))
    as [[success s']|disk'] eqn:E.
  - apply ValidatorFacts.validate_spec in E.
    destruct E as ([_ Hdir _ Hfs Hdocs Hchunks] & Hok).
    split; [exact Hok|]. split; [reflexivity|].
    split; [exact Hfs|]. split.
    + intros d Hd. destruct (Hdocs d Hd) as [H|H]; [discriminate | exact H].
    + intros c Hc. destruct (Hchunks c Hc) as [H|H]; [discriminate | exact H].
  - split; [reflexivity|]. intros key Hkey.
    apply ValidatorRaise.validate_raises in E.
    destruct E as [->|(r & -> & _)]; [reflexivity|].
    apply lookup_insert_ne. unfold report_key. simpl. congruence.
Qed.

(** A run that passes with a warning, a run that fails, and a run that
    an exception ends. *)
Lemma validator_outcome_witness :
  (exists s',
     validate sample_now (start (lit "Du Fu") (lit "data") blank_dir)
     = Return (true, s') /\
     issues (self s') = [] /\ warnings (self s') <> [] /\
     main sample_now sample_argv blank_dir = (0, fs s')) /\
  (exists s',
     validate sample_now (start (lit "Du Fu") (lit "data") duplicate_dir)
     = Return (false, s') /\
     issues (self s') <> [] /\
     main sample_now sample_argv duplicate_dir = (1, fs s')) /\
  (exists disk',
     validate sample_now (start (lit "Du Fu") (lit "data") surrogate_dir)
     = Raise disk' /\
     main sample_now sample_argv surrogate_dir = (1, disk') /\
     disk' !! (lit "data", "training_chunks.json"%string)
     = surrogate_dir !! (lit "data", "training_chunks.json"%string)).
Proof.
  split; [|split].
  - pose proof (validator_outcome sample_now (lit "validate_dataset.py")
                  (lit "Du Fu") (lit "data") [] blank_dir) as [H _].
    destruct (validate sample_now (start (lit "Du Fu") (lit "data") blank_dir))
      as [[success s']|] eqn:E; [|vm_compute in E; discriminate].
    assert (Es : success = true) by (vm_compute in E; congruence).
    subst success. destruct H as (Hok & Hexit & _).
    exists s'. split; [reflexivity|]. split; [now apply Hok|].
    split; [|exact Hexit].
    vm_compute in E. injection E as <-. discriminate.
  - pose proof (validator_outcome sample_now (lit "validate_dataset.py")
                  (lit "Du Fu") (lit "data") [] duplicate_dir) as [H _].
    destruct (validate sample_now
                (start (lit "Du Fu") (lit "data") duplicate_dir))
      as [[success s']|] eqn:E; [|vm_compute in E; discriminate].
    assert (Es : success = false) by (vm_compute in E; congruence).
    subst success. destruct H as (Hok & Hexit & _).
    exists s'. split; [reflexivity|]. split; [|exact Hexit].
    intros Hnil. apply Hok in Hnil. discriminate.
  - pose proof (validator_outcome sample_now (lit "validate_dataset.py")
                  (lit "Du Fu") (lit "data") [] surrogate_dir) as [H _].
    destruct (validate sample_now
                (start (lit "Du Fu") (lit "data") surrogate_dir))
      as [[success s']|disk'] eqn:E; [vm_compute in E; discriminate|].
    destruct H as (Hexit & Hkeys).
    exists disk'. split; [reflexivity|]. split; [exact Hexit|].
    apply Hkeys. discriminate.
Defined.




(* ===================================================================== *)
(** * Properties of the streaming extractor                               *)
(* ===================================================================== *)

Import Extractor.

(** C9, on the code. Every record element is emptied after its event,
    whether or not its author matched; but the root is never emptied: at
    the end of the scan it still holds one element for each of its
    children, so the tree in memory grows by one element per record
    scanned. *)
Theorem scan_keeps_every_record (root : Element) :
  tag root <> lit "Poem" ->
  let held := snd (extract_all_dufu_poems root) in
  length (children held) = length (children root) /\
  Forall2 (fun kid kept =>
             tag kept = tag kid /\
             (tag kid = lit "Poem" -> kept = Elem (lit "Poem") [] None []))
    (children root) (children held) /\
  (length (children root) < size held)%nat.
Proof.
  intros Hroot held. subst held. unfold extract_all_dufu_poems.
  destruct root as [t a x kids]. simpl tag in Hroot.
  rewrite ExtractorFacts.scan_eq. simpl snd.
  unfold after_end. simpl tag.
  destruct (str_eqb t (lit "Poem")) eqn:E.
  { apply bool_decide_eq_true in E. contradiction. }
  simpl children.
  pose proof (ExtractorFacts.scan_children_kept kids init) as Hkept.
  assert (Hlen : length (fst (scan_children scan kids init)) = length kids).
  { symmetry. eapply Forall2_length. exact Hkept. }
  split; [exact Hlen|]. split; [exact Hkept|].
  simpl size. rewrite <- Hlen.
  generalize (fst (scan_children scan kids init)). intros l.
  apply Nat.lt_succ_r.
  induction l as [|e l IH]; simpl; [lia|].
  destruct e; simpl. lia.
Qed.

(** On a document of three records, one of them by Du Fu, the scan
    returns that poem and leaves the root with three emptied records. *)
Lemma scan_keeps_every_record_witness :
  tag sample_xml <> lit "Poem" /\
  length (fst (extract_all_dufu_poems sample_xml)) = 1%nat /\
  snd (extract_all_dufu_poems sample_xml)
  = Elem (lit "Poems") [] None
      [Elem (lit "Poem") [] None []; Elem (lit "Poem") [] None [];
       Elem (lit "Poem") [] None []] /\
  length (children (snd (extract_all_dufu_poems sample_xml))) = 3%nat.
Proof.
  assert (H : tag sample_xml <> lit "Poem") by (vm_compute; discriminate).
  split; [exact H|]. split; [vm_compute; reflexivity|].
  split; [vm_compute; reflexivity|].
  exact (proj1 (scan_keeps_every_record sample_xml H)).
Defined.

(* ===================================================================== *)
(** * Further properties of process_data.py                               *)
(* ===================================================================== *)

Import QE2.

(** X1. A document without words gives no chunk, whatever the sizes; and
    with the pipeline's sizes, no chunk is returned only for a document
    without words. *)
Theorem no_words_no_chunks (document : Document) :
  (forall cs ov,
     split (full_text (content document)) = [] ->
     chunk_document_returns document cs ov []) /\
  (forall result,
     chunk_document_returns document chunk_size overlap result ->
     (result = [] <-> split (full_text (content document)) = [])).
Proof.
  split.
  - intros cs ov Hnil. exists 1%nat. unfold _chunk_document. rewrite Hnil.
    reflexivity.
  - intros result [fuel Hrun]. apply QE2Facts.chunk_document_result in Hrun.
    subst result. unfold doc_windows.
    set (words := split (full_text (content document))).
    pose proof (QE2Facts.window_count_bounds words chunk_size overlap eq_refl)
      as Hcount. cbv zeta in Hcount.
    destruct (Z.to_nat _) as [|count] eqn:E.
    + split; [intros _ | reflexivity].
      apply length_zero_iff_nil. change (Z.of_nat 0) with 0 in Hcount.
      unfold len, chunk_size, overlap in Hcount. lia.
    + split; [discriminate|]. intros Hnil. exfalso.
      rewrite Hnil in Hcount. rewrite Nat2Z.inj_succ in Hcount.
      unfold len, chunk_size, overlap in Hcount. simpl in Hcount. lia.
Qed.

Lemma no_words_no_chunks_witness :
  split (full_text (content (sample_document 0))) = [] /\
  chunk_document_returns (sample_document 0) 7 7 [] /\
  (forall result,
     chunk_document_returns (sample_document 0) chunk_size overlap result ->
     result = []).
Proof.
  assert (H : split (full_text (content (sample_document 0))) = [])
    by reflexivity.
  split; [exact H|].
  split; [exact (proj1 (no_words_no_chunks (sample_document 0)) 7 7 H)|].
  intros result Hret.
  exact (proj2 (proj2 (no_words_no_chunks (sample_document 0)) result Hret) H).
Defined.

(** X2. With the pipeline's sizes, a chunk that has a successor holds more
    than 400 words, and its words after the first 400 are the first words
    of its successor (100 of them, or all the successor has). *)
Theorem consecutive_chunks_overlap (document : Document)
    (result : list Chunk) (i : nat) (c c' : Chunk) :
  chunk_document_returns document chunk_size overlap result ->
  nth_error result i = Some c ->
  nth_error result (S i) = Some c' ->
  400 < len (chunk_words c) /\
  skipn 400 (chunk_words c) = firstn 100 (chunk_words c').
Proof.
  intros [fuel Hrun] Hc Hc'. apply QE2Facts.chunk_document_result in Hrun.
  subst result. unfold doc_windows in *.
  set (words := split (full_text (content document))) in *.
  pose proof (QE2Facts.window_count_bounds words chunk_size overlap eq_refl)
    as Hcount. cbv zeta in Hcount.
  set (count := Z.to_nat _) in *.
  assert (Hw : Forall word words) by apply PyFacts.split_words.
  assert (Hi : (S i < count)%nat).
  { rewrite <- (QE2Facts.windows_length document words chunk_size
                  (chunk_size - overlap) count 0 0).
    apply nth_error_Some. congruence. }
  rewrite QE2Facts.windows_nth in Hc, Hc' by lia.
  injection Hc as <-. injection Hc' as <-.
  unfold chunk_size, overlap in *. unfold len in Hcount.
  change (500 - 100) with 400 in *.
  rewrite !QE2Facts.window_words by (assumption || (unfold len; lia)).
  split.
  - unfold len. rewrite length_firstn, length_skipn. lia.
  - rewrite skipn_firstn_comm, skipn_skipn.
    rewrite firstn_firstn.
    replace (Z.to_nat 500 - 400)%nat with 100%nat by lia.
    replace (Nat.min 100 (Z.to_nat 500)) with 100%nat by lia.
    do 2 f_equal. lia.
Qed.

Lemma consecutive_chunks_overlap_witness :
  exists result c c',
    chunk_document_returns (sample_document 450) chunk_size overlap result /\
    nth_error result 0 = Some c /\ nth_error result 1 = Some c' /\
    len (chunk_words c) = 450 /\ len (chunk_words c') = 50 /\
    skipn 400 (chunk_words c) = firstn 100 (chunk_words c').
Proof.
  destruct (_chunk_document 3 (sample_document 450) chunk_size overlap)
    as [[|c [|c' rest]]|] eqn:E; try (vm_compute in E; discriminate).
  assert (Hret : chunk_document_returns (sample_document 450) chunk_size
                   overlap (c :: c' :: rest)) by (exists 3%nat; exact E).
  exists (c :: c' :: rest), c, c'.
  split; [exact Hret|]. split; [reflexivity|]. split; [reflexivity|].
  vm_compute in E. injection E as <- <- _.
  split; [vm_compute; reflexivity|]. split; [vm_compute; reflexivity|].
  exact (proj2 (consecutive_chunks_overlap (sample_document 450) _ 0 _ _
                  Hret eq_refl eq_refl)).
Defined.

(** X3. Whatever the sizes, the chunk at position [i] of what
    [_chunk_document] returns has [chunk_index] [i] and identifier
    "<document id>_chunk_<i>", and carries the identifier, title, metadata
    and source of the document unchanged. *)
Theorem chunks_carry_document (document : Document) (cs ov : Z)
    (result : list Chunk) :
  chunk_document_returns document cs ov result ->
  forall i c, nth_error result i = Some c ->
    chunk_index c = Z.of_nat i /\
    chunk_id c = id document ++ lit "_chunk_" ++ str_of_int (Z.of_nat i) /\
    document_id c = id document /\
    document_title c = title document /\
    chunk_metadata c = metadata document /\
    chunk_source c = source document.
Proof.
  intros [fuel Hrun]. unfold _chunk_document in Hrun.
  apply QE2More.while_loop_labelled in Hrun; [exact Hrun | reflexivity |].
  intros i c Hi. destruct i; discriminate.
Qed.

Lemma chunks_carry_document_witness :
  exists result c,
    chunk_document_returns biography_sample 3 1 result /\
    nth_error result 1 = Some c /\
    chunk_id c = lit "qe2_elizabeth_ii_chunk_1" /\
    document_title c = lit "Elizabeth II".
Proof.
  destruct (_chunk_document 3 biography_sample 3 1)
    as [[|c0 [|c rest]]|] eqn:E; try (vm_compute in E; discriminate).
  assert (Hret : chunk_document_returns biography_sample 3 1 (c0 :: c :: rest))
    by (exists 3%nat; exact E).
  exists (c0 :: c :: rest), c. split; [exact Hret|]. split; [reflexivity|].
  destruct (chunks_carry_document biography_sample 3 1 _ Hret 1%nat c eq_refl)
    as (_ & Hid & _ & Htitle & _).
  split; [rewrite Hid | rewrite Htitle]; vm_compute; reflexivity.
Defined.

(** X4. [_create_chunks] always returns, and always the same list: the
    chunks of the biography followed by those of each article in order,
    each document giving ceil(n/400) chunks for its n words. *)
Theorem create_chunks_in_order (biography : Document)
    (articles : list Document) :
  exists result parts,
    create_chunks_returns biography articles result /\
    (forall other, create_chunks_returns biography articles other ->
                   other = result) /\
    result = concat parts /\
    Forall2 (fun d part =>
               chunk_document_returns d chunk_size overlap part /\
               len part = (len (split (full_text (content d))) + 399) / 400)
      (biography :: articles) parts.
Proof.
  exists (concat (map doc_windows (biography :: articles))),
         (map doc_windows (biography :: articles)).
  split; [eexists; apply QE2Facts.create_chunks_enough|].
  split; [intros other [fuel Hrun];
          now apply QE2Facts.create_chunks_result in Hrun|].
  split; [reflexivity|].
  generalize (biography :: articles). intros docs.
  induction docs as [|d docs IH]; simpl; constructor; [|exact IH].
  split.
  - exists (S (length (doc_windows d))).
    apply QE2Facts.chunk_document_enough. lia.
  - unfold doc_windows, len. rewrite QE2Facts.windows_length.
    unfold chunk_size, overlap. change (500 - 100) with 400.
    rewrite Z2Nat.id by (apply Z.div_pos; lia). f_equal. lia.
Qed.

(** X5. A document identifier is "qe2_" followed by a slug without white
    space, made of underscores, hyphens and alphanumeric characters, with
    no two underscores side by side. *)
Theorem doc_id_is_slug (U : unicode_tables) (document : RawDocument) :
  exists slug,
    _generate_doc_id U document = lit "qe2_" ++ slug /\
    Forall (fun c => isspace c = false) slug /\
    Forall (fun c => c = 95%N \/ c = 45%N \/ isalnum U c = true) slug /\
    no_double_underscore slug.
Proof.
  unfold _generate_doc_id. eexists. split; [reflexivity|].
  set (kept := keep_word_space_dash U _).
  assert (Hkept : Forall (fun c => (isalnum U c || (c =? 95)%N || isspace c
                                    || (c =? 45)%N) = true) kept).
  { subst kept. unfold keep_word_space_dash. apply List.Forall_forall.
    intros c Hc. apply List.filter_In in Hc. apply Hc. }
  pose proof (QE2More.collapse_runs_chars _ kept false Hkept) as Hchars.
  split; [|split].
  - eapply Forall_impl; [exact Hchars|]. intros c [->|[H _]]; [reflexivity|exact H].
  - eapply Forall_impl; [exact Hchars|]. intros c [->|(Hs & Hu & H)]; [now left|].
    apply N.eqb_neq in Hu. rewrite Hs, Hu in H.
    rewrite !orb_false_r in H. apply orb_true_iff in H.
    destruct H as [H|H]; [now right; right|].
    apply N.eqb_eq in H. now right; left.
  - apply QE2More.collapse_runs_spec.
Qed.

(** X6. With the pipeline's sizes, when the words left for the last
    window are at most 100 (n words, 400 k < n <= 400 k + 100, k >= 1),
    the last chunk holds n - 400 k words and none of them is new: they are
    all among the words of the chunk before. *)
Theorem short_tail_is_repeated (document : Document) (k : Z) :
  let n := len (split (full_text (content document))) in
  1 <= k -> 400 * k < n <= 400 * k + 100 ->
  exists result c,
    chunk_document_returns document chunk_size overlap result /\
    last result = Some c /\
    len (chunk_words c) = n - 400 * k /\
    fresh_words overlap c = [].
Proof.
  intros n Hk Hn.
  set (words := split (full_text (content document))) in *.
  assert (En : n = Z.of_nat (length words)) by reflexivity.
  assert (Hw : Forall word words) by apply PyFacts.split_words.
  assert (Hcount : (Z.of_nat (S (Z.to_nat k)) - 1) * (chunk_size - overlap)
                   < len words - 0
                   <= Z.of_nat (S (Z.to_nat k)) * (chunk_size - overlap)).
  { unfold chunk_size, overlap, len. lia. }
  exists (windows document words chunk_size (chunk_size - overlap)
            (S (Z.to_nat k)) 0 0).
  eexists. split; [|split; [apply QE2Facts.windows_last|split]].
  - exists (S (S (Z.to_nat k))). unfold _chunk_document. fold words.
    apply (QE2Facts.while_loop_windows document words chunk_size overlap
             (S (Z.to_nat k))); [reflexivity | exact Hcount | lia].
  - rewrite QE2Facts.window_words
      by (assumption || (unfold chunk_size, overlap, len; lia)).
    unfold len, chunk_size, overlap. rewrite length_firstn, length_skipn. lia.
  - rewrite (QE2Facts.window_fresh document words chunk_size overlap)
      by (assumption || (unfold chunk_size, overlap, len; lia)).
    rewrite skipn_all2; [apply firstn_nil|].
    unfold chunk_size, overlap. lia.
Qed.

Lemma short_tail_is_repeated_witness :
  1 <= 1 /\
  400 * 1 < len (split (full_text (content (sample_document 450))))
          <= 400 * 1 + 100 /\
  exists result c,
    chunk_document_returns (sample_document 450) chunk_size overlap result /\
    last result = Some c /\
    len (chunk_words c) = 50 /\
    fresh_words overlap c = [].
Proof.
  assert (H1 : 1 <= 1) by lia.
  assert (H2 : 400 * 1 < len (split (full_text (content (sample_document 450))))
               <= 400 * 1 + 100) by (vm_compute; split; [reflexivity | discriminate]).
  split; [exact H1|]. split; [exact H2|].
  exact (short_tail_is_repeated (sample_document 450) 1 H1 H2).
Defined.

(* ===================================================================== *)
(** * Further properties of process_for_rag.py                            *)
(* ===================================================================== *)

Import DuFu.

(** X7. Chunk identifiers are numbered in output order from 1: the chunk
    at position [k] (from 0) is "dufu_chunk_" followed by [k + 1] padded
    to four digits. *)
Theorem chunk_ids_sequential (poems : list Poem) (docs : list Document)
    (k : nat) (c : Chunk) :
  nth_error (_generate_training_chunks poems docs) k = Some c ->
  chunk_id c = lit "dufu_chunk_" ++ format_04d (Z.of_nat k + 1).
Proof.
  intros Hk. rewrite DuFuFacts.generate_training_chunks_emitted in Hk.
  assert (Hlt : (k < length (emitted_all poems 1 docs))%nat)
    by (apply nth_error_Some; congruence).
  apply (map_nth_error chunk_id) in Hk.
  rewrite DuFuFacts.emitted_all_ids in Hk.
  rewrite (map_nth_error _ k (seq 0 (length (emitted_all poems 1 docs)))
             (d := k)) in Hk.
  - injection Hk as <-. unfold number. do 2 f_equal. lia.
  - rewrite nth_error_nth' with (d := 0%nat) by now rewrite length_seq.
    now rewrite seq_nth.
Qed.

Lemma chunk_ids_sequential_witness :
  exists c,
    nth_error (_generate_training_chunks [chun_wang]
                 (_create_structured_documents sample_date sample_clock
                    [chun_wang])) 2 = Some c /\
    chunk_id c = lit "dufu_chunk_0003".
Proof.
  destruct (nth_error (_generate_training_chunks [chun_wang]
                         (_create_structured_documents sample_date
                            sample_clock [chun_wang])) 2)
    as [c|] eqn:E; [|vm_compute in E; discriminate].
  exists c. split; [reflexivity|].
  exact (chunk_ids_sequential _ _ 2 c E).
Defined.

(** X8. Every chunk refers to a document of the run: its
    [source_document_id] is the identifier of one of the documents the
    chunks were generated from. *)
Theorem chunks_reference_documents (poems : list Poem)
    (docs : list Document) :
  Forall (fun c => In (source_document_id c) (map doc_id docs))
    (_generate_training_chunks poems docs).
Proof.
  rewrite DuFuFacts.generate_training_chunks_emitted.
  apply DuFuMore.emitted_all_source.
Qed.

(** X9. Whatever the poems, there is exactly one [poem_content] chunk per
    document, and the number of chunks is between the number of documents
    and three times that number. *)
Theorem chunk_totals (poems : list Poem) (docs : list Document) :
  let chunks := _generate_training_chunks poems docs in
  len (of_type "poem_content" chunks) = len docs /\
  len docs <= len chunks <= 3 * len docs.
Proof.
  intros chunks. subst chunks.
  rewrite DuFuFacts.generate_training_chunks_emitted.
  destruct (DuFuMore.emitted_all_counts poems docs 1) as [H1 H2].
  unfold len. split; lia.
Qed.

(** X10. When the poems have pairwise distinct identifiers, a document
    gets an allusion chunk exactly when its poem has an allusion, even if
    every allusion text is empty; there is then exactly one, holding the
    title, the heading and the non-empty allusion texts, and recording the
    number of allusions. *)
Theorem allusion_context_chunk (extraction_date : str)
    (clock : nat -> str) (poems : list Poem) (i : nat) (poem : Poem) :
  NoDup (map poem_id poems) ->
  nth_error poems i = Some poem ->
  let doc := structured_document extraction_date (clock i) poem in
  let found :=
    of_type "allusions_context"
      (chunks_of doc (snd (process_all extraction_date clock poems))) in
  (allusions poem = [] -> found = []) /\
  (allusions poem <> [] ->
   exists c,
     found = [c] /\
     chunk_content c
     = join nl ([lit "Poem: " ++ doc_title doc; [];
                 lit "Literary Allusions and References:"]
                ++ map (fun a => lit "  " ++ text a)
                     (List.filter (fun a => truthy (text a))
                        (allusions poem))) /\
     chunk_allusion_count (chunk_metadata c) = Some (len (allusions poem)) /\
     (Forall (fun a => text a = []) (allusions poem) ->
      chunk_content c
      = join nl [lit "Poem: " ++ doc_title doc; [];
                 lit "Literary Allusions and References:"])).
Proof.
  intros Hnd Hnth doc found.
  assert (Hin : In doc (create_from extraction_date clock 0 poems)).
  { apply (nth_error_In _ i). rewrite DuFuFacts.create_from_nth, Hnth.
    reflexivity. }
  assert (Hfound : exists cid,
            found = of_type "allusions_context"
                      (when (truthy (allusions poem)) [chunk2 (cid + 1) doc poem]
                       ++ when (truthy (text_annotations poem))
                            [chunk3 (cid + 1 + flag (truthy (allusions poem)))
                               doc poem])).
  { subst found. unfold process_all. simpl.
    rewrite DuFuFacts.generate_training_chunks_emitted.
    unfold _create_structured_documents.
    destruct (DuFuFacts.chunks_of_emitted_all poems doc
                (create_from extraction_date clock 0 poems) 1
                (DuFuFacts.NoDup_doc_ids _ _ _ _ Hnd) Hin) as (cid & _ & ->).
    exists cid.
    rewrite (DuFuFacts.emitted_found poems cid doc poem); [reflexivity|].
    apply DuFuFacts.find_poem_unique; [assumption|].
    apply (nth_error_In _ i). exact Hnth. }
  destruct Hfound as (cid & Hfound). split.
  - intros Hnil. rewrite Hfound, Hnil.
    destruct (truthy (text_annotations poem)); reflexivity.
  - intros Hne. exists (chunk2 (cid + 1) doc poem).
    split; [|split; [reflexivity|split; [reflexivity|]]].
    + rewrite Hfound. destruct (allusions poem); [contradiction|].
      destruct (truthy (text_annotations poem)); reflexivity.
    + intros Hempty. simpl. do 2 f_equal.
      replace (List.filter (fun a => truthy (text a)) (allusions poem))
        with (@nil Allusion); [reflexivity|].
      clear -Hempty. induction Hempty as [|a l Ha Hl IH]; simpl;
        [reflexivity|]. rewrite Ha. simpl. exact IH.
Qed.

Lemma allusion_context_chunk_witness :
  NoDup (map poem_id [chun_wang]) /\
  nth_error [chun_wang] 0 = Some chun_wang /\
  allusions chun_wang <> [] /\
  exists c,
    of_type "allusions_context"
      (chunks_of (structured_document sample_date (sample_clock 0) chun_wang)
         (snd (process_all sample_date sample_clock [chun_wang]))) = [c] /\
    chunk_allusion_count (chunk_metadata c) = Some 2.
Proof.
  assert (Hnd : NoDup (map poem_id [chun_wang])) by apply NoDup_singleton.
  assert (Hnth : nth_error [chun_wang] 0 = Some chun_wang) by reflexivity.
  assert (Hne : allusions chun_wang <> []) by discriminate.
  split; [exact Hnd|]. split; [exact Hnth|]. split; [exact Hne|].
  destruct (proj2 (allusion_context_chunk sample_date sample_clock
                     [chun_wang] 0 chun_wang Hnd Hnth) Hne)
    as (c & Hc & _ & Hcount & _).
  exists c. split; [exact Hc | exact Hcount].
Defined.

(** X11. Every mapped document has a non-empty title ("Untitled" when the
    poem has none), counts its lines and the characters of its lines, and
    flags allusions and annotations exactly when their counts are
    positive; its first chunk therefore always opens with the "Poem
    Title:" line. *)
Theorem mapped_document_fields (extraction_date now : str) (poem : Poem)
    (chunk_id : Z) :
  let doc := structured_document extraction_date now poem in
  doc_title doc <> [] /\
  (title poem = [] -> doc_title doc = lit "Untitled") /\
  line_count (content doc) = len (poem_lines (content doc)) /\
  char_count (content doc) = len (concat (poem_lines (content doc))) /\
  (has_allusions (metadata doc) = true <-> 0 < allusion_count (metadata doc)) /\
  (has_annotations (metadata doc) = true
   <-> 0 < annotation_count (metadata doc)) /\
  exists rest,
    chunk_content (chunk1 chunk_id doc)
    = join nl ((lit "Poem Title: " ++ doc_title doc) :: rest).
Proof.
  intros doc. subst doc. simpl.
  assert (Htitle : or_else (title poem) (lit "Untitled") <> []).
  { unfold or_else. destruct (title poem); simpl; discriminate. }
  split; [exact Htitle|].
  split; [intros ->; reflexivity|].
  split; [reflexivity|].
  split; [unfold sum_len; now rewrite DuFuMore.sum_len_concat|].
  split; [apply Z.gtb_lt|]. split; [apply Z.gtb_lt|].
  destruct (or_else (title poem) (lit "Untitled")) eqn:E; [contradiction|].
  simpl. eexists. reflexivity.
Qed.

(* ===================================================================== *)
(** * Further properties of validate_dataset.py                           *)
(* ===================================================================== *)

Import Validator.

(** X12. [_check_required_files] always returns; it looks at all three
    files, records one issue for each one that is missing, in order, and
    returns [True] exactly when none is missing; it writes nothing. *)
Theorem required_files_checked (s : state) :
  exists ok s',
    _check_required_files s = Return (ok, s') /\
    issues (self s')
    = issues (self s) ++ map RequiredFileMissing (missing_files s) /\
    (ok = true <-> missing_files s = []) /\
    fs s' = fs s.
Proof.
  destruct (_check_required_files s) as [[ok s']|] eqn:E.
  - exists ok, s'. split; [reflexivity|].
    apply ValidatorMore.check_files_spec in E.
    destruct E as (Hfs & _ & Hiss & Hok).
    split; [exact Hiss|]. split; [|exact Hfs].
    unfold missing_files. rewrite Hok. unfold required_files. simpl.
    destruct (fs s !! (processed_dir (self s), "structured_documents.json"%string)),
             (fs s !! (processed_dir (self s), "training_chunks.json"%string)),
             (fs s !! (processed_dir (self s), "dataset_metadata.json"%string));
      simpl; split; (reflexivity || discriminate).
  - exfalso. unfold _check_required_files, required_files in E.
    simpl in E. unfold bind, read_self, read_fs, add_issue, update, ret in E.
    simpl in E.
    repeat match type of E with
           | context [match ?x !! ?k with _ => _ end] =>
               destruct (x !! k); simpl in E
           end; discriminate.
Qed.

(** X13. How a run of [validate] leaves the file system. A run that
    returns [False] writes nothing. A run that returns [True] has written
    the whole report, which says "passed" and lists no issue. A run that
    an exception ends has written nothing either, unless the exception is
    that of [json.dump] on a string that cannot be encoded: then the
    report file holds the beginning of a report that says "passed". No
    report that says "failed" is ever written. *)
Theorem report_only_on_pass (now : str) (s : state) :
  match validate now s with
  | Return (success, s') =>
      if success then
        exists r,
          fs s' = <[report_key s := Written r]> (fs s) /\
          status r = "passed"%string /\ report_issues r = [] /\
          total_issues r = 0 /\ validation_passed r = true /\
          report_warnings r = warnings (self s') /\
          report_encodable r = true
      else fs s' = fs s
  | Raise disk =>
      disk = fs s \/
      exists r,
        disk = <[report_key s := Truncated r]> (fs s) /\
        status r = "passed"%string /\ report_issues r = [] /\
        report_encodable r = false
  end.
Proof.
  destruct (validate now s) as [[success s']|disk] eqn:E.
  - apply ValidatorRaise.validate_returns in E. destruct E as [Hf Ht].
    destruct success; [now apply Ht | now apply Hf].
  - now apply ValidatorRaise.validate_raises in E.
Qed.

(** X14. When [_validate_documents] returns [True], the documents file
    holds a non-empty list of dicts, each with the four required fields,
    and no identifier that is true as a truth value equals an earlier one;
    no issue had been recorded before. Identifiers that are absent, empty
    or otherwise false are not compared. *)
Theorem documents_pass_sound (s s' : state) :
  _validate_documents s = Return (true, s') ->
  exists docs,
    fs s !! (processed_dir (self s), "structured_documents.json"%string)
    = Some (Data (JList docs)) /\
    docs <> [] /\
    Forall (fun doc =>
              exists fields,
                doc = JObj fields /\
                Forall (fun field => has_key fields (lit field) = true)
                  required_fields) docs /\
    pairwise_distinct (compared_ids docs) /\
    issues (self s) = [].
Proof.
  intros H. pose proof (ValidatorFacts.validate_documents_spec _ _ _ H)
    as (Hframe & Hok & _).
  assert (Hnil : issues (self s') = []) by now apply Hok.
  assert (Hnil0 : issues (self s) = [])
    by (eapply ValidatorMore.issues_empty_before; eassumption).
  unfold _validate_documents in H.
  apply ValidatorFacts.bind_Some in H. destruct H as (v & s0 & Hv & H).
  injection Hv as <- <-.
  apply ValidatorFacts.bind_Some in H. destruct H as (disk & s0 & Hd & H).
  injection Hd as <- <-.
  assert (Hfalse : forall m st, (add_issue m ;;; ret false) st
                                <> Return (true, s')).
  { intros m st Hm. apply ValidatorFacts.bind_Some in Hm.
    destruct Hm as (u & s1 & _ & Hm). discriminate. }
  destruct (fs s !! _) as [[| loaded | r | r]|] eqn:Hfile;
    try (exfalso; exact (Hfalse _ _ H)).
  apply ValidatorFacts.bind_Some in H. destruct H as (u & s1 & Hset & H).
  destruct loaded as [| | | | [|d docs] |];
    try (exfalso; exact (Hfalse _ _ H)).
  apply ValidatorFacts.bind_Some in H. destruct H as (ids & s2 & Hloop & H).
  apply ValidatorFacts.no_issues_spec in H. destruct H as [-> _].
  destruct (ValidatorMore.validate_documents_clean _ _ _ _ _ _ Hloop Hnil)
    as [Hdocs Hfresh].
  exists (d :: docs). split; [reflexivity|]. split; [discriminate|].
  split; [exact Hdocs|]. split; [|exact Hnil0].
  eapply ValidatorMore.fresh_ids_pairwise. exact Hfresh.
Qed.

(** X15. When [_validate_chunks] returns [True], the chunks file holds a
    non-empty list of dicts; every chunk has an identifier ([id] or
    [chunk_id]) and a source document ([source_document_id] or
    [document_id]) that are true as truth values, and no chunk identifier
    equals an earlier one. *)
Theorem chunks_pass_sound (s s' : state) :
  _validate_chunks s = Return (true, s') ->
  exists cs,
    fs s !! (processed_dir (self s), "training_chunks.json"%string)
    = Some (Data (JList cs)) /\
    cs <> [] /\
    Forall (fun chunk =>
              exists fields,
                chunk = JObj fields /\
                truth (chunk_id_of fields) = true /\
                truth (source_id_of fields) = true) cs /\
    pairwise_distinct (chunk_ids_of cs).
Proof.
  intros H. pose proof (ValidatorFacts.validate_chunks_spec _ _ _ H)
    as (Hframe & Hok & _).
  assert (Hnil : issues (self s') = []) by now apply Hok.
  unfold _validate_chunks in H.
  apply ValidatorFacts.bind_Some in H. destruct H as (v & s0 & Hv & H).
  injection Hv as <- <-.
  apply ValidatorFacts.bind_Some in H. destruct H as (disk & s0 & Hd & H).
  injection Hd as <- <-.
  assert (Hfalse : forall m st, (add_issue m ;;; ret false) st
                                <> Return (true, s')).
  { intros m st Hm. apply ValidatorFacts.bind_Some in Hm.
    destruct Hm as (u & s1 & _ & Hm). discriminate. }
  destruct (fs s !! _) as [[| loaded | r | r]|] eqn:Hfile;
    try (exfalso; exact (Hfalse _ _ H)).
  apply ValidatorFacts.bind_Some in H. destruct H as (u & s1 & Hset & H).
  destruct loaded as [| | | | [|c cs] |];
    try (exfalso; exact (Hfalse _ _ H)).
  apply ValidatorFacts.bind_Some in H. destruct H as (ids & s2 & Hloop & H).
  apply ValidatorFacts.no_issues_spec in H. destruct H as [-> _].
  destruct (ValidatorMore.validate_chunks_clean _ _ _ _ _ _ Hloop Hnil)
    as [Hcs Hfresh].
  exists (c :: cs). split; [reflexivity|]. split; [discriminate|].
  split; [exact Hcs|].
  eapply ValidatorMore.fresh_ids_pairwise. exact Hfresh.
Qed.

Lemma documents_pass_sound_witness :
  exists s' docs,
    _validate_documents (start (lit "Du Fu") (lit "data") blank_dir)
    = Return (true, s') /\
    blank_dir !! (lit "data", "structured_documents.json"%string)
    = Some (Data (JList docs)) /\
    pairwise_distinct (compared_ids docs).
Proof.
  destruct (_validate_documents (start (lit "Du Fu") (lit "data") blank_dir))
    as [[ok s']|] eqn:E; [|vm_compute in E; discriminate].
  assert (Eok : ok = true) by (vm_compute in E; congruence). subst ok.
  destruct (documents_pass_sound _ _ E) as (docs & Hfile & _ & _ & Hd & _).
  exists s', docs. split; [reflexivity|]. split; [exact Hfile | exact Hd].
Defined.

Lemma chunks_pass_sound_witness :
  exists s' cs,
    _validate_chunks (start (lit "Du Fu") (lit "data") blank_dir)
    = Return (true, s') /\
    blank_dir !! (lit "data", "training_chunks.json"%string)
    = Some (Data (JList cs)) /\
    pairwise_distinct (chunk_ids_of cs).
Proof.
  destruct (_validate_chunks (start (lit "Du Fu") (lit "data") blank_dir))
    as [[ok s']|] eqn:E; [|vm_compute in E; discriminate].
  assert (Eok : ok = true) by (vm_compute in E; congruence). subst ok.
  destruct (chunks_pass_sound _ _ E) as (cs & Hfile & _ & _ & Hd).
  exists s', cs. split; [reflexivity|]. split; [exact Hfile | exact Hd].
Defined.

(** X16. [_cross_validate] never records an issue and writes nothing:
    chunks whose source document is not among the documents give one
    warning that carries their number, and no warning when there is none;
    so orphaned chunks alone never make validation fail. *)
Theorem orphans_only_warn (s : state) (docs cs : list json) (s' : state) :
  documents (self s) = Some (JList docs) ->
  chunks (self s) = Some (JList cs) ->
  _cross_validate s = Return (tt, s') ->
  let n := len (List.filter (orphan (document_ids docs)) cs) in
  issues (self s') = issues (self s) /\
  fs s' = fs s /\
  warnings (self s')
  = warnings (self s) ++ (if 0 <? n then [OrphanChunks n] else []).
Proof.
  intros Hdocs Hcs H n. subst n. unfold _cross_validate in H.
  apply ValidatorFacts.bind_Some in H. destruct H as (v & s0 & Hv & H).
  injection Hv as <- <-. rewrite Hdocs, Hcs in H.
  apply ValidatorFacts.bind_Some in H. destruct H as (d & s0 & Hd & H).
  injection Hd as <- <-.
  apply ValidatorFacts.bind_Some in H. destruct H as (c & s0 & Hc & H).
  injection Hc as <- <-.
  apply ValidatorFacts.bind_Some in H. destruct H as (ids & s0 & Hids & H).
  apply ValidatorMore.id_set_spec in Hids. destruct Hids as [-> ->].
  apply ValidatorFacts.bind_Some in H. destruct H as (l & s0 & Hl & H).
  apply ValidatorMore.orphans_spec in Hl. destruct Hl as [Hlen ->].
  unfold len. rewrite <- Hlen.
  destruct l as [|x l]; simpl in H.
  - injection H as <-. simpl. now rewrite app_nil_r.
  - injection H as <-. simpl. split; [reflexivity|]. split; [reflexivity|].
    replace (0 <? Z.of_nat (S (length l))) with true
      by (symmetry; apply Z.ltb_lt; lia).
    reflexivity.
Qed.

Lemma orphans_only_warn_witness :
  exists s',
    _cross_validate (loaded_state [sample_doc "dufu_1"] orphan_chunks)
    = Return (tt, s') /\
    issues (self s') = [] /\
    warnings (self s') = [OrphanChunks 1].
Proof.
  destruct (_cross_validate (loaded_state [sample_doc "dufu_1"] orphan_chunks))
    as [[[] s']|] eqn:E; [|vm_compute in E; discriminate].
  exists s'. split; [reflexivity|].
  destruct (orphans_only_warn
              (loaded_state [sample_doc "dufu_1"] orphan_chunks)
              [sample_doc "dufu_1"] orphan_chunks s'
              eq_refl eq_refl E) as (Hi & _ & Hw).
  split; [exact Hi|]. rewrite Hw. vm_compute. reflexivity.
Defined.

(* ===================================================================== *)
(** * Further properties of the extractor                                 *)
(* ===================================================================== *)

Import Extractor.



